(** * leibniz: size-adaptive file fingerprints and the filtered directory walk

    A shallow embedding of [leibniz.go].  The program walks a directory
    tree breadth first, filters the entries through exclusion and
    inclusion patterns, fingerprints every qualifying regular file with
    [SmartHash] and records the fingerprint in a catalog.

    Layout:
    - [XXH64]: the 64-bit hash of [github.com/OneOfOne/xxhash], over [Z]
      with the wrap-around written out;
    - errors, files and [ReadAt] / [io_Copy];
    - [fullHash], [sampleHash], [SmartHash];
    - [RegexFlag], the catalog, [HashAndCatalog], and the loop of
      [Catalog.Run] as a step function over an explicit queue;
    - the theorems. *)

From Stdlib Require Import ZArith Strings.Byte Strings.Ascii.
From stdpp Require Import base tactics option list strings.

Local Open Scope Z_scope.

(** ** Machine integers *)

Definition two64 : Z := 2 ^ 64.

(** [uint64(x)]: the value of [x] as an unsigned 64-bit integer. *)
Definition uint64 (x : Z) : Z := x mod two64.

(** [int64(x)]: the value of [x] as a signed 64-bit integer. *)
Definition int64 (x : Z) : Z := (x + 2 ^ 63) mod two64 - 2 ^ 63.

Definition byte_to_Z (b : byte) : Z := Z.of_N (Byte.to_N b).

Definition byte_of_Z (z : Z) : byte :=
  match Byte.of_N (Z.to_N (z mod 256)) with
  | Some b => b
  | None => x00
  end.

(** [binary.LittleEndian.PutUint64]: the eight bytes of [v], lowest first. *)
Definition PutUint64 (v : Z) : list byte :=
  map (fun k => byte_of_Z (Z.land (Z.shiftr v (8 * k)) 255))
      [0; 1; 2; 3; 4; 5; 6; 7].

(** [binary.Write(buf, binary.LittleEndian, []uint64{...})] into a fresh
    [bytes.Buffer]: it cannot fail, and the buffer holds the words one
    after the other. *)
Definition binary_Write_LE (ws : list Z) : list byte :=
  concat (map PutUint64 ws).

(** Little-endian reading of a byte string as a number. *)
Fixpoint le_word (bs : list byte) : Z :=
  match bs with
  | [] => 0
  | b :: rest => byte_to_Z b + 256 * le_word rest
  end.

(** ** XXH64 *)

Module XXH64.

Definition prime1 : Z := 11400714785074694791.
Definition prime2 : Z := 14029467366897019727.
Definition prime3 : Z := 1609587929392839161.
Definition prime4 : Z := 9650029242287828579.
Definition prime5 : Z := 2870177450012600261.

Definition add (a b : Z) : Z := uint64 (a + b).
Definition mul (a b : Z) : Z := uint64 (a * b).
Definition sub (a b : Z) : Z := uint64 (a - b).
Definition rotl (x r : Z) : Z :=
  uint64 (Z.lor (Z.shiftl x r) (Z.shiftr x (64 - r))).

Definition round (acc input : Z) : Z :=
  mul (rotl (add acc (mul input prime2)) 31) prime1.

Definition mergeRound (acc val : Z) : Z :=
  add (mul (Z.lxor acc (round 0 val)) prime1) prime4.

Definition avalanche (h : Z) : Z :=
  let h := mul (Z.lxor h (Z.shiftr h 33)) prime2 in
  let h := mul (Z.lxor h (Z.shiftr h 29)) prime3 in
  Z.lxor h (Z.shiftr h 32).

(** The four accumulators over the 32-byte stripes; what is left over
    (fewer than 32 bytes) is returned with them. *)
Fixpoint stripes (fuel : nat) (v1 v2 v3 v4 : Z) (bs : list byte)
  : Z * Z * Z * Z * list byte :=
  match fuel with
  | O => (v1, v2, v3, v4, bs)
  | S fuel' =>
      if decide (32 <= length bs)%nat then
        stripes fuel'
          (round v1 (le_word (take 8 bs)))
          (round v2 (le_word (take 8 (drop 8 bs))))
          (round v3 (le_word (take 8 (drop 16 bs))))
          (round v4 (le_word (take 8 (drop 24 bs))))
          (drop 32 bs)
      else (v1, v2, v3, v4, bs)
  end.

(** The tail: 8-byte words, then one 4-byte word, then single bytes. *)
Fixpoint finalize (fuel : nat) (h : Z) (bs : list byte) : Z :=
  match fuel with
  | O => h
  | S fuel' =>
      if decide (8 <= length bs)%nat then
        let k := round 0 (le_word (take 8 bs)) in
        finalize fuel'
          (add (mul (rotl (Z.lxor h k) 27) prime1) prime4) (drop 8 bs)
      else if decide (4 <= length bs)%nat then
        let k := mul (le_word (take 4 bs)) prime1 in
        finalize fuel'
          (add (mul (rotl (Z.lxor h k) 23) prime2) prime3) (drop 4 bs)
      else
        match bs with
        | [] => h
        | b :: rest =>
            let k := mul (byte_to_Z b) prime5 in
            finalize fuel' (mul (rotl (Z.lxor h k) 11) prime1) rest
        end
  end.

Definition Checksum64S (bs : list byte) (seed : Z) : Z :=
  let n := length bs in
  let '(h, rest) :=
    if decide (32 <= n)%nat then
      let '(v1, v2, v3, v4, rest) :=
        stripes n (add (add seed prime1) prime2) (add seed prime2)
                seed (sub seed prime1) bs in
      let h := add (add (rotl v1 1) (rotl v2 7))
                   (add (rotl v3 12) (rotl v4 18)) in
      let h := mergeRound h v1 in
      let h := mergeRound h v2 in
      let h := mergeRound h v3 in
      let h := mergeRound h v4 in
      (h, rest)
    else (add seed prime5, bs) in
  avalanche (finalize (length rest) (add h (Z.of_nat n)) rest).

(** The streaming interface: [New64], [Write], [Sum64].  The digest
    after a sequence of writes is the checksum (seed 0) of the bytes
    written so far, in order; the state is that byte sequence. *)
Definition state : Type := list byte.
Definition New64 : state := [].
Definition Write (xx : state) (p : list byte) : state := xx ++ p.
Definition Sum64 (xx : state) : Z := Checksum64S xx 0.

End XXH64.

(** ** Errors *)

(** The error values the program tells apart: [io.EOF], an
    [*os.PathError] (operation, path, and the message of the wrapped
    error), and the errors built by [fmt.Errorf]. *)
Inductive error : Type :=
  | EOF
  | PathError (Op Path Err : string)
  | errorString (s : string).

(** [err.Error()] *)
Definition Error (e : error) : string :=
  match e with
  | EOF => "EOF"
  | PathError op p msg => op +:+ " " +:+ p +:+ ": " +:+ msg
  | errorString s => s
  end.

(** [err == io.EOF] *)
Definition is_EOF (err : option error) : bool :=
  match err with
  | Some EOF => true
  | _ => false
  end.

(** A Go result pair [(v, err)]: either the value with a nil error, or
    the error (the value returned with it is never looked at). *)
Inductive result (A : Type) : Type :=
  | Ok (v : A)
  | Err (e : error).
Arguments Ok {A} v.
Arguments Err {A} e.

(** ** Files *)

(** What the program reads of an [os.FileInfo]. *)
Record FileInfo : Type := mkFileInfo {
  Name : string;
  Size : Z;
  Mode : Z;
  ModTime : Z
}.

(** An open [*os.File]: its name, the bytes it holds when it is read
    (which need not be as many as the size that was reported for it
    earlier), the byte positions at which the device fails to deliver
    ([fbad]; a read that reaches such a position stops there with an I/O
    error), and what [Readdir(0)] answers on it. *)
Record File : Type := mkFile {
  fname : string;
  fdata : list byte;
  fbad : Z -> bool;
  Readdir : result (list FileInfo)
}.

Definition read_error (f : File) : error :=
  PathError "read" (fname f) "input/output error".

(** The [pread] loop of [ReadAt]: up to [n] bytes from position [pos],
    where [src] is what the file holds from [pos] on.  It stops early at
    the end of the file ([io.EOF]) or at a failing position. *)
Fixpoint pread (f : File) (n : nat) (pos : Z) (src : list byte)
  : list byte * option error :=
  match n with
  | O => ([], None)
  | S n' =>
      match src with
      | [] => ([], Some EOF)
      | b :: rest =>
          if fbad f pos then ([], Some (read_error f))
          else
            let '(got, err) := pread f n' (pos + 1) rest in
            (b :: got, err)
      end
  end.

(** [make([]byte, n)] *)
Definition make (n : nat) : list byte := replicate n x00.

(** [file.ReadAt(buf, off)]: the buffer afterwards, the number of bytes
    read, and the error.  Bytes of the buffer that were not read into
    keep what they held. *)
Definition ReadAt (f : File) (buf : list byte) (off : Z)
  : list byte * Z * option error :=
  if off <? 0 then
    (buf, 0, Some (PathError "readat" (fname f) "negative offset"))
  else
    let '(got, err) :=
      pread f (length buf) off (drop (Z.to_nat off) (fdata f)) in
    (got ++ drop (length got) buf, Z.of_nat (length got), err).

(** Reading a file from the start until its end, as [io.Copy] does: the
    end of the file is not an error. *)
Fixpoint read_all (f : File) (pos : Z) (src : list byte)
  : list byte * option error :=
  match src with
  | [] => ([], None)
  | b :: rest =>
      if fbad f pos then ([], Some (read_error f))
      else
        let '(got, err) := read_all f (pos + 1) rest in
        (b :: got, err)
  end.

(** [io.Copy(xx, file)] on a freshly opened file. *)
Definition io_Copy (xx : XXH64.state) (f : File)
  : XXH64.state * Z * option error :=
  let '(got, err) := read_all f 0 (fdata f) in
  (XXH64.Write xx got, Z.of_nat (length got), err).

(** ** The fingerprint engine *)

Definition fullHash (file : File) (size : Z) : result (list byte) :=
  let xx := XXH64.New64 in
  let '(xx, _, err) := io_Copy xx file in
  match err with
  | Some e => Err e
  | None => Ok (binary_Write_LE [XXH64.Sum64 xx; uint64 size])
  end.

(** The three offsets of [sampleHash]; [size] is an [int64], [/] is Go's
    truncating division. *)
Definition offsets (size : Z) : list Z :=
  [0; int64 (Z.quot size 2); int64 (size - 1024)].

(** The [for i, offset := range offsets] loop of [sampleHash].  [err] is
    the variable declared before the loop: every pass overwrites it.
    [Err] is the early return from inside the loop. *)
Fixpoint sample_loop (file : File) (len_offsets : nat) (i : nat)
    (rest : list Z) (xx : XXH64.state) (err : option error)
  : result (XXH64.state * option error) :=
  match rest with
  | [] => Ok (xx, err)
  | offset :: rest' =>
      let buf := make 1024 in
      let '(buf, _, err) := ReadAt file buf offset in
      if is_EOF err && (i <? len_offsets - 1)%nat then
        Err (errorString "Unexpected EOF!")
      else
        sample_loop file len_offsets (S i) rest' (XXH64.Write xx buf) err
  end.

Definition sampleHash (file : File) (size : Z) : result (list byte) :=
  let offs := offsets size in
  let xx := XXH64.New64 in
  match sample_loop file (length offs) 0 offs xx None with
  | Err e => Err e
  | Ok (xx, err) =>
      match err with
      | Some e =>
          if is_EOF err
          then Ok (binary_Write_LE [XXH64.Sum64 xx; uint64 size])
          else Err e
      | None => Ok (binary_Write_LE [XXH64.Sum64 xx; uint64 size])
      end
  end.

(** ** File modes *)

(** [os.FileMode] bits. *)
Definition ModeDir : Z := Z.shiftl 1 31.
Definition ModeSymlink : Z := Z.shiftl 1 27.
Definition ModeDevice : Z := Z.shiftl 1 26.
Definition ModeNamedPipe : Z := Z.shiftl 1 25.
Definition ModeSocket : Z := Z.shiftl 1 24.
Definition ModeCharDevice : Z := Z.shiftl 1 21.
Definition ModeIrregular : Z := Z.shiftl 1 19.
Definition ModeType : Z :=
  Z.lor ModeDir (Z.lor ModeSymlink (Z.lor ModeNamedPipe
    (Z.lor ModeSocket (Z.lor ModeDevice
       (Z.lor ModeCharDevice ModeIrregular))))).

Definition IsDir (info : FileInfo) : bool :=
  negb (Z.land (Mode info) ModeDir =? 0).

Definition IsRegular (mode : Z) : bool :=
  Z.land mode ModeType =? 0.

Definition SmartHash (file : File) (info : FileInfo) (threshold : Z)
  : result Z :=
  let r :=
    if Size info <? threshold
    then fullHash file (Size info)
    else sampleHash file (Size info) in
  match r with
  | Err e => Err e
  | Ok xxSum =>
      let xx := XXH64.New64 in
      let xx := XXH64.Write xx xxSum in
      Ok (XXH64.Sum64 xx)
  end.

(** The threshold [HashAndCatalog] and [singleton] pass: [512*1024]. *)
Definition threshold : Z := 512 * 1024.

(** ** The path filter *)

(** A compiled [*regexp.Regexp]: its source text and the set of strings
    it matches. *)
Record Regexp : Type := mkRegexp {
  re_String : string;
  MatchString : string -> bool
}.

Definition RegexFlag : Type := list Regexp.

Fixpoint Match (e : RegexFlag) (s : string) : bool :=
  match e with
  | [] => false
  | re :: rest => if MatchString re s then true else Match rest s
  end.

Record Options : Type := mkOptions {
  root : string;
  catalogPath : string;
  excludes : RegexFlag;
  includes : RegexFlag;
  hashFile : string;
  verbose : bool
}.

(** ** The catalog *)

(** A row of the [files] table. *)
Record FileRow : Type := mkFileRow {
  row_root_id : Z;
  row_hash : string;
  row_path : string;
  row_mtime : Z
}.

Inductive statement : Type :=
  | SelectRoot (r : string)
  | InsertRoot (r : string)
  | InsertFile (row : FileRow).

(** The database behind [c.Db]: the two tables, in insertion order (the
    id of a row is its position, from 1), and the statements the driver
    refuses ([db_fault]: a locked or read-only database, a full disk). *)
Record DB : Type := mkDB {
  roots : list string;
  files : list FileRow;
  db_fault : statement -> option error
}.

Definition hex_digit (d : Z) : Ascii.ascii :=
  nth (Z.to_nat d) (String.list_ascii_of_string "0123456789abcdef") "0"%char.

Fixpoint hex_digits (fuel : nat) (v : Z) (acc : string) : string :=
  match fuel with
  | O => acc
  | S fuel' =>
      let acc' := String (hex_digit (v mod 16)) acc in
      if v / 16 =? 0 then acc' else hex_digits fuel' (v / 16) acc'
  end.

(** [fmt.Sprintf("%x", hash)] for a [uint64]. *)
Definition Sprintf_x (v : Z) : string := hex_digits 16 v "".

Fixpoint index_of (r : string) (rs : list string) (i : Z) : option Z :=
  match rs with
  | [] => None
  | r' :: rest => if String.eqb r r' then Some i else index_of r rest (i + 1)
  end.

Definition EnsureRootId (d : DB) (r : string) : DB * result Z :=
  match db_fault d (SelectRoot r) with
  | Some e => (d, Err e)
  | None =>
      match index_of r (roots d) 1 with
      | Some rootId => (d, Ok rootId)
      | None =>
          match db_fault d (InsertRoot r) with
          | Some e => (d, Err e)
          | None =>
              (mkDB (roots d ++ [r]) (files d) (db_fault d),
               Ok (Z.of_nat (length (roots d)) + 1))
          end
      end
  end.

(** The row holds the path as the text it is given.  That is what the
    table keeps for a path that does not read as a number; the column
    being declared [string], a text that reads as a number would be
    kept as that number, which is left out here.  The paths the walk
    records are built from its root, which [main] makes absolute. *)
Definition CatalogHash (d : DB) (rootId : Z) (hash : Z) (p : string)
    (mtime : Z) : DB * result Z :=
  let hashString := Sprintf_x hash in
  let row := mkFileRow rootId hashString p mtime in
  match db_fault d (InsertFile row) with
  | Some e => (d, Err e)
  | None =>
      (mkDB (roots d) (files d ++ [row]) (db_fault d),
       Ok (Z.of_nat (length (files d)) + 1))
  end.

(** ** The walker *)

Record WalkerContext : Type := mkWalkerContext {
  Info : FileInfo;
  Context : string
}.

(** What the walk does to the outside, oldest first: the directories it
    opens to list them, the files it opens to fingerprint them, and the
    files it hands to [SmartHash].  (What it prints is left out.) *)
Inductive Event : Type :=
  | EvOpenDir (p : string)
  | EvOpenFile (p : string)
  | EvSmartHash (p : string).

(** The state the walk changes: the database and the events so far. *)
Record State : Type := mkState {
  db : DB;
  trace : list Event
}.

Definition emit (ev : Event) (s : State) : State :=
  mkState (db s) (trace s ++ [ev]).

(** The operating system the walk runs against. *)
Record OS : Type := mkOS {
  os_Stat : string -> result FileInfo;
  os_Open : string -> result File
}.

(** One pass of the [for] loop of [Run]: go round again with a new queue
    and state, or leave the loop ([break] or [return]). *)
Inductive step_result : Type :=
  | Continue (fileQ : list WalkerContext) (s : State)
  | Return (s : State) (err : option error).

(** How [Run] ends within a bounded number of passes. *)
Inductive outcome : Type :=
  | Returned (err : option error)
  | Running (fileQ : list WalkerContext).

Section Walk.

(** [path.Join] (of two elements) and [path.Dir], of Go's standard
    library. *)
Variable path_Join : string -> string -> string.
Variable path_Dir : string -> string.

Variable os : OS.

(** The receiver [c] is its options, which the walk only reads, and
    the database, which is part of the state. *)
Variable Opts : Options.

Definition HashAndCatalog (rootId : Z) (walked : WalkerContext)
    (s : State) : State * option error :=
  let realpath := path_Join (Context walked) (Name (Info walked)) in
  let s := emit (EvOpenFile realpath) s in
  match os_Open os realpath with
  | Err err =>
      match err with
      | PathError _ _ msg =>
          if String.eqb msg "permission denied" then (s, None)
          else (s, Some err)
      | _ => (s, Some (errorString "not a PathError!"))
      end
  | Ok file =>
      let s := emit (EvSmartHash realpath) s in
      match SmartHash file (Info walked) threshold with
      | Err err =>
          (s, Some (errorString (realpath +:+ ": " +:+ Error err)))
      | Ok smartHash =>
          let '(d, _) :=
            CatalogHash (db s) rootId smartHash realpath
                        (ModTime (Info walked)) in
          (mkState d (trace s), None)
      end
  end.

(** The inner [for _, info := range infos] loop. *)
Definition enqueue (context : string) (fileQ : list WalkerContext)
    (infos : list FileInfo) : list WalkerContext :=
  fold_left
    (fun fileQ info =>
       let realpath := path_Join context (Name info) in
       if Match (excludes Opts) realpath then fileQ
       else fileQ ++ [mkWalkerContext info context])
    infos fileQ.

Definition step (rootId : Z) (fileQ : list WalkerContext) (s : State)
  : step_result :=
  match fileQ with
  | [] => Return s None
  | cur :: fileQ =>
      let context := path_Join (Context cur) (Name (Info cur)) in
      if IsDir (Info cur) then
        let s := emit (EvOpenDir context) s in
        match os_Open os context with
        | Err err => Return s (Some err)
        | Ok dir =>
            match Readdir dir with
            | Err err => Return s (Some err)
            | Ok infos => Continue (enqueue context fileQ infos) s
            end
        end
      else if negb (IsRegular (Mode (Info cur))) then Continue fileQ s
      else if (0 <? length (includes Opts))%nat
              && negb (Match (includes Opts) context)
      then Continue fileQ s
      else
        match HashAndCatalog rootId cur s with
        | (s, Some err) => Return s (Some err)
        | (s, None) => Continue fileQ s
        end
  end.

(** At most [fuel] passes of the loop. *)
Fixpoint loop (fuel : nat) (rootId : Z) (fileQ : list WalkerContext)
    (s : State) : State * outcome :=
  match fuel with
  | O => (s, Running fileQ)
  | S fuel' =>
      match step rootId fileQ s with
      | Return s err => (s, Returned err)
      | Continue fileQ s => loop fuel' rootId fileQ s
      end
  end.

Definition Run (fuel : nat) (s : State) : State * outcome :=
  let root := root Opts in
  match os_Stat os root with
  | Err err => (s, Returned (Some err))
  | Ok rootInfo =>
      if negb (IsDir rootInfo) then
        (s, Returned (Some (errorString
               ("Root (" +:+ root +:+ ") is not a directory."))))
      else
        match EnsureRootId (db s) root with
        | (d, Err err) => (mkState d (trace s), Returned (Some err))
        | (d, Ok rootId) =>
            loop fuel rootId [mkWalkerContext rootInfo (path_Dir root)]
                 (mkState d (trace s))
        end
  end.

(** *** Vocabulary for the statements about the walk *)

(** The full path of a queue item. *)
Definition path_of (x : WalkerContext) : string :=
  path_Join (Context x) (Name (Info x)).

(** A queue item that [Run] hands to [HashAndCatalog] when it is
    taken from the queue: not a directory, a regular file, and passing
    the inclusion patterns when there are any. *)
Definition qualifies (cur : WalkerContext) : bool :=
  negb (IsDir (Info cur))
  && IsRegular (Mode (Info cur))
  && (negb (0 <? length (includes Opts))%nat
      || Match (includes Opts) (path_of cur)).

(** The entries of a listing that the inner loop appends to the
    queue. *)
Definition keep (context : string) (info : FileInfo) : bool :=
  negb (Match (excludes Opts) (path_Join context (Name info))).

(** The items the walk can come to from [seed], each with the paths of
    the directories it was reached through, nearest first: the seed
    itself, and every entry listed in a directory the walk can come
    to, provided the entry's own path matches no exclusion pattern. *)
Inductive lineage (seed : WalkerContext)
  : list string -> WalkerContext -> Prop :=
  | lineage_seed : lineage seed [] seed
  | lineage_child (parent : WalkerContext) (anc : list string)
      (dir : File) (infos : list FileInfo) (info : FileInfo) :
      lineage seed anc parent ->
      IsDir (Info parent) = true ->
      os_Open os (path_of parent) = Ok dir ->
      Readdir dir = Ok infos ->
      In info infos ->
      Match (excludes Opts) (path_Join (path_of parent) (Name info)) = false ->
      lineage seed (path_of parent :: anc)
              (mkWalkerContext info (path_of parent)).

(** The event [ev] is what the walk does with the item [x]: it lists
    [x], a directory, or it opens or fingerprints [x], not a
    directory. *)
Definition event_of (x : WalkerContext) (ev : Event) : Prop :=
  match ev with
  | EvOpenDir p => IsDir (Info x) = true /\ p = path_of x
  | EvOpenFile p | EvSmartHash p => IsDir (Info x) = false /\ p = path_of x
  end.

(** From [s] to [s'] the walk added the events [tr] and the rows
    [rows], each of them for an item it can come to from [seed]; rows
    only for items that are not directories. *)
Definition accounted (seed : WalkerContext) (s s' : State)
    (tr : list Event) (rows : list FileRow) : Prop :=
  trace s' = trace s ++ tr
  /\ files (db s') = files (db s) ++ rows
  /\ Forall (fun ev => exists x anc,
               lineage seed anc x /\ event_of x ev) tr
  /\ Forall (fun row => exists x anc,
               lineage seed anc x
               /\ IsDir (Info x) = false
               /\ row_path row = path_of x) rows.

(** The queue item [Run] starts from. *)
Definition seed_of (rootInfo : FileInfo) : WalkerContext :=
  mkWalkerContext rootInfo (path_Dir (root Opts)).

End Walk.

(** ** Vocabulary of the statements *)

(** The file [f] with the byte at index [i] changed to [b]. *)
Definition poke (f : File) (i : nat) (b : byte) : File :=
  mkFile (fname f) (<[i:=b]> (fdata f)) (fbad f) (Readdir f).

(** The 1024-byte buffer [sampleHash] hands to the hash for the window
    at [off]: what [ReadAt] leaves in a fresh buffer. *)
Definition window (f : File) (off : Z) : list byte :=
  (ReadAt f (make 1024) off).1.1.

(** The error [ReadAt] reports for the window at [off]. *)
Definition window_err (f : File) (off : Z) : option error :=
  (ReadAt f (make 1024) off).2.

(** The 1024 bytes the file holds from [off] on. *)
Definition bytes_at (f : File) (off : Z) : list byte :=
  take 1024 (drop (Z.to_nat off) (fdata f)).

Definition in_window (off p : Z) : Prop := off <= p < off + 1024.

(** Position [p] lies in one of the three windows of a file of declared
    size [size]. *)
Definition sampled (size p : Z) : Prop :=
  in_window 0 p \/ in_window (Z.quot size 2) p \/ in_window (size - 1024) p.

(** The size-folding step: the digest and the declared size as two
    little-endian 64-bit words, sixteen bytes, hashed again. *)
Definition preimage (digest size : Z) : list byte :=
  PutUint64 digest ++ PutUint64 (uint64 size).

Definition fold_size (digest size : Z) : Z :=
  XXH64.Checksum64S (preimage digest size) 0.

(** The bytes [sampleHash] returns when it succeeds. *)
Definition digest_bytes (f : File) (size : Z) : list byte :=
  binary_Write_LE
    [XXH64.Sum64 (window f 0 ++ window f (int64 (Z.quot size 2))
                    ++ window f (int64 (size - 1024)));
     uint64 size].

(** A path matches a pattern set when some pattern of the set matches
    it. *)
Definition matches_some (e : RegexFlag) (p : string) : Prop :=
  exists re, In re e /\ MatchString re p = true.

(** No failing position among the bytes the file holds. *)
Definition readable (f : File) : Prop :=
  forall p, 0 <= p < Z.of_nat (length (fdata f)) -> fbad f p = false.

(** ** A small file system for the examples *)

(** [path.Join] of a clean directory path and a plain name. *)
Definition Join2 (dir name : string) : string :=
  if String.eqb dir "" then name
  else if String.eqb dir "/" then "/" +:+ name
  else dir +:+ "/" +:+ name.

Fixpoint after_slash (cs : list ascii) : option (list ascii) :=
  match cs with
  | [] => None
  | c :: rest => if Ascii.eqb c "/" then Some rest else after_slash rest
  end.

(** [path.Dir] of a clean path. *)
Definition Dir1 (p : string) : string :=
  match after_slash (rev (String.list_ascii_of_string p)) with
  | None => "."
  | Some [] => "/"
  | Some cs => String.string_of_list_ascii (rev cs)
  end.

Definition mode_file : Z := 420.
Definition mode_dir : Z := Z.lor ModeDir 493.

Definition no_fault : Z -> bool := fun _ => false.
Definition not_a_directory (p : string) : result (list FileInfo) :=
  Err (PathError "readdirent" p "not a directory").

Definition regular (p : string) (data : list byte) : File :=
  mkFile p data no_fault (not_a_directory p).

Definition directory (p : string) (infos : list FileInfo) : File :=
  mkFile p [] no_fault (Ok infos).

Definition zeros (n : Z) : list byte := replicate (Z.to_nat n) x00.

Definition info_locked : FileInfo := mkFileInfo "locked.txt" 7 mode_file 1000.
Definition info_a : FileInfo := mkFileInfo "a.txt" 10 mode_file 1001.
Definition info_skip : FileInfo := mkFileInfo "skip" 4096 mode_dir 1002.
Definition info_skip_txt : FileInfo := mkFileInfo "skip.txt" 3 mode_file 1003.
Definition info_z : FileInfo := mkFileInfo "z.txt" 5 mode_file 1004.
Definition info_b : FileInfo := mkFileInfo "b.txt" 10 mode_file 1005.
Definition info_r : FileInfo := mkFileInfo "r" 4096 mode_dir 1006.
Definition info_v : FileInfo := mkFileInfo "v" 4096 mode_dir 1007.
Definition info_cut : FileInfo := mkFileInfo "cut.bin" 524288 mode_file 1008.
Definition info_after : FileInfo := mkFileInfo "after.txt" 4 mode_file 1009.
Definition info_tail : FileInfo := mkFileInfo "tail.bin" 524288 mode_file 1011.
Definition info_w : FileInfo := mkFileInfo "w" 4096 mode_dir 1012.
Definition info_bad : FileInfo := mkFileInfo "bad.bin" 524288 mode_file 1013.

(** A file of declared size 512 KiB that holds only 1000 bytes when it
    is read, one that holds 400000, and one that holds all of its bytes
    but whose first byte cannot be read. *)
Definition file_cut : File := regular "/v/cut.bin" (zeros 1000).
Definition file_short_tail : File := regular "/v/tail.bin" (zeros 400000).
Definition file_bad_head : File :=
  mkFile "/w/bad.bin" (x01 :: zeros 524287) (fun p => p =? 0)
         (not_a_directory "/w/bad.bin").
Definition file_zeros : File := regular "/v/zeros.bin" (zeros 524288).
Definition info_512k : FileInfo := mkFileInfo "big.bin" 524288 mode_file 1010.

Definition text (s : string) : list byte := String.list_byte_of_string s.

Definition ex_Stat (p : string) : result FileInfo :=
  if String.eqb p "/r" then Ok info_r
  else if String.eqb p "/v" then Ok info_v
  else if String.eqb p "/w" then Ok info_w
  else Err (PathError "stat" p "no such file or directory").

Definition ex_Open (p : string) : result File :=
  if String.eqb p "/r" then
    Ok (directory p [info_a; info_locked; info_skip; info_skip_txt; info_z])
  else if String.eqb p "/r/locked.txt" then
    Err (PathError "open" p "permission denied")
  else if String.eqb p "/r/a.txt" then Ok (regular p (text "0123456789"))
  else if String.eqb p "/r/skip" then Ok (directory p [info_b])
  else if String.eqb p "/r/skip/b.txt" then Ok (regular p (text "abcdefghij"))
  else if String.eqb p "/r/skip.txt" then Ok (regular p (text "xyz"))
  else if String.eqb p "/r/z.txt" then Ok (regular p (text "hello"))
  else if String.eqb p "/v" then
    Ok (directory p [info_cut; info_after; info_tail])
  else if String.eqb p "/v/cut.bin" then Ok file_cut
  else if String.eqb p "/v/after.txt" then Ok (regular p (text "late"))
  else if String.eqb p "/v/tail.bin" then Ok file_short_tail
  else if String.eqb p "/w" then Ok (directory p [info_bad])
  else if String.eqb p "/w/bad.bin" then Ok file_bad_head
  else Err (PathError "open" p "no such file or directory").

Definition ex_os : OS := mkOS ex_Stat ex_Open.

(** The pattern [skip]: a path that contains the text. *)
Definition re_skip : Regexp :=
  mkRegexp "skip"
    (fun s => match String.index 0 "skip" s with Some _ => true | None => false end).

(** The pattern [txt]. *)
Definition re_txt : Regexp :=
  mkRegexp "txt"
    (fun s => match String.index 0 "txt" s with Some _ => true | None => false end).

(** The pattern [^/r$]: the path [/r] and no other. *)
Definition re_root : Regexp := mkRegexp "^/r$" (String.eqb "/r").

Definition opts_skip : Options :=
  mkOptions "/r" "/home/u/.leibniz-catalog" [re_skip] [re_txt] "" false.

Definition opts_root : Options :=
  mkOptions "/r" "/home/u/.leibniz-catalog" [re_root] [] "" false.

Definition opts_v : Options :=
  mkOptions "/v" "/home/u/.leibniz-catalog" [] [] "" false.

Definition opts_w : Options :=
  mkOptions "/w" "/home/u/.leibniz-catalog" [] [] "" false.

Definition empty_db : DB := mkDB [] [] (fun _ => None).

(** A database that refuses every insertion into [files]. *)
Definition locked_db : DB :=
  mkDB ["/r"] []
       (fun st => match st with
                  | InsertFile _ => Some (errorString "database is locked")
                  | _ => None
                  end).

Definition start : State := mkState empty_db [].

(** ** More of the program *)

Section Flags.

(** [regexp.Compile], of Go's standard library. *)
Variable regexp_Compile : string -> result Regexp.

(** The method [Set] of [RegexFlag]: the flag afterwards and the error
    returned. *)
Definition RegexFlag_Set (e : RegexFlag) (value : string)
  : RegexFlag * option error :=
  match regexp_Compile value with
  | Err err => (e, Some err)
  | Ok excludeRe => (e ++ [excludeRe], None)
  end.

End Flags.

(** ** More vocabulary *)

(** The value of a lower-case hexadecimal digit. *)
Fixpoint digit_index (c : ascii) (digits : list ascii) (i : Z) : Z :=
  match digits with
  | [] => 0
  | c' :: rest => if Ascii.eqb c c' then i else digit_index c rest (i + 1)
  end.

Definition hex_value (c : ascii) : Z :=
  digit_index c (String.list_ascii_of_string "0123456789abcdef") 0.

(** The number a lower-case hexadecimal numeral stands for, digits read
    from the left. *)
Fixpoint parse_hex_from (acc : Z) (s : string) : Z :=
  match s with
  | EmptyString => acc
  | String c rest => parse_hex_from (16 * acc + hex_value c) rest
  end.

Definition parse_hex (s : string) : Z := parse_hex_from 0 s.

(** The file [f] with [k] zero bytes appended. *)
Definition extend (f : File) (k : nat) : File :=
  mkFile (fname f) (fdata f ++ replicate k x00) (fbad f) (Readdir f).

(** The row [CatalogHash] inserts. *)
Definition row_of (rootId : Z) (hash : Z) (p : string) (mtime : Z) : FileRow :=
  mkFileRow rootId (Sprintf_x hash) p mtime.

(** A path that begins with a slash.  The [path] column of the table of
    files is declared [string], which gives it numeric affinity: the
    database keeps a text that reads as a number as that number, and
    any other text as it is.  A path that begins with a slash does not
    read as a number; such are the paths the walk records, [main]
    having made the root absolute. *)
Definition absolute (p : string) : bool := String.prefix "/" p.

Section WalkMore.

Variable path_Join : string -> string -> string.
Variable os : OS.
Variable Opts : Options.

(** The number of passes the loop spends on an item and on everything
    it leads to: one for an item that is not a directory or that cannot
    be listed, and one more than its kept entries need together for a
    directory that is listed. *)
#[warnings="-register-all"]
Inductive walk_size : WalkerContext -> nat -> Prop :=
  | walk_size_file (x : WalkerContext) :
      IsDir (Info x) = false -> walk_size x 1
  | walk_size_closed (x : WalkerContext) (e : error) :
      IsDir (Info x) = true ->
      os_Open os (path_of path_Join x) = Err e -> walk_size x 1
  | walk_size_unlisted (x : WalkerContext) (dir : File) (e : error) :
      IsDir (Info x) = true ->
      os_Open os (path_of path_Join x) = Ok dir ->
      Readdir dir = Err e -> walk_size x 1
  | walk_size_dir (x : WalkerContext) (dir : File) (infos : list FileInfo)
      (ns : list nat) :
      IsDir (Info x) = true ->
      os_Open os (path_of path_Join x) = Ok dir ->
      Readdir dir = Ok infos ->
      Forall2 walk_size
        (map (fun info => mkWalkerContext info (path_of path_Join x))
             (List.filter (keep path_Join Opts (path_of path_Join x)) infos))
        ns ->
      walk_size x (S (list_sum ns)).

(** An event the walk may add: the listing of a directory it can come
    to, or the opening or fingerprinting of a qualifying file it can
    come to; a file is fingerprinted only once it is open. *)
Definition audited_event (seed : WalkerContext) (ev : Event) : Prop :=
  exists x anc,
    lineage path_Join os Opts seed anc x
    /\ match ev with
       | EvOpenDir p => IsDir (Info x) = true /\ p = path_of path_Join x
       | EvOpenFile p =>
           qualifies path_Join Opts x = true /\ p = path_of path_Join x
       | EvSmartHash p =>
           qualifies path_Join Opts x = true /\ p = path_of path_Join x
           /\ exists file, os_Open os p = Ok file
       end.

(** A row the walk may add: the record, under [rootId], of the
    fingerprint of a qualifying file it can come to. *)
Definition audited_row (seed : WalkerContext) (rootId : Z) (row : FileRow)
  : Prop :=
  exists x anc file fp,
    lineage path_Join os Opts seed anc x
    /\ qualifies path_Join Opts x = true
    /\ os_Open os (path_of path_Join x) = Ok file
    /\ SmartHash file (Info x) threshold = Ok fp
    /\ row = row_of rootId fp (path_of path_Join x) (ModTime (Info x)).

(** From [s] to [s'] the walk added only such events and rows, and left
    the roots and the faults of the database alone. *)
Definition audited (seed : WalkerContext) (rootId : Z) (s s' : State)
    (tr : list Event) (rows : list FileRow) : Prop :=
  trace s' = trace s ++ tr
  /\ files (db s') = files (db s) ++ rows
  /\ roots (db s') = roots (db s)
  /\ db_fault (db s') = db_fault (db s)
  /\ Forall (audited_event seed) tr
  /\ Forall (audited_row seed rootId) rows.

(** From [s] to [s'] events and rows were only added, and the faults
    of the database are the same. *)
Definition grows (s s' : State) : Prop :=
  exists tr rows,
    trace s' = trace s ++ tr
    /\ files (db s') = files (db s) ++ rows
    /\ db_fault (db s') = db_fault (db s).

(** The walk is through with the item [x]: it has listed it, if it is a
    directory; if it is a qualifying file, it has opened it and, when
    it could be opened, fingerprinted it with success and recorded the
    fingerprint under [rootId], unless the database refuses the row. *)
Definition visited (rootId : Z) (s : State) (x : WalkerContext) : Prop :=
  (IsDir (Info x) = true -> In (EvOpenDir (path_of path_Join x)) (trace s))
  /\ (qualifies path_Join Opts x = true ->
      In (EvOpenFile (path_of path_Join x)) (trace s)
      /\ forall file,
           os_Open os (path_of path_Join x) = Ok file ->
           In (EvSmartHash (path_of path_Join x)) (trace s)
           /\ exists fp,
                SmartHash file (Info x) threshold = Ok fp
                /\ (db_fault (db s)
                      (InsertFile (row_of rootId fp (path_of path_Join x)
                                     (ModTime (Info x)))) = None ->
                    In (row_of rootId fp (path_of path_Join x)
                          (ModTime (Info x)))
                       (files (db s)))).

(** Every item the walk can come to from [seed] is either done with or
    still ahead: in the queue, or below an item of the queue. *)
Definition covered (seed : WalkerContext) (rootId : Z)
    (fileQ : list WalkerContext) (s : State) : Prop :=
  forall x anc,
    lineage path_Join os Opts seed anc x ->
    visited rootId s x
    \/ exists a anc', In a fileQ /\ lineage path_Join os Opts a anc' x.

(** The pass of the loop on the item [x] does not end the walk: [x] is
    a directory that can be opened and listed, or it is not a directory
    and is passed over, or is denied on opening, or is fingerprinted
    with success. *)
Definition calm (x : WalkerContext) : Prop :=
  if IsDir (Info x)
  then exists dir infos,
         os_Open os (path_of path_Join x) = Ok dir /\ Readdir dir = Ok infos
  else qualifies path_Join Opts x = false
       \/ (exists op p,
             os_Open os (path_of path_Join x)
             = Err (PathError op p "permission denied"))
       \/ (exists file fp,
             os_Open os (path_of path_Join x) = Ok file
             /\ SmartHash file (Info x) threshold = Ok fp).

End WalkMore.

(** ** More examples *)

(** The smallest file the sampled strategy can fingerprint, and one
    byte less. *)
Definition file_2047 : File := regular "/v/min.bin" (zeros 2047).
Definition file_2046 : File := regular "/v/less.bin" (zeros 2046).

(** A compiler of patterns that knows the three patterns of the
    examples. *)
Definition ex_Compile (value : string) : result Regexp :=
  if String.eqb value "skip" then Ok re_skip
  else if String.eqb value "txt" then Ok re_txt
  else if String.eqb value "^/r$" then Ok re_root
  else Err (errorString ("error parsing regexp: " +:+ value)).

(** ** Vocabulary for growth and for repeated runs *)

(** The file [f] with the bytes [more] appended. *)
Definition grown (f : File) (more : list byte) : File :=
  mkFile (fname f) (fdata f ++ more) (fbad f) (Readdir f).

(** The state [s0] followed by what the state [s] holds: the roots and
    the faults of [s0], the files and the events of [s] after those of
    [s0]. *)
Definition after (s0 s : State) : State :=
  mkState
    (mkDB (roots (db s0)) (files (db s0) ++ files (db s)) (db_fault (db s0)))
    (trace s0 ++ trace s).

(** The state with nothing in it but the faults of [s0]. *)
Definition blank (s0 : State) : State :=
  mkState (mkDB [] [] (db_fault (db s0))) [].

(** * Theorems *)

Local Arguments XXH64.Checksum64S : simpl never.
Local Arguments XXH64.Sum64 : simpl never.

(** ** Test vectors of XXH64 *)

Example xxh64_empty : XXH64.Sum64 XXH64.New64 = 17241709254077376921.
Proof. vm_compute. reflexivity. Qed.

Example xxh64_a :
  XXH64.Sum64 (XXH64.Write XXH64.New64 (String.list_byte_of_string "a"))
  = 0xd24ec4f1a98c6e5b.
Proof. vm_compute. reflexivity. Qed.

Example xxh64_spam :
  XXH64.Sum64 (XXH64.Write XXH64.New64
     (String.list_byte_of_string "Nobody inspects the spammish repetition"))
  = 0xfbcea83c8a378bf1.
Proof. vm_compute. reflexivity. Qed.

Example xxh64_seeded :
  XXH64.Checksum64S (String.list_byte_of_string "xxhash") 20141025
  = 0xb559b98d844e0635.
Proof. vm_compute. reflexivity. Qed.

(** ** Reading *)

(** [pread] looks at the file only for its name and its failing
    positions. *)
Lemma pread_ext (f g : File) n pos src :
  fname f = fname g -> fbad f = fbad g -> pread f n pos src = pread g n pos src.
Proof.
  intros Hn Hb. revert pos src.
  induction n as [|n IH]; intros pos [|b rest]; simpl; try reflexivity.
  rewrite Hb. unfold read_error. rewrite Hn.
  destruct (fbad g pos); [reflexivity|]. now rewrite IH.
Qed.

(** A byte changed at or beyond the [n]-th position of the source is not
    seen by a read of [n] bytes. *)
Lemma pread_insert_ge (f : File) n pos (src : list byte) j b :
  (n <= j)%nat -> pread f n pos (<[j:=b]> src) = pread f n pos src.
Proof.
  revert pos src j.
  induction n as [|n IH]; intros pos src j Hj; [reflexivity|].
  destruct src as [|c rest]; [reflexivity|].
  destruct j as [|j]; [lia|]. simpl.
  destruct (fbad f pos); [reflexivity|].
  rewrite IH by lia. reflexivity.
Qed.

(** A read that stays inside the file and meets no failing position
    delivers the bytes asked for, with no error. *)
Lemma pread_full (f : File) n pos src :
  (n <= length src)%nat ->
  (forall p, pos <= p < pos + Z.of_nat n -> fbad f p = false) ->
  pread f n pos src = (take n src, None).
Proof.
  revert pos src. induction n as [|n IH]; intros pos src Hlen Hok.
  - reflexivity.
  - destruct src as [|b rest]; simpl in Hlen; [lia|]. simpl.
    rewrite (Hok pos) by lia.
    rewrite IH; [reflexivity|lia|]. intros p Hp. apply Hok. lia.
Qed.

Lemma ReadAt_poke (f : File) (buf : list byte) off i b :
  ~ (off <= Z.of_nat i < off + Z.of_nat (length buf)) ->
  ReadAt (poke f i b) buf off = ReadAt f buf off.
Proof.
  intros Hout. unfold ReadAt.
  destruct (off <? 0) eqn:Hneg; [reflexivity|].
  apply Z.ltb_ge in Hneg.
  rewrite (pread_ext (poke f i b) f) by reflexivity.
  cbn [fdata poke].
  destruct (decide (i < Z.to_nat off)%nat) as [Hlt|Hge].
  - rewrite drop_insert_lt by exact Hlt. reflexivity.
  - rewrite drop_insert_ge by lia.
    rewrite pread_insert_ge by lia. reflexivity.
Qed.

Lemma ReadAt_full (f : File) off :
  0 <= off ->
  off + 1024 <= Z.of_nat (length (fdata f)) ->
  (forall p, in_window off p -> fbad f p = false) ->
  ReadAt f (make 1024) off = (bytes_at f off, 1024, None).
Proof.
  intros H0 Hlen Hok. unfold ReadAt, bytes_at.
  destruct (off <? 0) eqn:Hneg; [apply Z.ltb_lt in Hneg; lia|].
  unfold make. rewrite length_replicate.
  rewrite pread_full.
  - rewrite length_take_le by (rewrite length_drop; lia).
    rewrite drop_replicate. simpl. rewrite app_nil_r. reflexivity.
  - rewrite length_drop. lia.
  - intros p Hp. apply Hok. unfold in_window. lia.
Qed.

Lemma read_all_full (f : File) pos src :
  (forall p, pos <= p < pos + Z.of_nat (length src) -> fbad f p = false) ->
  read_all f pos src = (src, None).
Proof.
  revert pos. induction src as [|b rest IH]; intros pos Hok; [reflexivity|].
  simpl. rewrite (Hok pos) by (simpl; lia).
  rewrite IH; [reflexivity|]. intros p Hp. apply Hok. simpl. lia.
Qed.

(** When reading to the end succeeds, all the bytes were read. *)
Lemma read_all_None (f : File) pos src got :
  read_all f pos src = (got, None) -> got = src.
Proof.
  revert pos got. induction src as [|b rest IH]; intros pos got; simpl.
  - congruence.
  - destruct (fbad f pos); [congruence|].
    destruct (read_all f (pos + 1) rest) as [got' err] eqn:E.
    intros [= <- ->]. f_equal. eauto.
Qed.

(** ** Machine integers *)

Lemma int64_small (x : Z) : - 2 ^ 63 <= x < 2 ^ 63 -> int64 x = x.
Proof. intros H. unfold int64, two64. rewrite Z.mod_small; lia. Qed.

Lemma uint64_small (x : Z) : 0 <= x < 2 ^ 64 -> uint64 x = x.
Proof. intros H. unfold uint64, two64. apply Z.mod_small. lia. Qed.

Lemma offsets_large (size : Z) :
  0 <= size < 2 ^ 63 -> offsets size = [0; Z.quot size 2; size - 1024].
Proof.
  intros H. unfold offsets.
  pose proof (Z.quot_pos size 2). pose proof (Z.quot_le_upper_bound size 2 size).
  rewrite !int64_small; [reflexivity|lia|].
  rewrite Z.quot_div_nonneg by lia.
  split; [|apply Z.div_lt_upper_bound; lia].
  pose proof (Z.div_pos size 2). lia.
Qed.

(** ** [sampleHash] by cases on the three reads *)

Lemma sampleHash_cases (f : File) (size : Z) :
  sampleHash f size =
    if is_EOF (window_err f 0) then Err (errorString "Unexpected EOF!")
    else if is_EOF (window_err f (int64 (Z.quot size 2)))
    then Err (errorString "Unexpected EOF!")
    else match window_err f (int64 (size - 1024)) with
         | None | Some EOF => Ok (digest_bytes f size)
         | Some e => Err e
         end.
Proof.
  unfold sampleHash, digest_bytes, offsets, window, window_err.
  cbn [sample_loop length].
  destruct (ReadAt f (make 1024) 0) as [[w0 n0] e0].
  destruct (ReadAt f (make 1024) (int64 (Z.quot size 2))) as [[w1 n1] e1].
  destruct (ReadAt f (make 1024) (int64 (size - 1024))) as [[w2 n2] e2].
  cbn [fst snd].
  change (0 <? 3 - 1)%nat with true. change (1 <? 3 - 1)%nat with true.
  change (2 <? 3 - 1)%nat with false.
  rewrite !andb_true_r, andb_false_r.
  destruct (is_EOF e0); [reflexivity|].
  destruct (is_EOF e1); [reflexivity|].
  unfold XXH64.Write, XXH64.New64. rewrite app_nil_l, <- app_assoc.
  destruct e2 as [[| |]|]; reflexivity.
Qed.

Lemma digest_bytes_preimage (f : File) (size : Z) :
  digest_bytes f size =
  preimage (XXH64.Sum64 (window f 0 ++ window f (int64 (Z.quot size 2))
                           ++ window f (int64 (size - 1024)))) size.
Proof.
  unfold digest_bytes, preimage, binary_Write_LE. cbn [concat map].
  now rewrite app_nil_r.
Qed.

(** [SmartHash] above the threshold is [sampleHash] followed by the
    second hash. *)
Lemma SmartHash_above (f : File) (info : FileInfo) (thr : Z) :
  thr <= Size info ->
  SmartHash f info thr =
    match sampleHash f (Size info) with
    | Err e => Err e
    | Ok xxSum => Ok (XXH64.Checksum64S xxSum 0)
    end.
Proof.
  intros H. unfold SmartHash.
  destruct (Size info <? thr) eqn:E; [apply Z.ltb_lt in E; lia|].
  destruct (sampleHash f (Size info)); reflexivity.
Qed.

Lemma SmartHash_below (f : File) (info : FileInfo) (thr : Z) :
  Size info < thr ->
  SmartHash f info thr =
    match fullHash f (Size info) with
    | Err e => Err e
    | Ok xxSum => Ok (XXH64.Checksum64S xxSum 0)
    end.
Proof.
  intros H. unfold SmartHash.
  destruct (Size info <? thr) eqn:E; [|apply Z.ltb_ge in E; lia].
  destruct (fullHash f (Size info)); reflexivity.
Qed.

Lemma window_poke (f : File) off i b :
  ~ in_window off (Z.of_nat i) -> window (poke f i b) off = window f off.
Proof.
  intros H. unfold window. rewrite ReadAt_poke; [reflexivity|].
  unfold make. rewrite length_replicate. exact H.
Qed.

Lemma window_err_poke (f : File) off i b :
  ~ in_window off (Z.of_nat i) ->
  window_err (poke f i b) off = window_err f off.
Proof.
  intros H. unfold window_err. rewrite ReadAt_poke; [reflexivity|].
  unfold make. rewrite length_replicate. exact H.
Qed.

Lemma window_full (f : File) off :
  0 <= off -> off + 1024 <= Z.of_nat (length (fdata f)) ->
  (forall p, in_window off p -> fbad f p = false) ->
  window f off = bytes_at f off /\ window_err f off = None.
Proof.
  intros H0 Hlen Hok. unfold window, window_err.
  rewrite ReadAt_full by assumption. split; reflexivity.
Qed.

Lemma threshold_value : threshold = 524288.
Proof. reflexivity. Qed.

(** [sampleHash] on a declared size in the range of a file size: the
    offsets are not wrapped. *)
Lemma sampleHash_large (f : File) (size : Z) :
  0 <= size < 2 ^ 63 ->
  sampleHash f size =
    if is_EOF (window_err f 0) then Err (errorString "Unexpected EOF!")
    else if is_EOF (window_err f (Z.quot size 2))
    then Err (errorString "Unexpected EOF!")
    else match window_err f (size - 1024) with
         | None | Some EOF =>
             Ok (preimage (XXH64.Sum64 (window f 0 ++ window f (Z.quot size 2)
                                          ++ window f (size - 1024))) size)
         | Some e => Err e
         end.
Proof.
  intros H. rewrite sampleHash_cases, digest_bytes_preimage.
  pose proof (offsets_large size H) as Hoffs.
  unfold offsets in Hoffs. injection Hoffs as -> ->. reflexivity.
Qed.

(** C1: for a file whose declared size is at least the 512 KiB
    threshold (and is a valid [int64] size), a fingerprint that
    [SmartHash] produces is the second hash over the size-folded digest
    of three 1024-byte buffers, in this order: the windows at offset 0,
    at offset [size/2] and at offset [size-1024]; when the file holds
    its declared size and the windows can be read, the fingerprint is
    produced and the buffers are the bytes of the file at those offsets;
    and changing any byte at a position outside the three windows
    leaves the result of [SmartHash] unchanged. *)
Theorem SmartHash_sampled (f : File) (info : FileInfo) :
  threshold <= Size info -> Size info < 2 ^ 63 ->
  (forall fp, SmartHash f info threshold = Ok fp ->
     fp = fold_size
            (XXH64.Sum64 (window f 0 ++ window f (Z.quot (Size info) 2)
                            ++ window f (Size info - 1024)))
            (Size info))
  /\ (Size info <= Z.of_nat (length (fdata f)) ->
      (forall p, sampled (Size info) p -> fbad f p = false) ->
      SmartHash f info threshold =
        Ok (fold_size
              (XXH64.Sum64 (bytes_at f 0 ++ bytes_at f (Z.quot (Size info) 2)
                              ++ bytes_at f (Size info - 1024)))
              (Size info)))
  /\ (forall i b, ~ sampled (Size info) (Z.of_nat i) ->
      SmartHash (poke f i b) info threshold = SmartHash f info threshold).
Proof.
  intros Hthr Hmax. pose proof threshold_value as Hv.
  assert (Hrange : 0 <= Size info < 2 ^ 63) by lia.
  split; [|split].
  - intros fp. rewrite (SmartHash_above _ _ _ Hthr), (sampleHash_large _ _ Hrange).
    unfold fold_size.
    destruct (is_EOF (window_err f 0)); [discriminate|].
    destruct (is_EOF (window_err f _)); [discriminate|].
    destruct (window_err f (Size info - 1024)) as [[| |]|];
      first [discriminate | intros [= <-]; reflexivity].
  - intros Hlen Hok.
    assert (Hq : 0 <= Z.quot (Size info) 2
                 /\ Z.quot (Size info) 2 + 1024 <= Size info).
    { rewrite Z.quot_div_nonneg by lia.
      pose proof (Z.div_mod (Size info) 2).
      pose proof (Z.mod_pos_bound (Size info) 2). lia. }
    destruct (window_full f 0) as [W0 E0]; [lia|lia| |].
    { intros p Hp. apply Hok. left. exact Hp. }
    destruct (window_full f (Z.quot (Size info) 2)) as [W1 E1]; [lia|lia| |].
    { intros p Hp. apply Hok. right. left. exact Hp. }
    destruct (window_full f (Size info - 1024)) as [W2 E2]; [lia|lia| |].
    { intros p Hp. apply Hok. right. right. exact Hp. }
    rewrite (SmartHash_above _ _ _ Hthr), (sampleHash_large _ _ Hrange).
    rewrite E0, E1, E2, W0, W1, W2. cbn [is_EOF]. unfold fold_size.
    reflexivity.
  - intros i b Hout.
    rewrite !(SmartHash_above _ _ _ Hthr), !(sampleHash_large _ _ Hrange).
    unfold sampled in Hout.
    rewrite !window_poke, !window_err_poke by tauto. reflexivity.
Qed.

(** ** Little-endian words *)

Lemma byte_to_of_Z (z : Z) : byte_to_Z (byte_of_Z z) = z mod 256.
Proof.
  unfold byte_to_Z, byte_of_Z.
  pose proof (Z.mod_pos_bound z 256 eq_refl) as Hb.
  destruct (Byte.of_N (Z.to_N (z mod 256))) as [b|] eqn:E.
  - apply Byte.to_of_N in E. rewrite E. apply Z2N.id. lia.
  - apply Byte.of_N_None_iff in E. lia.
Qed.

Lemma byte_of_shift (v k : Z) :
  0 <= k ->
  byte_to_Z (byte_of_Z (Z.land (Z.shiftr v (8 * k)) 255))
  = (v / 2 ^ (8 * k)) mod 256.
Proof.
  intros Hk. rewrite byte_to_of_Z.
  change 255 with (Z.ones 8). rewrite Z.land_ones by lia.
  rewrite Z.shiftr_div_pow2 by lia.
  change (2 ^ 8) with 256. apply Z.mod_mod. lia.
Qed.

(** [PutUint64] writes the low 64 bits of its argument, lowest byte
    first. *)
Lemma le_word_PutUint64 (v : Z) : le_word (PutUint64 v) = uint64 v.
Proof.
  unfold PutUint64. cbn [map le_word].
  rewrite !byte_of_shift by lia.
  unfold uint64, two64.
  change (2 ^ 64) with (256 * (256 * (256 * (256 * (256 * (256 * (256 * 256))))))).
  rewrite !Z.rem_mul_r by lia.
  change (2 ^ (8 * 0)) with 1. rewrite Z.div_1_r.
  replace (v / 2 ^ (8 * 1)) with (v / 256) by reflexivity.
  replace (v / 2 ^ (8 * 2)) with (v / 256 / 256)
    by (rewrite Z.div_div by lia; reflexivity).
  replace (v / 2 ^ (8 * 3)) with (v / 256 / 256 / 256)
    by (rewrite !Z.div_div by lia; reflexivity).
  replace (v / 2 ^ (8 * 4)) with (v / 256 / 256 / 256 / 256)
    by (rewrite !Z.div_div by lia; reflexivity).
  replace (v / 2 ^ (8 * 5)) with (v / 256 / 256 / 256 / 256 / 256)
    by (rewrite !Z.div_div by lia; reflexivity).
  replace (v / 2 ^ (8 * 6)) with (v / 256 / 256 / 256 / 256 / 256 / 256)
    by (rewrite !Z.div_div by lia; reflexivity).
  replace (v / 2 ^ (8 * 7)) with (v / 256 / 256 / 256 / 256 / 256 / 256 / 256)
    by (rewrite !Z.div_div by lia; reflexivity).
  lia.
Qed.

Lemma uint64_idem (x : Z) : uint64 (uint64 x) = uint64 x.
Proof. unfold uint64, two64. apply Z.mod_mod. lia. Qed.

(** The sixteen bytes that are hashed the second time. *)
Lemma preimage_layout (digest size : Z) :
  length (preimage digest size) = 16%nat
  /\ le_word (take 8 (preimage digest size)) = uint64 digest
  /\ le_word (drop 8 (preimage digest size)) = uint64 size.
Proof.
  unfold preimage. split; [reflexivity|]. split.
  - rewrite take_app_length' by reflexivity. apply le_word_PutUint64.
  - rewrite drop_app_length' by reflexivity.
    rewrite le_word_PutUint64. apply uint64_idem.
Qed.

Lemma lxor_range (a b n : Z) :
  0 < n -> 0 <= a < 2 ^ n -> 0 <= b < 2 ^ n -> 0 <= Z.lxor a b < 2 ^ n.
Proof.
  intros Hn Ha Hb.
  assert (H0 : 0 <= Z.lxor a b) by (apply Z.lxor_nonneg; lia).
  split; [exact H0|].
  destruct (Z.eq_dec (Z.lxor a b) 0) as [->|Hne].
  - apply Z.pow_pos_nonneg; lia.
  - apply Z.log2_lt_pow2; [lia|].
    assert (Hl : Z.log2 (Z.lxor a b) <= Z.max (Z.log2 a) (Z.log2 b))
      by (apply Z.log2_lxor; lia).
    assert (Z.log2 a < n).
    { destruct (Z.eq_dec a 0) as [->|]; [simpl; lia|].
      apply Z.log2_lt_pow2; lia. }
    assert (Z.log2 b < n).
    { destruct (Z.eq_dec b 0) as [->|]; [simpl; lia|].
      apply Z.log2_lt_pow2; lia. }
    lia.
Qed.

Lemma uint64_range (x : Z) : 0 <= uint64 x < 2 ^ 64.
Proof. unfold uint64, two64. apply Z.mod_pos_bound. lia. Qed.

Lemma shiftr_range (h k : Z) :
  0 <= k -> 0 <= h < 2 ^ 64 -> 0 <= Z.shiftr h k < 2 ^ 64.
Proof.
  intros Hk Hh. rewrite Z.shiftr_div_pow2 by lia.
  assert (0 < 2 ^ k) by (apply Z.pow_pos_nonneg; lia).
  split; [apply Z.div_pos; lia|].
  apply Z.le_lt_trans with h; [|lia].
  apply Z.div_le_upper_bound; nia.
Qed.

(** The hash is a 64-bit value. *)
Lemma Checksum64S_range (bs : list byte) (seed : Z) :
  0 <= XXH64.Checksum64S bs seed < 2 ^ 64.
Proof.
  unfold XXH64.Checksum64S.
  match goal with |- context [let '(_, _) := ?x in _] => destruct x as [h rest] end.
  generalize (XXH64.finalize (length rest) (XXH64.add h (Z.of_nat (length bs))) rest).
  clear h rest. intros h. unfold XXH64.avalanche, XXH64.mul.
  apply lxor_range; [lia|apply uint64_range|].
  apply shiftr_range; [lia|apply uint64_range].
Qed.

Lemma Sum64_range (xx : XXH64.state) : 0 <= XXH64.Sum64 xx < 2 ^ 64.
Proof. apply Checksum64S_range. Qed.

(** ** [fullHash] *)

Lemma fullHash_cases (f : File) (size : Z) :
  fullHash f size =
    match (read_all f 0 (fdata f)).2 with
    | Some e => Err e
    | None => Ok (preimage (XXH64.Sum64 (fdata f)) size)
    end.
Proof.
  unfold fullHash, io_Copy.
  destruct (read_all f 0 (fdata f)) as [got err] eqn:E. cbn [snd].
  destruct err as [e|]; [reflexivity|].
  apply read_all_None in E. subst got.
  unfold preimage, binary_Write_LE, XXH64.Write, XXH64.New64.
  cbn [concat map]. rewrite app_nil_l, app_nil_r. reflexivity.
Qed.

Lemma fullHash_readable (f : File) (size : Z) :
  readable f -> fullHash f size = Ok (preimage (XXH64.Sum64 (fdata f)) size).
Proof.
  intros Hr. rewrite fullHash_cases.
  rewrite read_all_full; [reflexivity|]. intros p Hp. apply Hr. lia.
Qed.

(** A failing position inside the file makes reading to the end fail. *)
Lemma read_all_bad (f : File) pos src p :
  pos <= p < pos + Z.of_nat (length src) -> fbad f p = true ->
  (read_all f pos src).2 = Some (read_error f).
Proof.
  revert pos. induction src as [|b rest IH]; intros pos Hp Hbad.
  - simpl in Hp. lia.
  - simpl. destruct (fbad f pos) eqn:E; [reflexivity|].
    assert (p <> pos) by congruence.
    specialize (IH (pos + 1)).
    destruct (read_all f (pos + 1) rest) as [got err]. cbn [snd] in *.
    apply IH; [simpl in Hp; lia|exact Hbad].
Qed.

(** A failing position inside the file makes [fullHash] fail with the
    read error. *)
Lemma fullHash_read_error (f : File) (size p : Z) :
  0 <= p < Z.of_nat (length (fdata f)) -> fbad f p = true ->
  fullHash f size = Err (read_error f).
Proof.
  intros Hp Hbad. rewrite fullHash_cases.
  rewrite (read_all_bad f 0 (fdata f) p) by (assumption || lia).
  reflexivity.
Qed.

(** A read error on the last window makes [sampleHash] fail with it. *)
Lemma sampleHash_last_read_error (f : File) (size : Z) (e : error) :
  0 <= size < 2 ^ 63 ->
  is_EOF (window_err f 0) = false ->
  is_EOF (window_err f (Z.quot size 2)) = false ->
  window_err f (size - 1024) = Some e -> e <> EOF ->
  sampleHash f size = Err e.
Proof.
  intros Hr H0 H1 H2 He. rewrite (sampleHash_large f size Hr), H0, H1, H2.
  destruct e; [contradiction|reflexivity|reflexivity].
Qed.

(** C2: for a file whose declared size is below the 512 KiB threshold,
    a fingerprint that [SmartHash] produces is the 64-bit hash of a
    pre-image made of the digest of the whole content followed by the
    declared size; when the content can be read the fingerprint is
    produced; the pre-image is sixteen bytes, the first eight the
    digest in little-endian order and the last eight the size (as a
    [uint64]) in little-endian order; and two files with the same
    content and declared size get the same fingerprint. *)
Theorem SmartHash_full (f : File) (info : FileInfo) :
  Size info < threshold ->
  (forall fp, SmartHash f info threshold = Ok fp ->
     fp = XXH64.Checksum64S
            (preimage (XXH64.Sum64 (fdata f)) (Size info)) 0)
  /\ (readable f ->
      SmartHash f info threshold =
        Ok (XXH64.Checksum64S
              (preimage (XXH64.Sum64 (fdata f)) (Size info)) 0))
  /\ (length (preimage (XXH64.Sum64 (fdata f)) (Size info)) = 16%nat
      /\ le_word (take 8 (preimage (XXH64.Sum64 (fdata f)) (Size info)))
         = XXH64.Sum64 (fdata f)
      /\ le_word (drop 8 (preimage (XXH64.Sum64 (fdata f)) (Size info)))
         = uint64 (Size info))
  /\ (forall g fp fp',
        fdata g = fdata f ->
        SmartHash f info threshold = Ok fp ->
        SmartHash g info threshold = Ok fp' -> fp = fp').
Proof.
  intros Hlt.
  assert (Hinv : forall g fp, SmartHash g info threshold = Ok fp ->
            fp = XXH64.Checksum64S
                   (preimage (XXH64.Sum64 (fdata g)) (Size info)) 0).
  { intros g fp. rewrite (SmartHash_below _ _ _ Hlt), fullHash_cases.
    destruct (read_all g 0 (fdata g)).2; [discriminate|].
    intros [= <-]. reflexivity. }
  split; [apply Hinv|]. split; [|split].
  - intros Hr. rewrite (SmartHash_below _ _ _ Hlt), fullHash_readable by exact Hr.
    reflexivity.
  - destruct (preimage_layout (XXH64.Sum64 (fdata f)) (Size info))
      as (Hl & Hd & Hs).
    split; [exact Hl|]. split; [|exact Hs].
    rewrite Hd. apply uint64_small, Sum64_range.
  - intros g fp fp' Hdata Hf Hg.
    apply Hinv in Hf. apply Hinv in Hg. rewrite Hdata in Hg. congruence.
Qed.

(** ** The path filter *)

Lemma Match_true_iff (e : RegexFlag) (p : string) :
  Match e p = true <-> matches_some e p.
Proof.
  unfold matches_some. induction e as [|re rest IH]; simpl.
  - split; [discriminate|]. intros (re & [] & _).
  - destruct (MatchString re p) eqn:E.
    + split; [|reflexivity]. intros _. exists re. auto.
    + rewrite IH. split.
      * intros (re' & Hin & Hm). exists re'. auto.
      * intros (re' & [<-|Hin] & Hm); [congruence|]. exists re'. auto.
Qed.

(** ** The walk *)

Lemma CatalogHash_refused d rootId fp p mtime e :
  (CatalogHash d rootId fp p mtime).2 = Err e ->
  (CatalogHash d rootId fp p mtime).1 = d.
Proof.
  unfold CatalogHash. destruct (db_fault d _); [reflexivity|discriminate].
Qed.

Lemma CatalogHash_accepted d rootId fp p mtime :
  db_fault d (InsertFile (mkFileRow rootId (Sprintf_x fp) p mtime)) = None ->
  (CatalogHash d rootId fp p mtime).1
  = mkDB (roots d)
         (files d ++ [mkFileRow rootId (Sprintf_x fp) p mtime])
         (db_fault d).
Proof. unfold CatalogHash. intros ->. reflexivity. Qed.

Section WalkFacts.

Variable path_Join : string -> string -> string.
Variable path_Dir : string -> string.
Variable os : OS.
Variable Opts : Options.

Local Abbreviation path_of := (path_of path_Join).
Local Abbreviation HashAndCatalog := (HashAndCatalog path_Join os).
Local Abbreviation enqueue := (enqueue path_Join Opts).
Local Abbreviation step := (step path_Join os Opts).
Local Abbreviation loop := (loop path_Join os Opts).
Local Abbreviation Run := (Run path_Join path_Dir os Opts).
Local Abbreviation qualifies := (qualifies path_Join Opts).
Local Abbreviation lineage := (lineage path_Join os Opts).
Local Abbreviation event_of := (event_of path_Join).
Local Abbreviation accounted := (accounted path_Join os Opts).
Local Abbreviation seed_of := (seed_of path_Dir Opts).
Local Abbreviation keep := (keep path_Join Opts).

(** *** The inner loop *)

Lemma enqueue_filter (context : string) (fileQ : list WalkerContext)
    (infos : list FileInfo) :
  enqueue context fileQ infos =
  fileQ ++ map (fun info => mkWalkerContext info context)
               (List.filter (keep context) infos).
Proof.
  unfold enqueue, keep. revert fileQ.
  induction infos as [|info infos IH]; intros fileQ; simpl.
  - now rewrite app_nil_r.
  - rewrite IH.
    destruct (Match (excludes Opts) (path_Join context (Name info)));
      simpl; [reflexivity|].
    now rewrite <- app_assoc.
Qed.

(** *** [HashAndCatalog] by cases *)

Lemma HashAndCatalog_denied rootId walked s op p :
  os_Open os (path_of walked) = Err (PathError op p "permission denied") ->
  HashAndCatalog rootId walked s
  = (emit (EvOpenFile (path_of walked)) s, None).
Proof.
  intros H. unfold HashAndCatalog. unfold path_of in H.
  rewrite H. reflexivity.
Qed.

Lemma HashAndCatalog_hash_error rootId walked s file e :
  os_Open os (path_of walked) = Ok file ->
  SmartHash file (Info walked) threshold = Err e ->
  HashAndCatalog rootId walked s
  = (emit (EvSmartHash (path_of walked))
       (emit (EvOpenFile (path_of walked)) s),
     Some (errorString (path_of walked +:+ ": " +:+ Error e))).
Proof.
  intros Ho Hh. unfold HashAndCatalog. unfold path_of in Ho.
  rewrite Ho, Hh. reflexivity.
Qed.

Lemma HashAndCatalog_hashed rootId walked s file fp :
  os_Open os (path_of walked) = Ok file ->
  SmartHash file (Info walked) threshold = Ok fp ->
  HashAndCatalog rootId walked s
  = (mkState
       (CatalogHash (db s) rootId fp (path_of walked)
          (ModTime (Info walked))).1
       (trace s ++ [EvOpenFile (path_of walked);
                    EvSmartHash (path_of walked)]),
     None).
Proof.
  intros Ho Hh. unfold HashAndCatalog. unfold path_of in Ho.
  rewrite Ho, Hh. cbn [emit db trace].
  destruct (CatalogHash _ _ _ _ _) as [d r]. cbn [fst].
  now rewrite <- app_assoc.
Qed.

(** A file that can be opened is handed to [SmartHash]. *)
Lemma HashAndCatalog_fingerprints rootId walked s file :
  os_Open os (path_of walked) = Ok file ->
  In (EvSmartHash (path_of walked)) (trace (HashAndCatalog rootId walked s).1).
Proof.
  intros Ho. unfold HashAndCatalog. unfold path_of in *. rewrite Ho.
  destruct (SmartHash file (Info walked) threshold) as [fp|e].
  - destruct (CatalogHash _ _ _ _ _) as [d r]. cbn [fst trace emit].
    apply in_or_app. right. left. reflexivity.
  - cbn [fst trace emit]. apply in_or_app. right. left. reflexivity.
Qed.

(** *** One pass of the loop *)

Lemma step_qualifying rootId cur fileQ s :
  qualifies cur = true ->
  step rootId (cur :: fileQ) s =
    match HashAndCatalog rootId cur s with
    | (s', Some err) => Return s' (Some err)
    | (s', None) => Continue fileQ s'
    end.
Proof.
  unfold qualifies, step, path_of.
  intros H. apply andb_prop in H as [H Hincl]. apply andb_prop in H as [Hd Hr].
  apply negb_true_iff in Hd. rewrite Hd, Hr. cbn [negb].
  destruct (0 <? length (includes Opts))%nat; cbn [negb orb andb] in *.
  - rewrite Hincl. reflexivity.
  - reflexivity.
Qed.

Lemma step_not_qualifying rootId cur fileQ s :
  IsDir (Info cur) = false -> qualifies cur = false ->
  step rootId (cur :: fileQ) s = Continue fileQ s.
Proof.
  unfold qualifies, step, path_of.
  intros Hd H. rewrite Hd in *. cbn [negb andb] in H.
  destruct (IsRegular (Mode (Info cur))); cbn [negb andb] in *; [|reflexivity].
  apply orb_false_iff in H as [H1 H2]. apply negb_false_iff in H1.
  rewrite H1, H2. reflexivity.
Qed.

Lemma step_directory rootId cur fileQ s dir infos :
  IsDir (Info cur) = true ->
  os_Open os (path_of cur) = Ok dir -> Readdir dir = Ok infos ->
  step rootId (cur :: fileQ) s =
    Continue (fileQ ++ map (fun info => mkWalkerContext info (path_of cur))
                           (List.filter (keep (path_of cur)) infos))
             (emit (EvOpenDir (path_of cur)) s).
Proof.
  intros Hd Ho Hr. unfold step. unfold path_of in *.
  rewrite Hd, Ho, Hr. now rewrite enqueue_filter.
Qed.

(** *** Where the items come from *)

Lemma lineage_not_excluded seed anc x :
  lineage seed anc x ->
  x = seed \/ Match (excludes Opts) (path_of x) = false.
Proof. intros [ | ]; [left; reflexivity|right; assumption]. Qed.

Lemma lineage_ancestors seed anc x :
  lineage seed anc x ->
  Forall (fun a => a = path_of seed \/ Match (excludes Opts) a = false) anc.
Proof.
  induction 1 as [|parent anc dir infos info Hp IH Hd Ho Hr Hin Hm].
  - constructor.
  - constructor; [|exact IH].
    destruct (lineage_not_excluded _ _ _ Hp) as [->|Hn]; auto.
Qed.

Lemma lineage_file_not_excluded seed anc x :
  IsDir (Info seed) = true ->
  lineage seed anc x -> IsDir (Info x) = false ->
  Match (excludes Opts) (path_of x) = false.
Proof.
  intros Hs Hl Hx.
  destruct (lineage_not_excluded _ _ _ Hl) as [->|Hn]; [congruence|exact Hn].
Qed.

(** *** What the walk adds is accounted for *)

Lemma accounted_refl seed s : accounted seed s s [] [].
Proof.
  unfold accounted. rewrite !app_nil_r. repeat split; constructor.
Qed.

Lemma accounted_trans seed s1 s2 s3 tr1 rows1 tr2 rows2 :
  accounted seed s1 s2 tr1 rows1 -> accounted seed s2 s3 tr2 rows2 ->
  accounted seed s1 s3 (tr1 ++ tr2) (rows1 ++ rows2).
Proof.
  intros (Ht1 & Hf1 & He1 & Hr1) (Ht2 & Hf2 & He2 & Hr2).
  unfold accounted. rewrite Ht2, Ht1, Hf2, Hf1, !app_assoc.
  repeat split; apply Forall_app; split; assumption.
Qed.

Lemma accounted_emit seed s x anc ev :
  lineage seed anc x -> event_of x ev ->
  accounted seed s (emit ev s) [ev] [].
Proof.
  intros Hl He. unfold accounted, emit. cbn [trace db].
  rewrite app_nil_r. repeat split; repeat constructor. eauto.
Qed.

Lemma CatalogHash_files d rootId fp p mtime :
  exists rows,
    files (CatalogHash d rootId fp p mtime).1 = files d ++ rows
    /\ Forall (fun row => row_path row = p) rows.
Proof.
  unfold CatalogHash. destruct (db_fault d _); cbn [fst files].
  - exists []. rewrite app_nil_r. split; [reflexivity|constructor].
  - eexists [_]. split; [reflexivity|]. repeat constructor.
Qed.

Lemma HashAndCatalog_accounted seed rootId x anc s :
  lineage seed anc x -> IsDir (Info x) = false ->
  exists tr rows,
    accounted seed s (HashAndCatalog rootId x s).1 tr rows.
Proof.
  intros Hl Hd.
  assert (Ho : forall s0, accounted seed s0
                 (emit (EvOpenFile (path_of x)) s0)
                 [EvOpenFile (path_of x)] []).
  { intros s0. apply accounted_emit with x anc; [exact Hl|]. split; auto. }
  assert (Hh : forall s0, accounted seed s0
                 (emit (EvSmartHash (path_of x)) s0)
                 [EvSmartHash (path_of x)] []).
  { intros s0. apply accounted_emit with x anc; [exact Hl|]. split; auto. }
  unfold HashAndCatalog. fold (path_of x).
  destruct (os_Open os (path_of x)) as [file|err].
  - destruct (SmartHash file (Info x) threshold) as [fp|e].
    + destruct (CatalogHash_files
                  (db (emit (EvSmartHash (path_of x))
                         (emit (EvOpenFile (path_of x)) s)))
                  rootId fp (path_of x) (ModTime (Info x)))
        as (rows & Hrows & Hall).
      destruct (CatalogHash _ _ _ _ _) as [d r]. cbn [fst] in *.
      exists [EvOpenFile (path_of x); EvSmartHash (path_of x)], rows.
      unfold accounted. cbn [trace db emit] in *.
      rewrite <- app_assoc. repeat split; try assumption.
      * repeat constructor; exists x, anc; repeat split; auto.
      * eapply Forall_impl; [exact Hall|]. intros row Hrow.
        exists x, anc. auto.
    + do 2 eexists. cbn [fst].
      eapply accounted_trans; [apply Ho|apply Hh].
  - destruct err as [|op p msg|msg]; cbn [fst].
    + eauto.
    + destruct (String.eqb msg "permission denied"); cbn [fst]; eauto.
    + eauto.
Qed.

Lemma Forall_lineage_enqueue seed cur anc fileQ dir infos :
  lineage seed anc cur -> IsDir (Info cur) = true ->
  os_Open os (path_of cur) = Ok dir -> Readdir dir = Ok infos ->
  Forall (fun x => exists anc, lineage seed anc x) fileQ ->
  Forall (fun x => exists anc, lineage seed anc x)
         (enqueue (path_of cur) fileQ infos).
Proof.
  intros Hl Hd Ho Hr Hq. rewrite enqueue_filter.
  apply Forall_app. split; [exact Hq|].
  apply List.Forall_forall. intros x Hx.
  apply in_map_iff in Hx as (info & <- & Hin).
  apply filter_In in Hin as [Hin Hk].
  exists (path_of cur :: anc).
  eapply lineage_child; eauto.
  unfold keep in Hk. now apply negb_true_iff in Hk.
Qed.

(** One pass keeps the queue within the lineage of the seed, and what
    it adds is accounted for. *)
Lemma step_accounted seed rootId fileQ s :
  Forall (fun x => exists anc, lineage seed anc x) fileQ ->
  match step rootId fileQ s with
  | Continue fileQ' s' =>
      (exists tr rows, accounted seed s s' tr rows)
      /\ Forall (fun x => exists anc, lineage seed anc x) fileQ'
  | Return s' _ => exists tr rows, accounted seed s s' tr rows
  end.
Proof.
  intros Hq. destruct fileQ as [|cur fileQ]; cbn [step].
  { do 2 eexists. apply accounted_refl. }
  apply Forall_cons in Hq as [[anc Hl] Hq]. fold (path_of cur).
  destruct (IsDir (Info cur)) eqn:Hd.
  - assert (He : accounted seed s (emit (EvOpenDir (path_of cur)) s)
                   [EvOpenDir (path_of cur)] []).
    { apply accounted_emit with cur anc; [exact Hl|]. split; auto. }
    destruct (os_Open os (path_of cur)) as [dir|err] eqn:Ho; [|eauto].
    destruct (Readdir dir) as [infos|err] eqn:Hr; [|eauto].
    split; [eauto|]. eapply Forall_lineage_enqueue; eauto.
  - destruct (negb (IsRegular (Mode (Info cur)))).
    { split; [|exact Hq]. do 2 eexists. apply accounted_refl. }
    destruct ((0 <? length (includes Opts))%nat
              && negb (Match (includes Opts) (path_of cur))).
    { split; [|exact Hq]. do 2 eexists. apply accounted_refl. }
    destruct (HashAndCatalog_accounted seed rootId cur anc s Hl Hd)
      as (tr & rows & Hacc).
    destruct (HashAndCatalog rootId cur s) as [s' [err|]]; cbn [fst] in Hacc.
    + eauto.
    + split; [eauto|exact Hq].
Qed.

Lemma loop_accounted seed rootId fuel fileQ s :
  Forall (fun x => exists anc, lineage seed anc x) fileQ ->
  (exists tr rows, accounted seed s (loop fuel rootId fileQ s).1 tr rows)
  /\ (forall q, (loop fuel rootId fileQ s).2 = Running q ->
        Forall (fun x => exists anc, lineage seed anc x) q).
Proof.
  revert fileQ s. induction fuel as [|fuel IH]; intros fileQ s Hq.
  - cbn [loop fst snd]. split.
    + do 2 eexists. apply accounted_refl.
    + intros q [= <-]. exact Hq.
  - cbn [loop].
    pose proof (step_accounted seed rootId fileQ s Hq) as Hs.
    destruct (step rootId fileQ s) as [fileQ' s'|s' err].
    + destruct Hs as [(tr1 & rows1 & H1) Hq'].
      destruct (IH fileQ' s' Hq') as [(tr2 & rows2 & H2) Hrun].
      split; [|exact Hrun].
      do 2 eexists. eapply accounted_trans; eassumption.
    + cbn [fst snd]. split; [exact Hs|]. intros q. discriminate.
Qed.

Lemma EnsureRootId_files d r :
  files (EnsureRootId d r).1 = files d.
Proof.
  unfold EnsureRootId.
  destruct (db_fault d (SelectRoot r)); [reflexivity|].
  destruct (index_of r (roots d) 1); [reflexivity|].
  destruct (db_fault d (InsertRoot r)); reflexivity.
Qed.

(** [Run] before its loop: either it returns at once, with the tables
    of files and the trace as they were, or it enters the loop from
    the seed. *)
Lemma Run_cases fuel s :
  (trace (Run fuel s).1 = trace s
   /\ files (db (Run fuel s).1) = files (db s)
   /\ exists err, (Run fuel s).2 = Returned (Some err))
  \/ (exists rootInfo d rootId,
        os_Stat os (root Opts) = Ok rootInfo
        /\ IsDir rootInfo = true
        /\ EnsureRootId (db s) (root Opts) = (d, Ok rootId)
        /\ Run fuel s
           = loop fuel rootId [seed_of rootInfo] (mkState d (trace s))).
Proof.
  unfold Run.
  destruct (os_Stat os (root Opts)) as [rootInfo|err]; [|left; eauto].
  destruct (IsDir rootInfo) eqn:Hd; cbn [negb]; [|left; eauto].
  pose proof (EnsureRootId_files (db s) (root Opts)) as Hf.
  destruct (EnsureRootId (db s) (root Opts)) as [d [rootId|err]];
    cbn [fst] in Hf.
  - right. exists rootInfo, d, rootId. auto.
  - left. cbn [fst snd trace db]. eauto.
Qed.

Lemma Run_accounted fuel s rootInfo :
  os_Stat os (root Opts) = Ok rootInfo ->
  (exists tr rows,
     accounted (seed_of rootInfo) s (Run fuel s).1 tr rows)
  /\ (forall q, (Run fuel s).2 = Running q ->
        Forall (fun x => exists anc, lineage (seed_of rootInfo) anc x) q).
Proof.
  intros Hstat.
  destruct (Run_cases fuel s)
    as [(Ht & Hf & err & Hr)|(ri & d & rootId & Hs & Hd & He & Hrun)].
  - split.
    + exists [], []. unfold accounted. rewrite !app_nil_r.
      repeat split; auto.
    + intros q. rewrite Hr. discriminate.
  - rewrite Hstat in Hs. injection Hs as <-.
    rewrite Hrun.
    destruct (loop_accounted (seed_of rootInfo) rootId fuel
                [seed_of rootInfo] (mkState d (trace s)))
      as [(tr & rows & Ht & Hf & Hev & Hrows) Hq].
    { constructor; [|constructor]. exists []. constructor. }
    split; [|exact Hq].
    exists tr, rows. unfold accounted. cbn [trace db files] in *.
    pose proof (EnsureRootId_files (db s) (root Opts)) as Hfiles.
    rewrite He in Hfiles. cbn [fst] in Hfiles.
    rewrite <- Hfiles. auto.
Qed.

(** *** The loop, pass by pass *)

Lemma loop_step_continue fuel rootId fileQ s fileQ' s' :
  step rootId fileQ s = Continue fileQ' s' ->
  loop (S fuel) rootId fileQ s = loop fuel rootId fileQ' s'.
Proof. intros H. cbn [loop]. now rewrite H. Qed.

Lemma loop_step_return fuel rootId fileQ s s' err :
  step rootId fileQ s = Return s' err ->
  loop (S fuel) rootId fileQ s = (s', Returned err).
Proof. intros H. cbn [loop]. now rewrite H. Qed.

(** C4: exclusion overrides inclusion.  Whatever the inclusion
    patterns are, a path that matches an exclusion pattern is never
    opened as a file, never handed to [SmartHash] and never recorded:
    among the events and the rows that [Run] adds, within any number
    of passes, none is for that path. *)
Theorem exclusion_overrides_inclusion (fuel : nat) (s : State) (p : string) :
  Match (excludes Opts) p = true ->
  exists tr rows,
    trace (Run fuel s).1 = trace s ++ tr
    /\ files (db (Run fuel s).1) = files (db s) ++ rows
    /\ ~ In (EvOpenFile p) tr
    /\ ~ In (EvSmartHash p) tr
    /\ (forall row, In row rows -> row_path row <> p).
Proof.
  intros Hex.
  destruct (Run_cases fuel s)
    as [(Ht & Hf & _)|(rootInfo & d & rootId & Hs & Hd & _ & _)].
  { exists [], []. rewrite !app_nil_r. repeat split; auto. }
  destruct (Run_accounted fuel s rootInfo Hs)
    as [(tr & rows & Ht & Hf & Hev & Hrows) _].
  assert (Hfile : forall x anc, lineage (seed_of rootInfo) anc x ->
            IsDir (Info x) = false -> p <> path_of x).
  { intros x anc Hl Hx ->.
    pose proof (lineage_file_not_excluded
                  (seed_of rootInfo) anc x Hd Hl Hx).
    congruence. }
  exists tr, rows. split; [exact Ht|]. split; [exact Hf|].
  rewrite List.Forall_forall in Hev, Hrows.
  split; [|split].
  - intros Hin. destruct (Hev _ Hin) as (x & anc & Hl & Hx & Hp).
    exact (Hfile x anc Hl Hx Hp).
  - intros Hin. destruct (Hev _ Hin) as (x & anc & Hl & Hx & Hp).
    exact (Hfile x anc Hl Hx Hp).
  - intros row Hin Hp. destruct (Hrows _ Hin) as (x & anc & Hl & Hx & Hrp).
    apply (Hfile x anc Hl Hx). congruence.
Qed.

(** C5, amended: for a directory other than the root whose path matches
    an exclusion pattern, within any number of passes the directory is
    never listed and never in the queue, and every entry that is
    listed, opened, fingerprinted or recorded was reached from the root
    through directories none of which is that directory. *)
Theorem excluded_directory_pruned (fuel : nat) (s : State)
    (rootInfo : FileInfo) (d : string) :
  os_Stat os (root Opts) = Ok rootInfo ->
  Match (excludes Opts) d = true ->
  d <> path_of (seed_of rootInfo) ->
  exists tr rows,
    trace (Run fuel s).1 = trace s ++ tr
    /\ files (db (Run fuel s).1) = files (db s) ++ rows
    /\ ~ In (EvOpenDir d) tr
    /\ (forall q x, (Run fuel s).2 = Running q -> In x q -> path_of x <> d)
    /\ (forall ev, In ev tr ->
          exists x anc, lineage (seed_of rootInfo) anc x
                        /\ event_of x ev /\ ~ In d anc)
    /\ (forall row, In row rows ->
          exists x anc, lineage (seed_of rootInfo) anc x
                        /\ row_path row = path_of x /\ ~ In d anc).
Proof.
  intros Hs Hex Hroot.
  destruct (Run_accounted fuel s rootInfo Hs)
    as [(tr & rows & Ht & Hf & Hev & Hrows) Hq].
  assert (Hitem : forall x anc, lineage (seed_of rootInfo) anc x ->
            path_of x <> d).
  { intros x anc Hl <-.
    destruct (lineage_not_excluded _ _ _ Hl) as [->|Hn];
      congruence. }
  assert (Hanc : forall x anc, lineage (seed_of rootInfo) anc x ->
            ~ In d anc).
  { intros x anc Hl Hin.
    pose proof (lineage_ancestors _ _ _ Hl) as Ha.
    rewrite List.Forall_forall in Ha.
    destruct (Ha d Hin) as [?|?]; congruence. }
  rewrite List.Forall_forall in Hev, Hrows.
  exists tr, rows. split; [exact Ht|]. split; [exact Hf|].
  split; [|split; [|split]].
  - intros Hin. destruct (Hev _ Hin) as (x & anc & Hl & _ & Hp).
    apply (Hitem x anc Hl). auto.
  - intros q x Hrun Hin. specialize (Hq q Hrun).
    rewrite List.Forall_forall in Hq.
    destruct (Hq x Hin) as [anc Hl]. eauto.
  - intros ev Hin. destruct (Hev _ Hin) as (x & anc & Hl & He).
    exists x, anc. eauto.
  - intros row Hin. destruct (Hrows _ Hin) as (x & anc & Hl & _ & Hp).
    exists x, anc. eauto.
Qed.

(** C7: in the sampled strategy, end-of-file on the first or on the
    second window makes [sampleHash], and so [SmartHash], fail with
    "Unexpected EOF!"; [HashAndCatalog] passes the error on with the
    path in front and the loop of [Run] returns it at once, leaving the
    rest of the queue unvisited.  End-of-file on the third window only
    is tolerated: the fingerprint is produced from the three
    buffers. *)
Theorem truncated_sample_aborts_walk (rootId : Z) (cur : WalkerContext)
    (fileQ : list WalkerContext) (s : State) (file : File) :
  qualifies cur = true ->
  os_Open os (path_of cur) = Ok file ->
  threshold <= Size (Info cur) -> Size (Info cur) < 2 ^ 63 ->
  ((window_err file 0 = Some EOF
    \/ window_err file (Z.quot (Size (Info cur)) 2) = Some EOF) ->
   sampleHash file (Size (Info cur)) = Err (errorString "Unexpected EOF!")
   /\ SmartHash file (Info cur) threshold
      = Err (errorString "Unexpected EOF!")
   /\ forall fuel,
        loop (S fuel) rootId (cur :: fileQ) s
        = (emit (EvSmartHash (path_of cur))
             (emit (EvOpenFile (path_of cur)) s),
           Returned (Some (errorString
              (path_of cur +:+ ": " +:+ "Unexpected EOF!")))))
  /\ (window_err file 0 <> Some EOF ->
      window_err file (Z.quot (Size (Info cur)) 2) <> Some EOF ->
      window_err file (Size (Info cur) - 1024) = Some EOF ->
      SmartHash file (Info cur) threshold
      = Ok (fold_size
              (XXH64.Sum64
                 (window file 0
                  ++ window file (Z.quot (Size (Info cur)) 2)
                  ++ window file (Size (Info cur) - 1024)))
              (Size (Info cur)))).
Proof.
  intros Hq Ho Hthr Hmax. pose proof threshold_value as Hv.
  assert (Hrange : 0 <= Size (Info cur) < 2 ^ 63) by lia.
  pose proof (sampleHash_large file _ Hrange) as Hsample.
  pose proof (SmartHash_above file (Info cur) threshold Hthr) as Hsmart.
  split.
  - intros Heof.
    assert (Hs : sampleHash file (Size (Info cur))
                 = Err (errorString "Unexpected EOF!")).
    { rewrite Hsample. destruct Heof as [-> | ->]; cbn [is_EOF].
      - reflexivity.
      - destruct (is_EOF (window_err file 0)); reflexivity. }
    rewrite Hs in Hsmart.
    split; [exact Hs|]. split; [exact Hsmart|].
    intros fuel. apply loop_step_return.
    rewrite step_qualifying by exact Hq.
    rewrite (HashAndCatalog_hash_error rootId cur s file _
               Ho Hsmart).
    reflexivity.
  - intros H0 H1 H2. rewrite Hsmart, Hsample, H2.
    destruct (window_err file 0) as [[| |]|]; try congruence;
      destruct (window_err file (Z.quot (Size (Info cur)) 2)) as [[| |]|];
      try congruence; cbn [is_EOF]; unfold fold_size; reflexivity.
Qed.

(** C9: once the fingerprint of a file is computed, [HashAndCatalog]
    returns nil whatever [CatalogHash] answers; when the insertion
    fails, the error appears nowhere, the database is left as it was,
    and the loop goes on with the rest of the queue. *)
Theorem record_error_discarded (rootId : Z) (cur : WalkerContext)
    (fileQ : list WalkerContext) (s : State) (file : File) (fp : Z) :
  qualifies cur = true ->
  os_Open os (path_of cur) = Ok file ->
  SmartHash file (Info cur) threshold = Ok fp ->
  (HashAndCatalog rootId cur s).2 = None
  /\ (forall e,
        (CatalogHash (db s) rootId fp (path_of cur)
           (ModTime (Info cur))).2 = Err e ->
        HashAndCatalog rootId cur s
        = (mkState (db s)
             (trace s ++ [EvOpenFile (path_of cur);
                          EvSmartHash (path_of cur)]), None)
        /\ forall fuel,
             loop (S fuel) rootId (cur :: fileQ) s
             = loop fuel rootId fileQ
                 (mkState (db s)
                    (trace s ++ [EvOpenFile (path_of cur);
                                 EvSmartHash (path_of cur)]))).
Proof.
  intros Hq Ho Hh.
  pose proof (HashAndCatalog_hashed rootId cur s file fp Ho Hh)
    as Hhc.
  split; [now rewrite Hhc|].
  intros e He. rewrite (CatalogHash_refused _ _ _ _ _ _ He) in Hhc.
  split; [exact Hhc|].
  intros fuel. apply loop_step_continue.
  rewrite step_qualifying by exact Hq. now rewrite Hhc.
Qed.

End WalkFacts.

(** ** The theorems at the examples *)

Lemma SmartHash_sampled_witness :
  threshold <= Size info_512k
  /\ ~ sampled (Size info_512k) (Z.of_nat 2000)
  /\ SmartHash (poke file_zeros 2000 x01) info_512k threshold
     = SmartHash file_zeros info_512k threshold.
Proof.
  assert (H1 : threshold <= Size info_512k) by (vm_compute; discriminate).
  assert (H2 : Size info_512k < 2 ^ 63) by reflexivity.
  assert (H3 : ~ sampled (Size info_512k) (Z.of_nat 2000)).
  { unfold sampled, in_window, info_512k. cbn [Size].
    change (Z.quot 524288 2) with 262144.
    change (Z.of_nat 2000) with 2000. lia. }
  split; [exact H1|]. split; [exact H3|].
  exact (proj2 (proj2 (SmartHash_sampled file_zeros info_512k H1 H2))
           2000%nat x01 H3).
Defined.

Lemma SmartHash_full_witness :
  Size info_a < threshold
  /\ SmartHash (regular "/r/a.txt" (text "0123456789")) info_a threshold
     = Ok (XXH64.Checksum64S
             (preimage (XXH64.Sum64 (text "0123456789")) 10) 0).
Proof.
  assert (H1 : Size info_a < threshold) by reflexivity.
  split; [exact H1|].
  apply (proj1 (proj2 (SmartHash_full
                         (regular "/r/a.txt" (text "0123456789")) info_a H1))).
  intros p _. reflexivity.
Defined.

Lemma exclusion_overrides_inclusion_witness :
  Match (excludes opts_skip) "/r/skip.txt" = true
  /\ Match (includes opts_skip) "/r/skip.txt" = true
  /\ exists tr rows,
       trace (Run Join2 Dir1 ex_os opts_skip 10 start).1 = trace start ++ tr
       /\ files (db (Run Join2 Dir1 ex_os opts_skip 10 start).1)
          = files (db start) ++ rows
       /\ ~ In (EvOpenFile "/r/skip.txt") tr
       /\ ~ In (EvSmartHash "/r/skip.txt") tr
       /\ (forall row, In row rows -> row_path row <> "/r/skip.txt").
Proof.
  split; [reflexivity|]. split; [reflexivity|].
  apply (exclusion_overrides_inclusion Join2 Dir1 ex_os opts_skip 10 start
           "/r/skip.txt").
  reflexivity.
Defined.

(** The root is the exception to pruning: with the pattern [^/r$] the
    root [/r] matches an exclusion pattern, and it is listed all the
    same; the files below it are opened, fingerprinted and recorded. *)
Lemma excluded_root_is_walked :
  Match (excludes opts_root) "/r" = true
  /\ In (EvOpenDir "/r") (trace (Run Join2 Dir1 ex_os opts_root 10 start).1)
  /\ In (EvOpenFile "/r/a.txt")
        (trace (Run Join2 Dir1 ex_os opts_root 10 start).1)
  /\ In (EvSmartHash "/r/a.txt")
        (trace (Run Join2 Dir1 ex_os opts_root 10 start).1)
  /\ In "/r/a.txt"
        (map row_path (files (db (Run Join2 Dir1 ex_os opts_root 10 start).1))).
Proof.
  vm_compute. repeat split; auto 20.
Qed.

Lemma excluded_directory_pruned_witness :
  Match (excludes opts_skip) "/r/skip" = true
  /\ exists tr rows,
       trace (Run Join2 Dir1 ex_os opts_skip 10 start).1 = trace start ++ tr
       /\ files (db (Run Join2 Dir1 ex_os opts_skip 10 start).1)
          = files (db start) ++ rows
       /\ ~ In (EvOpenDir "/r/skip") tr.
Proof.
  split; [reflexivity|].
  destruct (excluded_directory_pruned Join2 Dir1 ex_os opts_skip 10 start
              info_r "/r/skip")
    as (tr & rows & Ht & Hf & Hd & _).
  - reflexivity.
  - reflexivity.
  - vm_compute. discriminate.
  - exists tr, rows. auto.
Defined.

Lemma truncated_sample_aborts_walk_witness :
  (window_err file_cut 0 = Some EOF
   /\ loop Join2 ex_os opts_v 1 1
        [mkWalkerContext info_cut "/v"; mkWalkerContext info_after "/v"] start
      = (emit (EvSmartHash "/v/cut.bin") (emit (EvOpenFile "/v/cut.bin") start),
         Returned (Some (errorString "/v/cut.bin: Unexpected EOF!"))))
  /\ (window_err file_short_tail (Size info_tail - 1024) = Some EOF
      /\ SmartHash file_short_tail info_tail threshold
         = Ok (fold_size
                 (XXH64.Sum64
                    (window file_short_tail 0
                     ++ window file_short_tail (Z.quot (Size info_tail) 2)
                     ++ window file_short_tail (Size info_tail - 1024)))
                 (Size info_tail))).
Proof.
  assert (Hthr : threshold <= 524288) by (vm_compute; discriminate).
  assert (Hmax : 524288 < 2 ^ 63) by reflexivity.
  assert (Hcut : window_err file_cut 0 = Some EOF) by (vm_compute; reflexivity).
  assert (Htail : window_err file_short_tail (Size info_tail - 1024)
                  = Some EOF) by (vm_compute; reflexivity).
  split.
  - split; [exact Hcut|].
    destruct (truncated_sample_aborts_walk Join2 ex_os opts_v 1
                (mkWalkerContext info_cut "/v")
                [mkWalkerContext info_after "/v"] start file_cut
                eq_refl eq_refl Hthr Hmax) as [Habort _].
    destruct (Habort (or_introl Hcut)) as (_ & _ & Hloop).
    exact (Hloop 0%nat).
  - split; [exact Htail|].
    destruct (truncated_sample_aborts_walk Join2 ex_os opts_v 1
                (mkWalkerContext info_tail "/v") [] start file_short_tail
                eq_refl eq_refl Hthr Hmax) as [_ Htol].
    apply Htol.
    + vm_compute. discriminate.
    + vm_compute. discriminate.
    + exact Htail.
Defined.

Lemma record_error_discarded_witness :
  (CatalogHash locked_db 1 15583016240330083129 "/r/a.txt" 1001).2
  = Err (errorString "database is locked")
  /\ HashAndCatalog Join2 ex_os 1 (mkWalkerContext info_a "/r")
       (mkState locked_db [])
     = (mkState locked_db [EvOpenFile "/r/a.txt"; EvSmartHash "/r/a.txt"],
        None)
  /\ loop Join2 ex_os opts_root 2 1
       [mkWalkerContext info_a "/r"; mkWalkerContext info_z "/r"]
       (mkState locked_db [])
     = loop Join2 ex_os opts_root 1 1 [mkWalkerContext info_z "/r"]
         (mkState locked_db [EvOpenFile "/r/a.txt"; EvSmartHash "/r/a.txt"]).
Proof.
  assert (He : (CatalogHash locked_db 1 15583016240330083129 "/r/a.txt" 1001).2
               = Err (errorString "database is locked")) by reflexivity.
  assert (Hh : SmartHash (regular "/r/a.txt" (text "0123456789")) info_a
                 threshold = Ok 15583016240330083129)
    by (vm_compute; reflexivity).
  destruct (record_error_discarded Join2 ex_os opts_root 1
              (mkWalkerContext info_a "/r") [mkWalkerContext info_z "/r"]
              (mkState locked_db []) _ _ eq_refl eq_refl Hh) as [_ Hdisc].
  destruct (Hdisc _ He) as [Hhc Hloop].
  split; [exact He|]. split; [exact Hhc|]. exact (Hloop 1%nat).
Defined.

(** C3: a read error on the first window is lost.  The first byte of
    the file cannot be read; [ReadAt] reports the error, the next pass
    of the loop in [sampleHash] overwrites it, and the file gets the
    fingerprint of a file of zeros, which the walk records without an
    error. *)
Lemma early_read_error_is_lost :
  window_err file_bad_head 0
  = Some (PathError "read" "/w/bad.bin" "input/output error")
  /\ SmartHash file_bad_head info_bad threshold = Ok 8082666689908051571
  /\ SmartHash file_zeros info_bad threshold = Ok 8082666689908051571
  /\ (Run Join2 Dir1 ex_os opts_w 3 start).2 = Returned None
  /\ files (db (Run Join2 Dir1 ex_os opts_w 3 start).1)
     = [mkFileRow 1 "702b6687d9da0e73" "/w/bad.bin" 1013].
Proof. vm_compute. repeat split; reflexivity. Qed.

(** * More about the fingerprint engine *)

(** ** [fullHash] and the read errors *)

Lemma read_all_None_readable (f : File) pos src :
  (read_all f pos src).2 = None ->
  forall p, pos <= p < pos + Z.of_nat (length src) -> fbad f p = false.
Proof.
  revert pos. induction src as [|b rest IH]; intros pos Hnone p Hp.
  - simpl in Hp. lia.
  - simpl in Hnone. destruct (fbad f pos) eqn:E; [discriminate|].
    destruct (read_all f (pos + 1) rest) as [got err] eqn:Er.
    cbn [snd] in Hnone. subst err.
    destruct (Z.eq_dec p pos) as [->|Hne]; [exact E|].
    apply (IH (pos + 1)); [now rewrite Er|]. simpl in Hp. lia.
Qed.

Lemma read_all_error (f : File) pos src e :
  (read_all f pos src).2 = Some e -> e = read_error f.
Proof.
  revert pos. induction src as [|b rest IH]; intros pos; simpl.
  - discriminate.
  - destruct (fbad f pos); [now intros [= <-]|].
    specialize (IH (pos + 1)).
    destruct (read_all f (pos + 1) rest) as [got err]. exact IH.
Qed.

(** X1: [fullHash] succeeds exactly on the files that can be read to the
    end, and then hashes the whole content; on any other file it
    returns the read error. *)
Theorem fullHash_succeeds_iff_readable (f : File) (size : Z) :
  (readable f <->
   fullHash f size = Ok (preimage (XXH64.Sum64 (fdata f)) size))
  /\ (readable f \/ fullHash f size = Err (read_error f)).
Proof.
  rewrite fullHash_cases.
  destruct (read_all f 0 (fdata f)).2 as [e|] eqn:E.
  - apply read_all_error in E as Heq. subst e. split; [|right; reflexivity].
    split; [|discriminate].
    intros Hr. rewrite read_all_full in E; [discriminate|].
    intros p Hp. apply Hr. lia.
  - assert (Hr : readable f).
    { intros p Hp. apply (read_all_None_readable f 0 (fdata f) E). lia. }
    split; [|left; exact Hr]. split; [reflexivity|]. intros _. exact Hr.
Qed.

(** ** [sampleHash] and small sizes *)

(** A read that runs past the end of the file, over readable bytes,
    delivers what is left and reports the end of the file. *)
Lemma pread_short (f : File) n pos src :
  (length src < n)%nat ->
  (forall p, pos <= p < pos + Z.of_nat (length src) -> fbad f p = false) ->
  pread f n pos src = (src, Some EOF).
Proof.
  revert pos src. induction n as [|n IH]; intros pos src Hlen Hok; [lia|].
  destruct src as [|b rest]; [reflexivity|]. simpl.
  rewrite (Hok pos) by (simpl; lia).
  rewrite IH; [reflexivity|simpl in Hlen; lia|].
  intros p Hp. apply Hok. simpl. lia.
Qed.

Lemma window_err_short (f : File) off :
  0 <= off -> Z.of_nat (length (fdata f)) < off + 1024 -> readable f ->
  window_err f off = Some EOF.
Proof.
  intros H0 Hlen Hr. unfold window_err, ReadAt.
  destruct (off <? 0) eqn:Hneg; [apply Z.ltb_lt in Hneg; lia|].
  unfold make. rewrite length_replicate.
  rewrite pread_short; [reflexivity|rewrite length_drop; lia|].
  intros p Hp. rewrite length_drop in Hp. apply Hr. lia.
Qed.

Lemma window_err_negative (f : File) off :
  off < 0 ->
  window_err f off = Some (PathError "readat" (fname f) "negative offset").
Proof.
  intros H. unfold window_err, ReadAt.
  destruct (off <? 0) eqn:Hneg; [reflexivity|apply Z.ltb_ge in Hneg; lia].
Qed.

(** X2: on a file that holds its declared size and can be read,
    [sampleHash] succeeds exactly when the size is at least 2047: below
    that the second window (or already the first) runs past the end of
    the file. *)
Theorem sampleHash_minimum_size (f : File) (size : Z) :
  0 <= size < 2 ^ 63 ->
  Z.of_nat (length (fdata f)) = size ->
  readable f ->
  (2047 <= size ->
   sampleHash f size =
     Ok (preimage
           (XXH64.Sum64 (bytes_at f 0 ++ bytes_at f (Z.quot size 2)
                           ++ bytes_at f (size - 1024))) size))
  /\ (size < 2047 ->
      sampleHash f size = Err (errorString "Unexpected EOF!")).
Proof.
  intros Hrange Hlen Hr. rewrite (sampleHash_large f size Hrange).
  assert (Hq : 2 * Z.quot size 2 <= size < 2 * Z.quot size 2 + 2).
  { rewrite Z.quot_div_nonneg by lia.
    pose proof (Z.div_mod size 2). pose proof (Z.mod_pos_bound size 2). lia. }
  assert (Hwin : forall off, 0 <= off -> off + 1024 <= size ->
            window f off = bytes_at f off /\ window_err f off = None).
  { intros off H0 H1. apply window_full; [lia|lia|].
    intros p Hp. apply Hr. unfold in_window in Hp. lia. }
  split.
  - intros Hbig.
    destruct (Hwin 0) as [W0 E0]; [lia|lia|].
    destruct (Hwin (Z.quot size 2)) as [W1 E1]; [lia|lia|].
    destruct (Hwin (size - 1024)) as [W2 E2]; [lia|lia|].
    rewrite E0, E1, E2, W0, W1, W2. reflexivity.
  - intros Hsmall.
    destruct (Z_lt_le_dec size 1024) as [Hs|Hs].
    + rewrite (window_err_short f 0) by (assumption || lia). reflexivity.
    + destruct (Hwin 0) as [_ E0]; [lia|lia|].
      rewrite E0, (window_err_short f (Z.quot size 2)) by (assumption || lia).
      reflexivity.
Qed.

(** X3: with a threshold that lets a declared size below 1024 reach the
    sampled strategy, [SmartHash] never yields a fingerprint: the third
    offset is negative and [ReadAt] refuses it, unless the end of the
    file was met before. *)
Theorem SmartHash_size_below_window (f : File) (info : FileInfo) (thr : Z) :
  thr <= Size info ->
  0 <= Size info < 1024 ->
  SmartHash f info thr = Err (errorString "Unexpected EOF!")
  \/ SmartHash f info thr
     = Err (PathError "readat" (fname f) "negative offset").
Proof.
  intros Hthr Hsize.
  rewrite (SmartHash_above f info thr Hthr).
  rewrite sampleHash_large by lia.
  rewrite (window_err_negative f (Size info - 1024)) by lia.
  destruct (is_EOF (window_err f 0)); [left; reflexivity|].
  destruct (is_EOF (window_err f _)); [left; reflexivity|].
  right. reflexivity.
Qed.

(** ** Zero bytes and a short last window *)

Lemma pread_app_le (f : File) n pos (src extra : list byte) :
  (n <= length src)%nat ->
  pread f n pos (src ++ extra) = pread f n pos src.
Proof.
  revert pos src. induction n as [|n IH]; intros pos src Hlen; [reflexivity|].
  destruct src as [|b rest]; simpl in Hlen; [lia|]. simpl.
  destruct (fbad f pos); [reflexivity|]. rewrite IH by lia. reflexivity.
Qed.

(** Appending readable zero bytes to the source changes neither the
    buffer that a read leaves, once padded with zeros, nor the error,
    except that the end of the file may no longer be met. *)
Lemma pread_zero_tail (f : File) n pos (src : list byte) k :
  (forall p, pos + Z.of_nat (length src) <= p -> fbad f p = false) ->
  (pread f n pos src).1
    ++ replicate (n - length (pread f n pos src).1) x00
  = (pread f n pos (src ++ replicate k x00)).1
      ++ replicate
           (n - length (pread f n pos (src ++ replicate k x00)).1) x00
  /\ ((pread f n pos (src ++ replicate k x00)).2 = (pread f n pos src).2
      \/ ((pread f n pos src).2 = Some EOF
          /\ (pread f n pos (src ++ replicate k x00)).2 = None)).
Proof.
  revert pos src k. induction n as [|n IH]; intros pos src k Hok.
  - simpl. auto.
  - destruct src as [|b rest].
    + destruct k as [|k]; [simpl; auto|].
      cbn [app replicate pread]. rewrite (Hok pos) by (simpl; lia).
      specialize (IH (pos + 1) [] k).
      destruct IH as [Hbuf Herr].
      { intros p Hp. apply Hok. simpl in *. lia. }
      cbn [app] in Hbuf, Herr.
      destruct (pread f n (pos + 1) (replicate k x00)) as [got err].
      cbn [fst snd length] in *.
      assert (Hnil : pread f n (pos + 1) [] = ([], if n is O then None else Some EOF))
        by (destruct n; reflexivity).
      rewrite Hnil in Hbuf, Herr. cbn [fst snd length app] in *.
      rewrite Nat.sub_0_r in Hbuf. split.
      * simpl. f_equal. exact Hbuf.
      * destruct n; destruct Herr as [->|[? ->]]; auto; discriminate.
    + cbn [app pread]. destruct (fbad f pos); [simpl; auto|].
      specialize (IH (pos + 1) rest k).
      destruct IH as [Hbuf Herr].
      { intros p Hp. apply Hok. simpl. lia. }
      destruct (pread f n (pos + 1) rest) as [got err].
      destruct (pread f n (pos + 1) (rest ++ replicate k x00)) as [got' err'].
      cbn [fst snd length] in *. split; [|exact Herr].
      simpl. f_equal. exact Hbuf.
Qed.

Lemma drop_zero_tail (data : list byte) (o k : nat) :
  exists k', drop o (data ++ replicate k x00) = drop o data ++ replicate k' x00.
Proof.
  destruct (decide (o <= length data)%nat) as [Hle|Hgt].
  - exists k. now rewrite drop_app_le.
  - exists (k - (o - length data))%nat.
    rewrite drop_app_ge by lia. rewrite drop_replicate.
    rewrite (drop_ge data) by lia. reflexivity.
Qed.

(** X4: a file cut short inside its last window gets the fingerprint of
    the same file with zero bytes in place of what is missing: the
    sampled strategy hashes the zero-filled rest of the buffer. *)
Theorem SmartHash_zero_tail (f : File) (info : FileInfo) (k : nat) :
  threshold <= Size info -> Size info < 2 ^ 63 ->
  Z.quot (Size info) 2 + 1024 <= Z.of_nat (length (fdata f)) ->
  (forall p, Z.of_nat (length (fdata f)) <= p -> fbad f p = false) ->
  SmartHash (extend f k) info threshold = SmartHash f info threshold.
Proof.
  intros Hthr Hmax Hlen Hok. pose proof threshold_value as Hv.
  assert (Hrange : 0 <= Size info < 2 ^ 63) by lia.
  assert (Hq : 0 <= Z.quot (Size info) 2).
  { rewrite Z.quot_div_nonneg by lia. apply Z.div_pos; lia. }
  assert (Hin : forall off, 0 <= off ->
            off + 1024 <= Z.of_nat (length (fdata f)) ->
            ReadAt (extend f k) (make 1024) off = ReadAt f (make 1024) off).
  { intros off H0 H1. unfold ReadAt.
    destruct (off <? 0); [reflexivity|].
    rewrite (pread_ext (extend f k) f) by reflexivity.
    cbn [fdata extend]. unfold make. rewrite length_replicate.
    rewrite drop_app_le by lia.
    rewrite pread_app_le by (rewrite length_drop; lia). reflexivity. }
  assert (Hlast : window (extend f k) (Size info - 1024)
                  = window f (Size info - 1024)
                  /\ (window_err (extend f k) (Size info - 1024)
                      = window_err f (Size info - 1024)
                      \/ (window_err f (Size info - 1024) = Some EOF
                          /\ window_err (extend f k) (Size info - 1024)
                             = None))).
  { unfold window, window_err, ReadAt.
    destruct (Size info - 1024 <? 0) eqn:Hneg; [apply Z.ltb_lt in Hneg; lia|].
    rewrite (pread_ext (extend f k) f) by reflexivity.
    cbn [fdata extend]. unfold make. rewrite length_replicate.
    destruct (drop_zero_tail (fdata f) (Z.to_nat (Size info - 1024)) k)
      as [k' ->].
    destruct (pread_zero_tail f 1024 (Size info - 1024)
                (drop (Z.to_nat (Size info - 1024)) (fdata f)) k')
      as [Hbuf Herr].
    { intros p Hp. apply Hok. rewrite length_drop in Hp. lia. }
    destruct (pread f 1024 _ (drop _ (fdata f) ++ _)) as [got' err'].
    destruct (pread f 1024 _ (drop _ (fdata f))) as [got err].
    cbn [fst snd] in *. rewrite !drop_replicate. split; [now symmetry|].
    exact Herr. }
  destruct Hlast as [Hw2 He2].
  rewrite !(SmartHash_above _ _ _ Hthr), !(sampleHash_large _ _ Hrange).
  unfold window, window_err in *.
  rewrite (Hin 0) by lia. rewrite (Hin (Z.quot (Size info) 2)) by lia.
  rewrite Hw2.
  destruct He2 as [->|[-> ->]]; [reflexivity|].
  destruct (is_EOF (ReadAt f (make 1024) 0).2); [reflexivity|].
  destruct (is_EOF (ReadAt f (make 1024) (Z.quot (Size info) 2)).2);
    reflexivity.
Qed.

(** ** The pre-image *)

Lemma low_byte_uint64 (v k : Z) :
  0 <= k < 8 ->
  Z.land (Z.shiftr (uint64 v) (8 * k)) 255 = Z.land (Z.shiftr v (8 * k)) 255.
Proof.
  intros Hk. apply Z.bits_inj'. intros i Hi.
  rewrite !Z.land_spec, !Z.shiftr_spec by lia.
  change 255 with (Z.ones 8). rewrite Z.testbit_ones by lia.
  destruct (i <? 8) eqn:E.
  - apply Z.ltb_lt in E. unfold uint64, two64.
    rewrite Z.mod_pow2_bits_low by lia. reflexivity.
  - now rewrite !andb_false_r.
Qed.

Lemma PutUint64_uint64 (v : Z) : PutUint64 (uint64 v) = PutUint64 v.
Proof.
  unfold PutUint64. cbn [map].
  rewrite !low_byte_uint64 by lia. reflexivity.
Qed.

(** X6: the sixteen bytes that are hashed the second time determine the
    digest and the declared size, as 64-bit values, and are determined
    by them: two files share a pre-image only if their digests and
    their sizes agree. *)
Theorem preimage_injective (d1 s1 d2 s2 : Z) :
  preimage d1 s1 = preimage d2 s2
  <-> uint64 d1 = uint64 d2 /\ uint64 s1 = uint64 s2.
Proof.
  split.
  - intros H.
    destruct (preimage_layout d1 s1) as (_ & Hd1 & Hs1).
    destruct (preimage_layout d2 s2) as (_ & Hd2 & Hs2).
    rewrite H in Hd1, Hs1. split; congruence.
  - intros [Hd Hs]. unfold preimage.
    rewrite <- (PutUint64_uint64 d1), <- (PutUint64_uint64 d2), Hd, Hs.
    reflexivity.
Qed.

(** ** The hash column *)

Lemma hex_value_digit (d : Z) : 0 <= d < 16 -> hex_value (hex_digit d) = d.
Proof.
  intros H.
  assert (Hd : d = 0 \/ d = 1 \/ d = 2 \/ d = 3 \/ d = 4 \/ d = 5 \/ d = 6
               \/ d = 7 \/ d = 8 \/ d = 9 \/ d = 10 \/ d = 11 \/ d = 12
               \/ d = 13 \/ d = 14 \/ d = 15) by lia.
  repeat (destruct Hd as [->|Hd]; [reflexivity|]). subst d. reflexivity.
Qed.

Lemma parse_hex_digits (fuel : nat) (v : Z) (acc : string) :
  0 <= v < 16 ^ Z.of_nat fuel ->
  parse_hex_from 0 (hex_digits fuel v acc) = parse_hex_from v acc.
Proof.
  revert v acc. induction fuel as [|fuel IH]; intros v acc Hv.
  - change (16 ^ Z.of_nat 0) with 1 in Hv. assert (v = 0) by lia. now subst.
  - cbn [hex_digits].
    pose proof (Z.div_mod v 16). pose proof (Z.mod_pos_bound v 16).
    assert (Hdigit : parse_hex_from (v / 16)
                       (String (hex_digit (v mod 16)) acc)
                     = parse_hex_from v acc).
    { cbn [parse_hex_from]. rewrite hex_value_digit by lia. f_equal. lia. }
    destruct (v / 16 =? 0) eqn:E.
    + apply Z.eqb_eq in E. rewrite <- Hdigit, E. reflexivity.
    + rewrite IH; [exact Hdigit|].
      rewrite Nat2Z.inj_succ, Z.pow_succ_r in Hv by lia.
      split; [apply Z.div_pos; lia|].
      apply Z.div_lt_upper_bound; lia.
Qed.

Lemma parse_hex_Sprintf_x (v : Z) :
  0 <= v < 2 ^ 64 -> parse_hex (Sprintf_x v) = v.
Proof.
  intros Hv. unfold parse_hex, Sprintf_x.
  rewrite parse_hex_digits; [reflexivity|].
  change (16 ^ Z.of_nat 16) with (2 ^ 64). exact Hv.
Qed.

(** X7: the text stored in the hash column is a hexadecimal numeral of
    the fingerprint: reading it back gives the fingerprint, so two
    different 64-bit values never get the same text. *)
Theorem Sprintf_x_round_trip (v : Z) :
  0 <= v < 2 ^ 64 ->
  parse_hex (Sprintf_x v) = v
  /\ (forall w, 0 <= w < 2 ^ 64 -> Sprintf_x v = Sprintf_x w -> v = w).
Proof.
  intros Hv. split; [now apply parse_hex_Sprintf_x|].
  intros w Hw Heq.
  rewrite <- (parse_hex_Sprintf_x v Hv), <- (parse_hex_Sprintf_x w Hw).
  now rewrite Heq.
Qed.

Lemma SmartHash_range (f : File) (info : FileInfo) (thr fp : Z) :
  SmartHash f info thr = Ok fp -> 0 <= fp < 2 ^ 64.
Proof.
  unfold SmartHash.
  destruct (if Size info <? thr then _ else _) as [xxSum|e]; [|discriminate].
  intros [= <-]. apply Sum64_range.
Qed.

(** X8: every fingerprint is a 64-bit value, and files with different
    fingerprints get different texts in the hash column. *)
Theorem fingerprints_keep_apart (f g : File) (info info' : FileInfo)
    (thr thr' fp fp' : Z) :
  SmartHash f info thr = Ok fp ->
  SmartHash g info' thr' = Ok fp' ->
  0 <= fp < 2 ^ 64
  /\ (Sprintf_x fp = Sprintf_x fp' <-> fp = fp').
Proof.
  intros Hf Hg.
  apply SmartHash_range in Hf. apply SmartHash_range in Hg.
  split; [exact Hf|]. split; [|now intros ->].
  intros Heq.
  rewrite <- (parse_hex_Sprintf_x fp Hf), <- (parse_hex_Sprintf_x fp' Hg).
  now rewrite Heq.
Qed.

(** * More about the catalog *)

Lemma index_of_lookup (r : string) (rs : list string) (i j : Z) :
  index_of r rs i = Some j ->
  i <= j < i + Z.of_nat (length rs) /\ rs !! Z.to_nat (j - i) = Some r.
Proof.
  revert i. induction rs as [|r' rest IH]; intros i; simpl; [discriminate|].
  destruct (String.eqb r r') eqn:E.
  - intros [= <-]. apply String.eqb_eq in E. subst r'.
    rewrite Z.sub_diag. split; [lia|reflexivity].
  - intros H. apply IH in H as [Hr Hl]. split; [lia|].
    replace (Z.to_nat (j - i)) with (S (Z.to_nat (j - (i + 1)))) by lia.
    exact Hl.
Qed.

Lemma index_of_None (r : string) (rs : list string) (i : Z) :
  index_of r rs i = None -> r ∉ rs.
Proof.
  revert i. induction rs as [|r' rest IH]; intros i; simpl.
  - intros _. apply not_elem_of_nil.
  - destruct (String.eqb r r') eqn:E; [discriminate|].
    apply String.eqb_neq in E. intros H. apply not_elem_of_cons.
    split; [exact E|]. eapply IH, H.
Qed.

Lemma index_of_app_Some (r : string) (rs more : list string) (i j : Z) :
  index_of r rs i = Some j -> index_of r (rs ++ more) i = Some j.
Proof.
  revert i. induction rs as [|r' rest IH]; intros i; simpl; [discriminate|].
  destruct (String.eqb r r'); [trivial|]. apply IH.
Qed.

Lemma index_of_app_None (r : string) (rs : list string) (i : Z) :
  index_of r rs i = None ->
  index_of r (rs ++ [r]) i = Some (i + Z.of_nat (length rs)).
Proof.
  revert i. induction rs as [|r' rest IH]; intros i; simpl.
  - intros _. rewrite String.eqb_refl. f_equal. lia.
  - destruct (String.eqb r r'); [discriminate|].
    intros H. rewrite IH by exact H. f_equal. lia.
Qed.

(** [EnsureRootId] by cases. *)
Lemma EnsureRootId_cases (d : DB) (r : string) :
  (exists e, EnsureRootId d r = (d, Err e))
  \/ (exists rootId,
        index_of r (roots d) 1 = Some rootId
        /\ db_fault d (SelectRoot r) = None
        /\ EnsureRootId d r = (d, Ok rootId))
  \/ (index_of r (roots d) 1 = None
      /\ db_fault d (SelectRoot r) = None
      /\ EnsureRootId d r
         = (mkDB (roots d ++ [r]) (files d) (db_fault d),
            Ok (Z.of_nat (length (roots d)) + 1))).
Proof.
  unfold EnsureRootId.
  destruct (db_fault d (SelectRoot r)) as [e|]; [left; eauto|].
  destruct (index_of r (roots d) 1) as [rootId|]; [right; left; eauto|].
  destruct (db_fault d (InsertRoot r)) as [e|]; [left; eauto|].
  right. right. auto.
Qed.

(** X9: [EnsureRootId] is a get-or-insert.  The identifier it returns is
    where the root sits in the table afterwards; asking again returns
    the same identifier and changes nothing; the identifiers of the
    roots already there stay what they were; the files are not
    touched. *)
Theorem EnsureRootId_get_or_insert (d d' : DB) (r : string) (rootId : Z) :
  EnsureRootId d r = (d', Ok rootId) ->
  index_of r (roots d') 1 = Some rootId
  /\ roots d' !! Z.to_nat (rootId - 1) = Some r
  /\ EnsureRootId d' r = (d', Ok rootId)
  /\ (forall r2 i, index_of r2 (roots d) 1 = Some i ->
                   index_of r2 (roots d') 1 = Some i)
  /\ files d' = files d.
Proof.
  intros H.
  assert (Hidx : index_of r (roots d') 1 = Some rootId
                 /\ db_fault d' (SelectRoot r) = None
                 /\ (forall r2 i, index_of r2 (roots d) 1 = Some i ->
                                  index_of r2 (roots d') 1 = Some i)
                 /\ files d' = files d).
  { destruct (EnsureRootId_cases d r)
      as [[e He]|[(id & Hi & Hs & He)|(Hi & Hs & He)]];
      rewrite He in H; [discriminate| |]; injection H as <- <-.
    - auto.
    - cbn [roots files db_fault]. split; [|split; [exact Hs|split]].
      + rewrite index_of_app_None by exact Hi. f_equal. lia.
      + intros r2 i. apply index_of_app_Some.
      + reflexivity. }
  destruct Hidx as (Hi & Hs & Hold & Hfiles).
  split; [exact Hi|]. split; [apply (index_of_lookup _ _ _ _ Hi)|].
  split; [|split; assumption].
  unfold EnsureRootId. rewrite Hs, Hi. reflexivity.
Qed.

(** X10: [EnsureRootId] keeps the roots of the table distinct, it leaves
    the database alone when it fails, and in the table it leaves no two
    roots have the same identifier. *)
Theorem EnsureRootId_keeps_roots_apart (d : DB) (r : string) :
  NoDup (roots d) ->
  NoDup (roots (EnsureRootId d r).1)
  /\ (forall e, (EnsureRootId d r).2 = Err e -> (EnsureRootId d r).1 = d)
  /\ (forall r1 r2 i,
        index_of r1 (roots (EnsureRootId d r).1) 1 = Some i ->
        index_of r2 (roots (EnsureRootId d r).1) 1 = Some i -> r1 = r2).
Proof.
  intros Hnd. split; [|split].
  - destruct (EnsureRootId_cases d r)
      as [[e He]|[(id & Hi & Hs & He)|(Hi & Hs & He)]];
      rewrite He; cbn [fst roots]; try exact Hnd.
    apply NoDup_app. split; [exact Hnd|]. split; [|apply NoDup_singleton].
    intros x Hx Hx'. apply list_elem_of_singleton in Hx'. subst x.
    exact (index_of_None _ _ _ Hi Hx).
  - intros e.
    destruct (EnsureRootId_cases d r)
      as [[e' He]|[(id & Hi & Hs & He)|(Hi & Hs & He)]];
      rewrite He; cbn [fst snd]; [reflexivity|discriminate|discriminate].
  - intros r1 r2 i H1 H2.
    apply index_of_lookup in H1 as [_ H1].
    apply index_of_lookup in H2 as [_ H2]. congruence.
Qed.

(** X11: [CatalogHash] only appends.  For an absolute path, which the
    table keeps as the text it is given: when [CatalogHash] succeeds
    the table of files is the old one followed by the new row, the
    identifier it returns is the position of that row, and nothing
    forbids a row equal to one already there; when it fails the
    database is as it was.  The roots are never touched. *)
Theorem CatalogHash_appends (d : DB) (rootId hash : Z) (p : string)
    (mtime : Z) :
  absolute p = true ->
  (forall id,
     (CatalogHash d rootId hash p mtime).2 = Ok id ->
     files (CatalogHash d rootId hash p mtime).1
     = files d ++ [row_of rootId hash p mtime]
     /\ id = Z.of_nat (length (files d)) + 1
     /\ files (CatalogHash d rootId hash p mtime).1 !! Z.to_nat (id - 1)
        = Some (row_of rootId hash p mtime)
     /\ files (CatalogHash (CatalogHash d rootId hash p mtime).1
                 rootId hash p mtime).1
        = files d ++ [row_of rootId hash p mtime; row_of rootId hash p mtime])
  /\ (forall e,
        (CatalogHash d rootId hash p mtime).2 = Err e ->
        (CatalogHash d rootId hash p mtime).1 = d)
  /\ roots (CatalogHash d rootId hash p mtime).1 = roots d
  /\ (forall i row, files d !! i = Some row ->
        files (CatalogHash d rootId hash p mtime).1 !! i = Some row).
Proof.
  intros _. unfold CatalogHash, row_of.
  destruct (db_fault d (InsertFile _)) as [e|] eqn:E; cbn [fst snd files roots].
  - split; [discriminate|]. repeat split; auto.
  - split; [|split; [discriminate|split; [reflexivity|]]].
    + intros id [= <-]. split; [reflexivity|]. split; [reflexivity|].
      split.
      * replace (Z.to_nat (Z.of_nat (length (files d)) + 1 - 1))
          with (length (files d) + 0)%nat by lia.
        rewrite lookup_app_r by lia.
        replace (length (files d) + 0 - length (files d))%nat with 0%nat by lia.
        reflexivity.
      * cbn [db_fault]. rewrite E. cbn [fst files].
        now rewrite <- app_assoc.
    + intros i row Hi. now apply lookup_app_l_Some.
Qed.

(** * More about the path filter *)

Lemma Match_app (e1 e2 : RegexFlag) (s : string) :
  Match (e1 ++ e2) s = Match e1 s || Match e2 s.
Proof.
  induction e1 as [|re rest IH]; simpl; [reflexivity|].
  destruct (MatchString re s); [reflexivity|exact IH].
Qed.

(** X12: [Set] adds one pattern at the end of the flag, or fails and
    leaves the flag as it was.  After a successful [Set] the flag
    matches what it matched before and what the new pattern matches,
    nothing else. *)
Theorem RegexFlag_Set_Match (regexp_Compile : string -> result Regexp)
    (e : RegexFlag) (value : string) :
  match regexp_Compile value with
  | Ok re =>
      RegexFlag_Set regexp_Compile e value = (e ++ [re], None)
      /\ forall s,
           Match (RegexFlag_Set regexp_Compile e value).1 s
           = Match e s || MatchString re s
  | Err err => RegexFlag_Set regexp_Compile e value = (e, Some err)
  end.
Proof.
  unfold RegexFlag_Set. destruct (regexp_Compile value) as [re|err].
  - split; [reflexivity|]. intros s. cbn [fst]. rewrite Match_app.
    simpl. now destruct (MatchString re s).
  - reflexivity.
Qed.

(** * More about the walk *)

Section WalkAudit.

Variable path_Join : string -> string -> string.
Variable path_Dir : string -> string.
Variable os : OS.
Variable Opts : Options.

Local Abbreviation path_of := (path_of path_Join).
Local Abbreviation HashAndCatalog := (HashAndCatalog path_Join os).
Local Abbreviation enqueue := (enqueue path_Join Opts).
Local Abbreviation step := (step path_Join os Opts).
Local Abbreviation loop := (loop path_Join os Opts).
Local Abbreviation Run := (Run path_Join path_Dir os Opts).
Local Abbreviation qualifies := (qualifies path_Join Opts).
Local Abbreviation lineage := (lineage path_Join os Opts).
Local Abbreviation seed_of := (seed_of path_Dir Opts).
Local Abbreviation keep := (keep path_Join Opts).
Local Abbreviation walk_size := (walk_size path_Join os Opts).
Local Abbreviation audited_event := (audited_event path_Join os Opts).
Local Abbreviation audited_row := (audited_row path_Join os Opts).
Local Abbreviation audited := (audited path_Join os Opts).

(** ** Errors before and at the opening *)

Lemma EnsureRootId_get_or_insert_aux (d d' : DB) (r : string) (rootId : Z) :
  EnsureRootId d r = (d', Ok rootId) ->
  index_of r (roots d') 1 = Some rootId /\ files d' = files d.
Proof.
  intros H.
  destruct (EnsureRootId_cases d r)
    as [[e He]|[(id & Hi & Hs & He)|(Hi & Hs & He)]];
    rewrite He in H; [discriminate| |]; injection H as <- <-.
  - auto.
  - cbn [roots files]. split; [|reflexivity].
    rewrite index_of_app_None by exact Hi. f_equal. lia.
Qed.

Lemma EnsureRootId_error (d : DB) (r : string) (e : error) :
  (EnsureRootId d r).2 = Err e -> (EnsureRootId d r).1 = d.
Proof.
  destruct (EnsureRootId_cases d r)
    as [[e' He]|[(id & Hi & Hs & He)|(Hi & Hs & He)]];
    rewrite He; cbn [fst snd]; [reflexivity|discriminate|discriminate].
Qed.

(** X13: the root is validated before anything else.  When it cannot be
    examined, when it is not a directory, or when its identifier cannot
    be had, [Run] returns the error at once: nothing was listed or
    opened and the database is as it was. *)
Theorem Run_root_validation (fuel : nat) (s : State) :
  (forall e, os_Stat os (root Opts) = Err e ->
             Run fuel s = (s, Returned (Some e)))
  /\ (forall rootInfo,
        os_Stat os (root Opts) = Ok rootInfo -> IsDir rootInfo = false ->
        Run fuel s
        = (s, Returned (Some (errorString
               ("Root (" +:+ root Opts +:+ ") is not a directory.")))))
  /\ (forall rootInfo e,
        os_Stat os (root Opts) = Ok rootInfo -> IsDir rootInfo = true ->
        (EnsureRootId (db s) (root Opts)).2 = Err e ->
        Run fuel s = (s, Returned (Some e))).
Proof.
  split; [|split].
  - intros e H. unfold Run. now rewrite H.
  - intros rootInfo H Hd. unfold Run. now rewrite H, Hd.
  - intros rootInfo e H Hd He. unfold Run. rewrite H, Hd. cbn [negb].
    pose proof (EnsureRootId_error _ _ _ He) as Hdb.
    destruct (EnsureRootId (db s) (root Opts)) as [d r].
    cbn [fst snd] in *. subst. destruct s. reflexivity.
Qed.

(** X14: of the errors at opening, only "permission denied" on a file is
    passed over.  [HashAndCatalog] returns nil on a failed open exactly
    when the error is a path error with that message, and never touches
    the database then; a directory that cannot be opened, for whatever
    reason, ends the walk with the error. *)
Theorem open_errors (rootId : Z) (cur : WalkerContext)
    (fileQ : list WalkerContext) (s : State) (e : error) :
  os_Open os (path_of cur) = Err e ->
  ((HashAndCatalog rootId cur s).2 = None
   <-> exists op p, e = PathError op p "permission denied")
  /\ db (HashAndCatalog rootId cur s).1 = db s
  /\ (IsDir (Info cur) = true ->
      forall fuel,
        loop (S fuel) rootId (cur :: fileQ) s
        = (emit (EvOpenDir (path_of cur)) s, Returned (Some e))).
Proof.
  intros Ho. split; [|split].
  - unfold HashAndCatalog. unfold path_of in Ho. rewrite Ho.
    destruct e as [|op p msg|msg]; cbn [snd].
    + split; [discriminate|]. intros (op & p & H). discriminate.
    + destruct (String.eqb msg "permission denied") eqn:E; cbn [snd].
      * apply String.eqb_eq in E. subst msg. split; eauto.
      * apply String.eqb_neq in E. split; [discriminate|].
        intros (op' & p' & H). congruence.
    + split; [discriminate|]. intros (op & p & H). discriminate.
  - unfold HashAndCatalog. unfold path_of in Ho. rewrite Ho.
    destruct e as [|op p msg|msg]; try reflexivity.
    destruct (String.eqb msg "permission denied"); reflexivity.
  - intros Hd fuel. cbn [loop]. unfold step. unfold path_of in Ho.
    rewrite Hd, Ho. reflexivity.
Qed.

(** ** What the walk opens and records *)

Lemma audited_refl seed rootId s : audited seed rootId s s [] [].
Proof.
  unfold audited. rewrite !app_nil_r. repeat split; constructor.
Qed.

Lemma audited_trans seed rootId s1 s2 s3 tr1 rows1 tr2 rows2 :
  audited seed rootId s1 s2 tr1 rows1 ->
  audited seed rootId s2 s3 tr2 rows2 ->
  audited seed rootId s1 s3 (tr1 ++ tr2) (rows1 ++ rows2).
Proof.
  intros (Ht1 & Hf1 & Hr1 & Hd1 & He1 & Hw1) (Ht2 & Hf2 & Hr2 & Hd2 & He2 & Hw2).
  unfold audited. rewrite Ht2, Ht1, Hf2, Hf1, Hr2, Hr1, Hd2, Hd1, !app_assoc.
  repeat split; apply Forall_app; split; assumption.
Qed.

Lemma audited_emit seed rootId s ev :
  audited_event seed ev -> audited seed rootId s (emit ev s) [ev] [].
Proof.
  intros He. unfold audited, emit. cbn [trace db].
  rewrite app_nil_r. repeat split; repeat constructor. exact He.
Qed.

Lemma HashAndCatalog_audited seed rootId x anc s :
  lineage seed anc x -> qualifies x = true ->
  exists tr rows, audited seed rootId s (HashAndCatalog rootId x s).1 tr rows.
Proof.
  intros Hl Hq.
  assert (Ho : forall s0, audited seed rootId s0
                 (emit (EvOpenFile (path_of x)) s0)
                 [EvOpenFile (path_of x)] []).
  { intros s0. apply audited_emit. exists x, anc. auto. }
  unfold HashAndCatalog. fold (path_of x).
  destruct (os_Open os (path_of x)) as [file|err] eqn:Hopen.
  - assert (Hh : forall s0, audited seed rootId s0
                   (emit (EvSmartHash (path_of x)) s0)
                   [EvSmartHash (path_of x)] []).
    { intros s0. apply audited_emit. exists x, anc. eauto 6. }
    pose proof (audited_trans _ _ _ _ _ _ _ _ _ (Ho s) (Hh _)) as H2.
    destruct (SmartHash file (Info x) threshold) as [fp|e] eqn:Hfp;
      [|cbn [fst]; eauto].
    unfold CatalogHash. cbn [db emit].
    destruct (db_fault (db s) _) as [e|]; cbn [fst].
    + do 2 eexists.
      destruct H2 as (Ht & Hf & Hr & Hd & He & Hw).
      repeat split; cbn [trace db emit] in *; eauto.
    + exists ([EvOpenFile (path_of x)] ++ [EvSmartHash (path_of x)]),
        [row_of rootId fp (path_of x) (ModTime (Info x))].
      destruct H2 as (Ht & Hf & Hr & Hd & He & Hw).
      repeat split; cbn [trace db emit files roots db_fault] in *; auto.
      repeat constructor. exists x, anc, file, fp. auto.
  - destruct err as [|op p msg|msg]; cbn [fst]; eauto.
    destruct (String.eqb msg "permission denied"); cbn [fst]; eauto.
Qed.

Lemma qualifies_step rootId cur fileQ s :
  IsDir (Info cur) = false ->
  (qualifies cur = true
   /\ step rootId (cur :: fileQ) s =
      match HashAndCatalog rootId cur s with
      | (s', Some err) => Return s' (Some err)
      | (s', None) => Continue fileQ s'
      end)
  \/ (qualifies cur = false /\ step rootId (cur :: fileQ) s = Continue fileQ s).
Proof.
  intros Hd. destruct (qualifies cur) eqn:Hq.
  - left. split; [reflexivity|].
    now apply (step_qualifying path_Join os Opts).
  - right. split; [reflexivity|].
    now apply (step_not_qualifying path_Join os Opts).
Qed.

Lemma step_audited seed rootId fileQ s :
  Forall (fun x => exists anc, lineage seed anc x) fileQ ->
  match step rootId fileQ s with
  | Continue fileQ' s' =>
      (exists tr rows, audited seed rootId s s' tr rows)
      /\ Forall (fun x => exists anc, lineage seed anc x) fileQ'
  | Return s' _ => exists tr rows, audited seed rootId s s' tr rows
  end.
Proof.
  intros Hq. destruct fileQ as [|cur fileQ].
  { cbn [step]. do 2 eexists. apply audited_refl. }
  apply Forall_cons in Hq as [[anc Hl] Hq].
  destruct (IsDir (Info cur)) eqn:Hd.
  - unfold step. fold (path_of cur). rewrite Hd.
    assert (He : audited seed rootId s (emit (EvOpenDir (path_of cur)) s)
                   [EvOpenDir (path_of cur)] []).
    { apply audited_emit. exists cur, anc. auto. }
    destruct (os_Open os (path_of cur)) as [dir|err] eqn:Ho; [|eauto].
    destruct (Readdir dir) as [infos|err] eqn:Hr; [|eauto].
    split; [eauto|].
    eapply (Forall_lineage_enqueue path_Join os Opts); eauto.
  - destruct (qualifies_step rootId cur fileQ s Hd) as [[Hqu ->]|[Hqu ->]].
    + destruct (HashAndCatalog_audited seed rootId cur anc s Hl Hqu)
        as (tr & rows & Hacc).
      destruct (HashAndCatalog rootId cur s) as [s' [err|]]; cbn [fst] in Hacc.
      * eauto.
      * split; [eauto|exact Hq].
    + split; [|exact Hq]. do 2 eexists. apply audited_refl.
Qed.

Lemma loop_audited seed rootId fuel fileQ s :
  Forall (fun x => exists anc, lineage seed anc x) fileQ ->
  exists tr rows, audited seed rootId s (loop fuel rootId fileQ s).1 tr rows.
Proof.
  revert fileQ s. induction fuel as [|fuel IH]; intros fileQ s Hq.
  - cbn [loop fst]. do 2 eexists. apply audited_refl.
  - cbn [loop].
    pose proof (step_audited seed rootId fileQ s Hq) as Hs.
    destruct (step rootId fileQ s) as [fileQ' s'|s' err].
    + destruct Hs as [(tr1 & rows1 & H1) Hq'].
      destruct (IH fileQ' s' Hq') as (tr2 & rows2 & H2).
      do 2 eexists. eapply audited_trans; eassumption.
    + exact Hs.
Qed.

(** [Run] is its loop from the seed, or returns at once with the state
    it was given. *)
Lemma Run_enters_loop fuel s :
  (Run fuel s).1 = s
  \/ exists rootInfo d rootId,
       os_Stat os (root Opts) = Ok rootInfo
       /\ IsDir rootInfo = true
       /\ EnsureRootId (db s) (root Opts) = (d, Ok rootId)
       /\ Run fuel s
          = loop fuel rootId [seed_of rootInfo] (mkState d (trace s)).
Proof.
  unfold Run.
  destruct (os_Stat os (root Opts)) as [rootInfo|err]; [|left; reflexivity].
  destruct (IsDir rootInfo) eqn:Hd; cbn [negb]; [|left; reflexivity].
  pose proof (EnsureRootId_error (db s) (root Opts)) as Herr.
  destruct (EnsureRootId (db s) (root Opts)) as [d [rootId|err]].
  - right. exists rootInfo, d, rootId. auto.
  - left. cbn [fst snd] in *. rewrite (Herr err eq_refl).
    destruct s. reflexivity.
Qed.

Lemma Run_audited fuel s rootInfo :
  os_Stat os (root Opts) = Ok rootInfo ->
  (Run fuel s).1 = s
  \/ exists d rootId tr rows,
       EnsureRootId (db s) (root Opts) = (d, Ok rootId)
       /\ audited (seed_of rootInfo) rootId (mkState d (trace s))
            (Run fuel s).1 tr rows.
Proof.
  intros Hstat.
  destruct (Run_enters_loop fuel s)
    as [H|(ri & d & rootId & Hs & Hd & He & Hrun)]; [left; exact H|].
  rewrite Hstat in Hs. injection Hs as <-. right.
  destruct (loop_audited (seed_of rootInfo) rootId fuel [seed_of rootInfo]
              (mkState d (trace s))) as (tr & rows & Ha).
  { constructor; [|constructor]. exists []. constructor. }
  exists d, rootId, tr, rows. rewrite Hrun. auto.
Qed.

(** X15: the walk opens as files, and hands to [SmartHash], only regular
    files that are not directories, that it reached from the root, and
    that pass the inclusion patterns when there are any. *)
Theorem Run_opens_only_qualifying (fuel : nat) (s : State)
    (rootInfo : FileInfo) :
  os_Stat os (root Opts) = Ok rootInfo ->
  exists tr,
    trace (Run fuel s).1 = trace s ++ tr
    /\ forall p,
         In (EvOpenFile p) tr \/ In (EvSmartHash p) tr ->
         exists x anc,
           lineage (seed_of rootInfo) anc x
           /\ p = path_of x
           /\ IsDir (Info x) = false
           /\ IsRegular (Mode (Info x)) = true
           /\ (includes Opts = [] \/ Match (includes Opts) p = true).
Proof.
  intros Hstat.
  destruct (Run_audited fuel s rootInfo Hstat)
    as [->|(d & rootId & tr & rows & _ & Ht & _ & _ & _ & Hev & _)].
  { exists []. rewrite app_nil_r. split; [reflexivity|]. intros p [[]|[]]. }
  exists tr. split; [exact Ht|].
  assert (Hqual : forall x, qualifies x = true ->
            IsDir (Info x) = false /\ IsRegular (Mode (Info x)) = true
            /\ (includes Opts = [] \/ Match (includes Opts) (path_of x) = true)).
  { intros x Hq. unfold qualifies in Hq.
    apply andb_prop in Hq as [Hq Hi]. apply andb_prop in Hq as [Hd Hr].
    apply negb_true_iff in Hd. split; [exact Hd|]. split; [exact Hr|].
    apply orb_prop in Hi as [Hi|Hi]; [left|right; exact Hi].
    destruct (includes Opts); [reflexivity|discriminate]. }
  rewrite List.Forall_forall in Hev.
  intros p [Hin|Hin]; destruct (Hev _ Hin) as (x & anc & Hl & Hx).
  - destruct Hx as [Hq ->]. exists x, anc.
    destruct (Hqual x Hq) as (? & ? & ?). auto.
  - destruct Hx as (Hq & -> & _). exists x, anc.
    destruct (Hqual x Hq) as (? & ? & ?). auto.
Qed.

(** X16: every row the walk adds is the record of a fingerprint it
    computed: for a qualifying file reached from the root, it holds the
    identifier of the root, the fingerprint of the file as opened at
    its path, in hexadecimal, the path, and the modification time
    listed for the file.  The rows that were there stay in front. *)
Theorem Run_records_fingerprints (fuel : nat) (s : State)
    (rootInfo : FileInfo) :
  os_Stat os (root Opts) = Ok rootInfo ->
  exists rows,
    files (db (Run fuel s).1) = files (db s) ++ rows
    /\ forall row,
         In row rows ->
         exists x anc file fp rootId,
           lineage (seed_of rootInfo) anc x
           /\ index_of (root Opts) (roots (db (Run fuel s).1)) 1
              = Some rootId
           /\ os_Open os (path_of x) = Ok file
           /\ SmartHash file (Info x) threshold = Ok fp
           /\ row = mkFileRow rootId (Sprintf_x fp) (path_of x)
                      (ModTime (Info x)).
Proof.
  intros Hstat.
  destruct (Run_audited fuel s rootInfo Hstat)
    as [->|(d & rootId & tr & rows & He & _ & Hf & Hr & _ & _ & Hrows)].
  { exists []. rewrite app_nil_r. split; [reflexivity|]. intros row []. }
  cbn [db files roots] in Hf, Hr.
  destruct (EnsureRootId_get_or_insert_aux (db s) d (root Opts) rootId He)
    as [Hidx Hfiles].
  exists rows. split; [now rewrite Hf, Hfiles|].
  rewrite List.Forall_forall in Hrows.
  intros row Hin.
  destruct (Hrows _ Hin) as (x & anc & file & fp & Hl & _ & Ho & Hh & ->).
  exists x, anc, file, fp, rootId. rewrite Hr. auto.
Qed.

(** X17: the walk changes the table of roots at most by adding its root
    at the end, and not at all when the root is already there. *)
Theorem Run_roots_table (fuel : nat) (s : State) :
  (roots (db (Run fuel s).1) = roots (db s)
   \/ roots (db (Run fuel s).1) = roots (db s) ++ [root Opts])
  /\ (In (root Opts) (roots (db s)) ->
      roots (db (Run fuel s).1) = roots (db s)).
Proof.
  destruct (Run_enters_loop fuel s)
    as [->|(rootInfo & d & rootId & Hs & Hd & He & Hrun)]; [auto|].
  destruct (loop_audited (seed_of rootInfo) rootId fuel [seed_of rootInfo]
              (mkState d (trace s))) as (tr & rows & _ & _ & Hr & _).
  { constructor; [|constructor]. exists []. constructor. }
  rewrite Hrun, Hr. cbn [db roots].
  destruct (EnsureRootId_cases (db s) (root Opts))
    as [[e H]|[(id & Hi & _ & H)|(Hi & _ & H)]];
    rewrite H in He; [discriminate| |]; injection He as <- <-.
  - auto.
  - cbn [roots]. split; [right; reflexivity|].
    intros Hin. apply index_of_None in Hi.
    apply list_elem_of_In in Hin. contradiction.
Qed.

End WalkAudit.

Section WalkEnds.

Variable path_Join : string -> string -> string.
Variable path_Dir : string -> string.
Variable os : OS.
Variable Opts : Options.

Local Abbreviation path_of := (path_of path_Join).
Local Abbreviation HashAndCatalog := (HashAndCatalog path_Join os).
Local Abbreviation enqueue := (enqueue path_Join Opts).
Local Abbreviation step := (step path_Join os Opts).
Local Abbreviation loop := (loop path_Join os Opts).
Local Abbreviation Run := (Run path_Join path_Dir os Opts).
Local Abbreviation qualifies := (qualifies path_Join Opts).
Local Abbreviation lineage := (lineage path_Join os Opts).
Local Abbreviation seed_of := (seed_of path_Dir Opts).
Local Abbreviation keep := (keep path_Join Opts).
Local Abbreviation walk_size := (walk_size path_Join os Opts).
Local Abbreviation visited := (visited path_Join os Opts).
Local Abbreviation lineage_seed := (lineage_seed path_Join os Opts).
Local Abbreviation covered := (covered path_Join os Opts).

(** ** The walk comes to an end *)

Lemma step_file_shrinks rootId cur fileQ s :
  IsDir (Info cur) = false ->
  (exists s', step rootId (cur :: fileQ) s = Continue fileQ s')
  \/ (exists s' err, step rootId (cur :: fileQ) s = Return s' err).
Proof.
  intros Hd.
  destruct (qualifies_step path_Join os Opts rootId cur fileQ s Hd)
    as [[_ ->]|[_ ->]]; [|eauto].
  destruct (HashAndCatalog rootId cur s) as [s' [err|]]; eauto.
Qed.

Lemma loop_returns rootId fuel fileQ ns s :
  Forall2 walk_size fileQ ns ->
  (list_sum ns < fuel)%nat ->
  exists err, (loop fuel rootId fileQ s).2 = Returned err.
Proof.
  revert fileQ ns s. induction fuel as [|fuel IH]; intros fileQ ns s Hsz Hlt;
    [lia|].
  destruct Hsz as [|cur n fileQ ns Hcur Hrest].
  { cbn [loop step snd]. eauto. }
  change (list_sum (n :: ns)) with (n + list_sum ns)%nat in Hlt.
  assert (Hstop : forall s' err,
            step rootId (cur :: fileQ) s = Return s' err ->
            exists err, (loop (S fuel) rootId (cur :: fileQ) s).2
                        = Returned err).
  { intros s' err H. rewrite (loop_step_return path_Join os Opts _ _ _ _ _ _ H).
    eauto. }
  inversion Hcur as [x Hd|x e Hd Ho|x dir e Hd Ho Hr|x dir infos ms Hd Ho Hr Hkids];
    subst.
  - destruct (step_file_shrinks rootId cur fileQ s Hd)
      as [[s' Hs]|(s' & err & Hs)]; [|eauto].
    rewrite (loop_step_continue path_Join os Opts _ _ _ _ _ _ Hs).
    apply (IH fileQ ns); [exact Hrest|lia].
  - apply (Hstop (emit (EvOpenDir (path_of cur)) s) (Some e)).
    unfold step. fold (path_of cur). now rewrite Hd, Ho.
  - apply (Hstop (emit (EvOpenDir (path_of cur)) s) (Some e)).
    unfold step. fold (path_of cur). now rewrite Hd, Ho, Hr.
  - rewrite (loop_step_continue path_Join os Opts _ _ _ _ _ _
               (step_directory path_Join os Opts rootId cur fileQ s dir infos
                  Hd Ho Hr)).
    apply (IH _ (ns ++ ms)).
    + apply Forall2_app; assumption.
    + rewrite list_sum_app. lia.
Qed.

(** X18: on a tree that is finite the walk comes to an end: when the root
    and what lies below it need [n] passes, [Run] returns within [n+1]
    passes, with or without an error. *)
Theorem Run_returns (fuel n : nat) (s : State) (rootInfo : FileInfo) :
  os_Stat os (root Opts) = Ok rootInfo ->
  walk_size (seed_of rootInfo) n ->
  (n < fuel)%nat ->
  exists err, (Run fuel s).2 = Returned err.
Proof.
  intros Hstat Hsz Hlt. unfold Run. rewrite Hstat.
  destruct (negb (IsDir rootInfo)); [cbn [snd]; eauto|].
  destruct (EnsureRootId (db s) (root Opts)) as [d [rootId|err]];
    [|cbn [snd]; eauto].
  apply (loop_returns rootId fuel _ [n]).
  - constructor; [exact Hsz|constructor].
  - change (list_sum [n]) with (n + 0)%nat. lia.
Qed.

(** ** Nothing is left out *)

(** An item below [a] is [a] itself or lies below one of the kept
    entries of [a]. *)
Lemma lineage_top a anc x :
  lineage a anc x ->
  x = a
  \/ exists dir infos info anc',
       IsDir (Info a) = true
       /\ os_Open os (path_of a) = Ok dir
       /\ Readdir dir = Ok infos
       /\ In info infos
       /\ keep (path_of a) info = true
       /\ lineage (mkWalkerContext info (path_of a)) anc' x.
Proof.
  induction 1 as [|parent anc dir infos info Hp IH Hd Ho Hr Hin Hm];
    [left; reflexivity|].
  right. destruct IH as [->|(dir' & infos' & info' & anc' & H1 & H2 & H3 & H4 & H5 & H6)].
  - exists dir, infos, info, []. repeat split; try assumption.
    + unfold keep. now rewrite Hm.
    + constructor.
  - exists dir', infos', info', (path_of parent :: anc').
    repeat split; try assumption.
    eapply lineage_child; eassumption.
Qed.

Lemma grows_refl s : grows s s.
Proof. exists [], []. now rewrite !app_nil_r. Qed.

Lemma grows_emit ev s : grows s (emit ev s).
Proof. exists [ev], []. cbn [emit trace db]. now rewrite app_nil_r. Qed.

Lemma grows_trans s1 s2 s3 : grows s1 s2 -> grows s2 s3 -> grows s1 s3.
Proof.
  intros (tr1 & rows1 & Ht1 & Hf1 & Hd1) (tr2 & rows2 & Ht2 & Hf2 & Hd2).
  exists (tr1 ++ tr2), (rows1 ++ rows2).
  rewrite Ht2, Ht1, Hf2, Hf1, Hd2, Hd1, !app_assoc. auto.
Qed.

Lemma visited_mono rootId s s' x :
  grows s s' -> visited rootId s x -> visited rootId s' x.
Proof.
  intros (tr & rows & Ht & Hf & Hdb) [Hd Hq]. unfold visited.
  rewrite Ht, Hf, Hdb. split.
  - intros H. apply in_or_app. left. auto.
  - intros H. destruct (Hq H) as [Ho Hs]. split.
    + apply in_or_app. now left.
    + intros file Hfile. destruct (Hs file Hfile) as (Hsm & fp & Hfp & Hrow).
      split; [apply in_or_app; now left|].
      exists fp. split; [exact Hfp|].
      intros Hok. apply in_or_app. left. auto.
Qed.

(** What [HashAndCatalog] has done when it returns nil. *)
Lemma HashAndCatalog_done rootId x s s' :
  HashAndCatalog rootId x s = (s', None) ->
  grows s s'
  /\ In (EvOpenFile (path_of x)) (trace s')
  /\ forall file,
       os_Open os (path_of x) = Ok file ->
       In (EvSmartHash (path_of x)) (trace s')
       /\ exists fp,
            SmartHash file (Info x) threshold = Ok fp
            /\ (db_fault (db s')
                  (InsertFile (row_of rootId fp (path_of x)
                                 (ModTime (Info x)))) = None ->
                In (row_of rootId fp (path_of x) (ModTime (Info x)))
                   (files (db s'))).
Proof.
  unfold HashAndCatalog. fold (path_of x).
  destruct (os_Open os (path_of x)) as [file|err] eqn:Hopen.
  - destruct (SmartHash file (Info x) threshold) as [fp|e] eqn:Hfp;
      [|discriminate].
    unfold CatalogHash. cbn [db emit]. fold (row_of rootId fp (path_of x)
                                             (ModTime (Info x))).
    destruct (db_fault (db s) _) as [e|] eqn:Hdb; intros [= <-];
      cbn [trace db files db_fault].
    + split; [|split].
      * exists [EvOpenFile (path_of x); EvSmartHash (path_of x)], [].
        cbn [trace db]. rewrite <- app_assoc, app_nil_r. auto.
      * apply in_or_app. left. apply in_or_app. right. now left.
      * intros file' [= <-]. split; [apply in_or_app; right; now left|].
        exists fp. split; [exact Hfp|]. rewrite Hdb. discriminate.
    + split; [|split].
      * exists [EvOpenFile (path_of x); EvSmartHash (path_of x)],
          [row_of rootId fp (path_of x) (ModTime (Info x))].
        cbn [trace db files db_fault]. rewrite <- app_assoc. auto.
      * apply in_or_app. left. apply in_or_app. right. now left.
      * intros file' [= <-]. split; [apply in_or_app; right; now left|].
        exists fp. split; [exact Hfp|]. intros _.
        apply in_or_app. right. now left.
  - assert (Hemit : grows s (emit (EvOpenFile (path_of x)) s)
                    /\ In (EvOpenFile (path_of x))
                         (trace (emit (EvOpenFile (path_of x)) s))).
    { split; [apply grows_emit|]. cbn [trace emit].
      apply in_or_app. right. now left. }
    destruct Hemit as [Hg Hin].
    destruct err as [|op p msg|msg]; try discriminate.
    destruct (String.eqb msg "permission denied"); [|discriminate].
    intros [= <-]. split; [exact Hg|]. split; [exact Hin|]. discriminate.
Qed.

Lemma step_grows rootId fileQ s :
  match step rootId fileQ s with
  | Continue _ s' | Return s' _ => grows s s'
  end.
Proof.
  destruct fileQ as [|cur fileQ]; [apply grows_refl|].
  destruct (IsDir (Info cur)) eqn:Hd.
  - unfold step. rewrite Hd.
    destruct (os_Open os _) as [dir|e]; [|apply grows_emit].
    destruct (Readdir dir); apply grows_emit.
  - destruct (qualifies_step path_Join os Opts rootId cur fileQ s Hd)
      as [[Hq ->]|[Hq ->]]; [|apply grows_refl].
    destruct (HashAndCatalog_audited path_Join os Opts cur rootId cur [] s
                (lineage_seed cur) Hq)
      as (tr & rows & Ht & Hf & _ & Hdb & _).
    destruct (HashAndCatalog rootId cur s) as [s' [err|]]; cbn [fst] in *;
      exists tr, rows; auto.
Qed.

Lemma loop_grows rootId fuel fileQ s :
  grows s (loop fuel rootId fileQ s).1.
Proof.
  revert fileQ s. induction fuel as [|fuel IH]; intros fileQ s;
    [apply grows_refl|].
  cbn [loop]. pose proof (step_grows rootId fileQ s) as Hs.
  destruct (step rootId fileQ s) as [fileQ' s'|s' err]; [|exact Hs].
  eapply grows_trans; [exact Hs|apply IH].
Qed.

(** One pass that goes on keeps every reachable item done with or
    ahead. *)
Lemma step_covered seed rootId fileQ s fileQ' s' :
  covered seed rootId fileQ s ->
  step rootId fileQ s = Continue fileQ' s' ->
  covered seed rootId fileQ' s'.
Proof.
  intros Hcov Hstep. destruct fileQ as [|cur fileQ]; [discriminate|].
  assert (Hrest : forall s1 q',
            grows s s1 ->
            (forall a, In a fileQ -> In a q') ->
            (forall x anc', lineage cur anc' x ->
               visited rootId s1 x
               \/ exists a anc'', In a q' /\ lineage a anc'' x) ->
            covered seed rootId q' s1).
  { intros s1 q' Hg Hsub Hcur x anc Hl.
    destruct (Hcov x anc Hl) as [Hv|(a & anc' & [<-|Hin] & Ha)].
    - left. eapply visited_mono; eassumption.
    - eauto.
    - right. eauto. }
  destruct (IsDir (Info cur)) eqn:Hd.
  - unfold step in Hstep. fold (path_of cur) in Hstep. rewrite Hd in Hstep.
    destruct (os_Open os (path_of cur)) as [dir|err] eqn:Ho; [|discriminate].
    destruct (Readdir dir) as [infos|err] eqn:Hr; [|discriminate].
    injection Hstep as <- <-.
    rewrite (enqueue_filter path_Join Opts).
    apply Hrest.
    + apply grows_emit.
    + intros a Ha. apply in_or_app. now left.
    + intros x anc' Hl.
      destruct (lineage_top _ _ _ Hl)
        as [->|(dir' & infos' & info & anc'' & _ & Ho' & Hr' & Hin & Hk & Hl')].
      * left. split.
        -- intros _. cbn [trace emit]. apply in_or_app. right. now left.
        -- intros Hq. unfold qualifies in Hq. rewrite Hd in Hq. discriminate.
      * right. rewrite Ho in Ho'. injection Ho' as <-.
        rewrite Hr in Hr'. injection Hr' as <-.
        exists (mkWalkerContext info (path_of cur)), anc''.
        split; [|exact Hl'].
        apply in_or_app. right.
        apply (in_map (fun i => mkWalkerContext i (path_of cur))).
        apply filter_In. auto.
  - assert (Hleaf : forall x anc', lineage cur anc' x -> x = cur).
    { intros x anc' Hl.
      destruct (lineage_top _ _ _ Hl) as [->|(? & ? & ? & ? & Hd' & _)];
        [reflexivity|congruence]. }
    destruct (qualifies_step path_Join os Opts rootId cur fileQ s Hd)
      as [[Hq Hs]|[Hq Hs]]; rewrite Hs in Hstep.
    + destruct (HashAndCatalog rootId cur s) as [s1 [err|]] eqn:Hhc;
        [discriminate|].
      injection Hstep as <- <-.
      destruct (HashAndCatalog_done rootId cur s s1 Hhc) as (Hg & Hopen & Hfile).
      apply Hrest; [exact Hg|auto|].
      intros x anc' Hl. rewrite (Hleaf x anc' Hl). left. split.
      * intros H. congruence.
      * intros _. split; assumption.
    + injection Hstep as <- <-.
      apply Hrest; [apply grows_refl|auto|].
      intros x anc' Hl. rewrite (Hleaf x anc' Hl). left. split.
      * intros H. congruence.
      * intros H. congruence.
Qed.

Lemma loop_complete seed rootId fuel fileQ s :
  covered seed rootId fileQ s ->
  (loop fuel rootId fileQ s).2 = Returned None ->
  forall x anc, lineage seed anc x ->
                visited rootId (loop fuel rootId fileQ s).1 x.
Proof.
  revert fileQ s. induction fuel as [|fuel IH]; intros fileQ s Hcov Hret;
    [discriminate|].
  cbn [loop] in *.
  destruct (step rootId fileQ s) as [fileQ' s'|s' err] eqn:Hstep.
  - apply IH; [|exact Hret]. eapply step_covered; eassumption.
  - cbn [fst snd] in *. injection Hret as ->.
    destruct fileQ as [|cur fileQ].
    + cbn [step] in Hstep. injection Hstep as <-.
      intros x anc Hl.
      destruct (Hcov x anc Hl) as [Hv|(a & _ & [] & _)]. exact Hv.
    + exfalso. unfold step in Hstep.
      destruct (IsDir (Info cur)).
      * destruct (os_Open os _) as [dir|e]; [|discriminate].
        destruct (Readdir dir); discriminate.
      * destruct (negb (IsRegular (Mode (Info cur)))); [discriminate|].
        destruct (_ && _); [discriminate|].
        destruct (HashAndCatalog rootId cur s) as [s1 [e|]]; discriminate.
Qed.

(** X19: a walk that returns without an error has left nothing out.
    Every directory that can be reached from the root through entries
    that match no exclusion pattern was listed.  Every qualifying file
    among those entries was opened; if it could be opened, it was
    fingerprinted with success and its row, under the identifier of
    the root, is in the table of files, unless the database refuses
    that row. *)
Theorem Run_complete (fuel : nat) (s : State) (rootInfo : FileInfo) :
  os_Stat os (root Opts) = Ok rootInfo ->
  (Run fuel s).2 = Returned None ->
  exists rootId,
    index_of (root Opts) (roots (EnsureRootId (db s) (root Opts)).1) 1
    = Some rootId
    /\ forall x anc,
         lineage (seed_of rootInfo) anc x ->
         (IsDir (Info x) = true ->
          In (EvOpenDir (path_of x)) (trace (Run fuel s).1))
         /\ (qualifies x = true ->
             In (EvOpenFile (path_of x)) (trace (Run fuel s).1)
             /\ forall file,
                  os_Open os (path_of x) = Ok file ->
                  In (EvSmartHash (path_of x)) (trace (Run fuel s).1)
                  /\ exists fp,
                       SmartHash file (Info x) threshold = Ok fp
                       /\ (db_fault (db s)
                             (InsertFile
                                (mkFileRow rootId (Sprintf_x fp) (path_of x)
                                   (ModTime (Info x)))) = None ->
                           In (mkFileRow rootId (Sprintf_x fp) (path_of x)
                                 (ModTime (Info x)))
                              (files (db (Run fuel s).1)))).
Proof.
  intros Hstat Hret. unfold Run in *. rewrite Hstat in *.
  destruct (negb (IsDir rootInfo)); [discriminate|].
  pose proof (EnsureRootId_get_or_insert_aux (db s)
                (EnsureRootId (db s) (root Opts)).1 (root Opts)) as Hidx.
  assert (Hfault : db_fault (EnsureRootId (db s) (root Opts)).1
                   = db_fault (db s)).
  { destruct (EnsureRootId_cases (db s) (root Opts))
      as [[e He]|[(id & _ & _ & He)|(_ & _ & He)]]; rewrite He; reflexivity. }
  destruct (EnsureRootId (db s) (root Opts)) as [d [rootId|err]];
    [|discriminate].
  cbn [fst] in *. fold (seed_of rootInfo) in *.
  exists rootId. split; [apply (Hidx rootId eq_refl)|].
  intros x anc Hl.
  assert (Hcov : covered (seed_of rootInfo) rootId [seed_of rootInfo]
                    (mkState d (trace s))).
  { intros y anc' Hy. right. exists (seed_of rootInfo), anc'.
    split; [left; reflexivity|exact Hy]. }
  pose proof (loop_complete (seed_of rootInfo) rootId fuel [seed_of rootInfo]
                (mkState d (trace s)) Hcov Hret x anc Hl) as [Hdir Hfile].
  split; [exact Hdir|].
  intros Hq. destruct (Hfile Hq) as [Hopen Hrec]. split; [exact Hopen|].
  intros file Hf. destruct (Hrec file Hf) as (Hsm & fp & Hfp & Hrow).
  split; [exact Hsm|]. exists fp. split; [exact Hfp|].
  intros Hok. apply Hrow.
  destruct (loop_grows rootId fuel [seed_of rootInfo] (mkState d (trace s)))
    as (tr & rows & _ & _ & Hdb).
  rewrite Hdb. cbn [db]. rewrite Hfault. exact Hok.
Qed.

End WalkEnds.

(** ** Bytes past the declared size *)

(** X5: the sampled strategy never looks past the declared size: when a
    file holds at least its declared size, whatever is appended to it
    leaves the result of [SmartHash] unchanged. *)
Theorem SmartHash_ignores_growth (f : File) (info : FileInfo)
    (more : list byte) :
  threshold <= Size info -> Size info < 2 ^ 63 ->
  Size info <= Z.of_nat (length (fdata f)) ->
  SmartHash (grown f more) info threshold = SmartHash f info threshold.
Proof.
  intros Hthr Hmax Hlen. pose proof threshold_value as Hv.
  assert (Hrange : 0 <= Size info < 2 ^ 63) by lia.
  assert (Hq : 0 <= Z.quot (Size info) 2
               /\ Z.quot (Size info) 2 + 1024 <= Size info).
  { rewrite Z.quot_div_nonneg by lia.
    pose proof (Z.div_mod (Size info) 2).
    pose proof (Z.mod_pos_bound (Size info) 2). lia. }
  assert (Hin : forall off, 0 <= off -> off + 1024 <= Size info ->
            ReadAt (grown f more) (make 1024) off = ReadAt f (make 1024) off).
  { intros off H0 H1. unfold ReadAt.
    destruct (off <? 0); [reflexivity|].
    rewrite (pread_ext (grown f more) f) by reflexivity.
    cbn [fdata grown]. unfold make. rewrite length_replicate.
    rewrite drop_app_le by lia.
    rewrite pread_app_le by (rewrite length_drop; lia). reflexivity. }
  rewrite !(SmartHash_above _ _ _ Hthr), !(sampleHash_large _ _ Hrange).
  unfold window, window_err.
  rewrite (Hin 0), (Hin (Z.quot (Size info) 2)), (Hin (Size info - 1024))
    by lia.
  reflexivity.
Qed.

Section WalkAgain.

Variable path_Join : string -> string -> string.
Variable path_Dir : string -> string.
Variable os : OS.
Variable Opts : Options.

Local Abbreviation path_of := (path_of path_Join).
Local Abbreviation HashAndCatalog := (HashAndCatalog path_Join os).
Local Abbreviation step := (step path_Join os Opts).
Local Abbreviation loop := (loop path_Join os Opts).
Local Abbreviation Run := (Run path_Join path_Dir os Opts).
Local Abbreviation seed_of := (seed_of path_Dir Opts).

(** ** Running again *)

Lemma after_emit s0 s ev : emit ev (after s0 s) = after s0 (emit ev s).
Proof. unfold emit, after. cbn [db trace]. now rewrite app_assoc. Qed.

Lemma after_blank s0 : after s0 (blank s0) = s0.
Proof.
  destruct s0 as [[rs fs fault] tr]. unfold after, blank. cbn.
  now rewrite !app_nil_r.
Qed.

(** What [HashAndCatalog] does after [s0] is what it does from [s],
    put after [s0]. *)
Lemma HashAndCatalog_after rootId x s0 s :
  db_fault (db s) = db_fault (db s0) ->
  HashAndCatalog rootId x (after s0 s)
  = (after s0 (HashAndCatalog rootId x s).1, (HashAndCatalog rootId x s).2)
  /\ db_fault (db (HashAndCatalog rootId x s).1) = db_fault (db s0).
Proof.
  intros Hf. unfold HashAndCatalog. rewrite after_emit.
  destruct (os_Open os _) as [file|err].
  - rewrite after_emit.
    destruct (SmartHash file (Info x) threshold) as [fp|e];
      [|split; [reflexivity|exact Hf]].
    unfold CatalogHash. cbn [db emit after db_fault]. rewrite Hf.
    destruct (db_fault (db s0) _); cbn [fst snd db db_fault];
      (split; [|first [exact Hf | reflexivity]]).
    + reflexivity.
    + unfold after. cbn [db trace roots files db_fault].
      now rewrite app_assoc.
  - destruct err as [|op p msg|msg]; try (split; [reflexivity|exact Hf]).
    destruct (String.eqb msg "permission denied");
      (split; [reflexivity|exact Hf]).
Qed.

Lemma step_after rootId fileQ s0 s :
  db_fault (db s) = db_fault (db s0) ->
  match step rootId fileQ s with
  | Continue fileQ' s' =>
      step rootId fileQ (after s0 s) = Continue fileQ' (after s0 s')
      /\ db_fault (db s') = db_fault (db s0)
  | Return s' err =>
      step rootId fileQ (after s0 s) = Return (after s0 s') err
  end.
Proof.
  intros Hf. destruct fileQ as [|cur fileQ]; [reflexivity|].
  unfold step. rewrite after_emit.
  destruct (IsDir (Info cur)).
  - destruct (os_Open os _) as [dir|e]; [|reflexivity].
    destruct (Readdir dir); [|reflexivity]. split; [reflexivity|exact Hf].
  - destruct (negb (IsRegular (Mode (Info cur)))); [auto|].
    destruct (_ && _); [auto|].
    destruct (HashAndCatalog_after rootId cur s0 s Hf) as [-> Hf'].
    destruct (HashAndCatalog rootId cur s) as [s' [err|]]; cbn [fst snd] in *;
      auto.
Qed.

Lemma loop_after rootId fuel fileQ s0 s :
  db_fault (db s) = db_fault (db s0) ->
  loop fuel rootId fileQ (after s0 s)
  = (after s0 (loop fuel rootId fileQ s).1, (loop fuel rootId fileQ s).2).
Proof.
  revert fileQ s. induction fuel as [|fuel IH]; intros fileQ s Hf;
    [reflexivity|].
  cbn [loop]. pose proof (step_after rootId fileQ s0 s Hf) as Hs.
  destruct (step rootId fileQ s) as [fileQ' s'|s' err].
  - destruct Hs as [-> Hf']. now apply IH.
  - now rewrite Hs.
Qed.

(** X20: running the walk again over the same tree does the same work
    again and appends the same rows again: nothing is overwritten and
    no row is refused for being there already. *)
Theorem Run_again (fuel : nat) (s : State) :
  exists tr rows,
    trace (Run fuel s).1 = trace s ++ tr
    /\ files (db (Run fuel s).1) = files (db s) ++ rows
    /\ trace (Run fuel (Run fuel s).1).1 = trace s ++ tr ++ tr
    /\ files (db (Run fuel (Run fuel s).1).1) = files (db s) ++ rows ++ rows
    /\ roots (db (Run fuel (Run fuel s).1).1) = roots (db (Run fuel s).1)
    /\ (Run fuel (Run fuel s).1).2 = (Run fuel s).2.
Proof.
  destruct (Run_enters_loop path_Join path_Dir os Opts fuel s)
    as [Hs|(rootInfo & d & rootId & Hstat & Hd & He & Hrun)].
  { exists [], []. rewrite Hs, Hs. cbn [app]. rewrite !app_nil_r.
    repeat split; reflexivity. }
  destruct (EnsureRootId_get_or_insert_aux _ _ _ _ He) as [Hidx Hfiles].
  assert (Hfault : db_fault d = db_fault (db s)
                   /\ db_fault d (SelectRoot (root Opts)) = None).
  { destruct (EnsureRootId_cases (db s) (root Opts))
      as [[e H]|[(id & _ & Hsel & H)|(_ & Hsel & H)]];
      rewrite H in He; [discriminate| |]; injection He as <- <-; auto. }
  destruct Hfault as [Hfault Hsel].
  set (s0 := mkState d (trace s)) in *.
  set (base := loop fuel rootId [seed_of rootInfo] (blank s0)).
  assert (Hfirst : Run fuel s = (after s0 base.1, base.2)).
  { rewrite Hrun. rewrite <- (after_blank s0) at 1.
    now rewrite loop_after. }
  assert (Hsecond : Run fuel (after s0 base.1)
                    = (after (after s0 base.1) base.1, base.2)).
  { unfold Run. rewrite Hstat, Hd. cbn [negb].
    assert (Hens : EnsureRootId (db (after s0 base.1)) (root Opts)
                   = (db (after s0 base.1), Ok rootId)).
    { unfold EnsureRootId. cbn [db after s0 db_fault roots].
      rewrite Hsel, Hidx. reflexivity. }
    rewrite Hens. fold (seed_of rootInfo).
    replace (mkState (db (after s0 base.1)) (trace (after s0 base.1)))
      with (after s0 base.1) by reflexivity.
    rewrite <- (after_blank (after s0 base.1)) at 1.
    replace (blank (after s0 base.1)) with (blank s0) by reflexivity.
    now rewrite loop_after. }
  exists (trace base.1), (files (db base.1)).
  rewrite Hfirst. cbn [fst snd]. rewrite Hsecond. cbn [fst snd].
  unfold after, s0. cbn [db trace files roots].
  rewrite Hfiles, <- !app_assoc. auto 10.
Qed.

End WalkAgain.

(** * The walk by its results *)

Section WalkResults.

Variable path_Join : string -> string -> string.
Variable path_Dir : string -> string.
Variable os : OS.
Variable Opts : Options.

Local Abbreviation path_of := (path_of path_Join).
Local Abbreviation HashAndCatalog := (HashAndCatalog path_Join os).
Local Abbreviation step := (step path_Join os Opts).
Local Abbreviation loop := (loop path_Join os Opts).
Local Abbreviation Run := (Run path_Join path_Dir os Opts).
Local Abbreviation qualifies := (qualifies path_Join Opts).
Local Abbreviation lineage := (lineage path_Join os Opts).
Local Abbreviation seed_of := (seed_of path_Dir Opts).
Local Abbreviation keep := (keep path_Join Opts).
Local Abbreviation visited := (visited path_Join os Opts).
Local Abbreviation covered := (covered path_Join os Opts).
Local Abbreviation calm := (calm path_Join os Opts).
Local Abbreviation audited_event := (audited_event path_Join os Opts).
Local Abbreviation audited_row := (audited_row path_Join os Opts).

(** ** Passes that do not end the walk *)

Lemma step_calm rootId x fileQ s :
  calm x ->
  exists more s', step rootId (x :: fileQ) s = Continue (fileQ ++ more) s'.
Proof.
  unfold calm. destruct (IsDir (Info x)) eqn:Hd.
  - intros (dir & infos & Ho & Hr).
    rewrite (step_directory path_Join os Opts rootId x fileQ s dir infos
               Hd Ho Hr).
    eauto.
  - intros H.
    destruct (qualifies_step path_Join os Opts rootId x fileQ s Hd)
      as [[Hq ->]|[Hq ->]].
    2:{ exists [], s. now rewrite app_nil_r. }
    destruct H as [H|[(op & p & Ho)|(file & fp & Ho & Hh)]].
    + congruence.
    + rewrite (HashAndCatalog_denied path_Join os rootId x s op p Ho).
      exists []. eexists. now rewrite app_nil_r.
    + rewrite (HashAndCatalog_hashed path_Join os rootId x s file fp Ho Hh).
      exists []. eexists. now rewrite app_nil_r.
Qed.

(** The loop gets through a run of such items, one pass each; what
    they put in the queue comes after what was there. *)
Lemma loop_calm rootId before :
  Forall calm before ->
  forall fileQ s fuel,
  exists more s',
    loop (length before + fuel) rootId (before ++ fileQ) s
    = loop fuel rootId (fileQ ++ more) s'
    /\ grows s s'.
Proof.
  induction 1 as [|x before Hx Hrest IH]; intros fileQ s fuel.
  - exists [], s. rewrite app_nil_r. split; [reflexivity|apply grows_refl].
  - destruct (step_calm rootId x (before ++ fileQ) s Hx) as (more & s1 & Hs).
    pose proof (step_grows path_Join os Opts rootId
                  (x :: before ++ fileQ) s) as Hg1.
    rewrite Hs in Hg1.
    change (length (x :: before) + fuel)%nat
      with (S (length before + fuel)).
    change ((x :: before) ++ fileQ) with (x :: before ++ fileQ).
    rewrite (loop_step_continue path_Join os Opts _ _ _ _ _ _ Hs).
    rewrite <- app_assoc.
    destruct (IH (fileQ ++ more) s1 fuel) as (more' & s2 & Hl & Hg2).
    exists (more ++ more'), s2. rewrite Hl, app_assoc.
    split; [reflexivity|]. eapply grows_trans; eassumption.
Qed.

Lemma qualifies_not_dir x : qualifies x = true -> IsDir (Info x) = false.
Proof.
  unfold qualifies. intros H.
  apply andb_prop in H as [H _]. apply andb_prop in H as [H _].
  now apply negb_true_iff in H.
Qed.

(** A qualifying file behind such a run is fingerprinted and recorded,
    given one pass for each item in front of it and one for itself. *)
Lemma loop_reaches rootId before x rest s file fp fuel :
  Forall calm before ->
  qualifies x = true ->
  os_Open os (path_of x) = Ok file ->
  SmartHash file (Info x) threshold = Ok fp ->
  (length before < fuel)%nat ->
  In (EvOpenFile (path_of x))
     (trace (loop fuel rootId (before ++ x :: rest) s).1)
  /\ In (EvSmartHash (path_of x))
        (trace (loop fuel rootId (before ++ x :: rest) s).1)
  /\ (db_fault (db s)
        (InsertFile (row_of rootId fp (path_of x) (ModTime (Info x)))) = None ->
      In (row_of rootId fp (path_of x) (ModTime (Info x)))
         (files (db (loop fuel rootId (before ++ x :: rest) s).1))).
Proof.
  intros Hb Hq Ho Hh Hlt.
  replace fuel with (length before + S (fuel - S (length before)))%nat by lia.
  destruct (loop_calm rootId before Hb (x :: rest) s
              (S (fuel - S (length before)))) as (more & s1 & -> & Hg1).
  change ((x :: rest) ++ more) with (x :: rest ++ more).
  pose proof (HashAndCatalog_hashed path_Join os rootId x s1 file fp Ho Hh)
    as Hhc.
  set (s2 := mkState _ _) in Hhc.
  assert (Hs : step rootId (x :: rest ++ more) s1 = Continue (rest ++ more) s2).
  { rewrite (step_qualifying path_Join os Opts) by exact Hq.
    now rewrite Hhc. }
  rewrite (loop_step_continue path_Join os Opts _ _ _ _ _ _ Hs).
  destruct (HashAndCatalog_done path_Join os rootId x s1 s2 Hhc)
    as (Hg2 & Hopen & Hfile).
  assert (Hv : visited rootId s2 x).
  { split.
    - intros Hd. rewrite (qualifies_not_dir x Hq) in Hd. discriminate.
    - intros _. split; assumption. }
  pose proof (loop_grows path_Join os Opts rootId
                (fuel - S (length before)) (rest ++ more) s2) as Hg3.
  apply (visited_mono path_Join os Opts rootId _ _ x Hg3) in Hv.
  destruct Hv as [_ Hv]. destruct (Hv Hq) as [H1 H2].
  destruct (H2 file Ho) as (H3 & fp' & Hfp' & Hrow).
  rewrite Hh in Hfp'. injection Hfp' as <-.
  split; [exact H1|]. split; [exact H3|].
  intros Hok. apply Hrow.
  destruct (grows_trans _ _ _ Hg1 (grows_trans _ _ _ Hg2 Hg3))
    as (tr & rows & _ & _ & ->).
  exact Hok.
Qed.

(** ** What a walk adds *)

(** The loop from [s] does what it does from the blank state, after
    [s]. *)
Lemma loop_from_blank rootId fuel fileQ s :
  loop fuel rootId fileQ s
  = (after s (loop fuel rootId fileQ (blank s)).1,
     (loop fuel rootId fileQ (blank s)).2).
Proof.
  pose proof (loop_after path_Join os Opts rootId fuel fileQ s (blank s)
                eq_refl) as H.
  now rewrite after_blank in H.
Qed.

Lemma loop_reaches_added rootId before x rest s file fp fuel :
  Forall calm before ->
  qualifies x = true ->
  os_Open os (path_of x) = Ok file ->
  SmartHash file (Info x) threshold = Ok fp ->
  (length before < fuel)%nat ->
  exists tr rows,
    trace (loop fuel rootId (before ++ x :: rest) s).1 = trace s ++ tr
    /\ files (db (loop fuel rootId (before ++ x :: rest) s).1)
       = files (db s) ++ rows
    /\ In (EvOpenFile (path_of x)) tr
    /\ In (EvSmartHash (path_of x)) tr
    /\ (db_fault (db s)
          (InsertFile (row_of rootId fp (path_of x) (ModTime (Info x))))
        = None ->
        In (row_of rootId fp (path_of x) (ModTime (Info x))) rows).
Proof.
  intros Hb Hq Ho Hh Hlt.
  destruct (loop_reaches rootId before x rest (blank s) file fp fuel
              Hb Hq Ho Hh Hlt) as (H1 & H2 & H3).
  rewrite loop_from_blank. cbn [fst after trace db files].
  do 2 eexists. split; [reflexivity|]. split; [reflexivity|]. auto.
Qed.

(** [Run], once in its loop, adds to the state what the loop adds to
    the blank state. *)
Lemma Run_added fuel s rootInfo d rootId :
  os_Stat os (root Opts) = Ok rootInfo ->
  IsDir rootInfo = true ->
  EnsureRootId (db s) (root Opts) = (d, Ok rootId) ->
  db_fault d = db_fault (db s)
  /\ trace (Run fuel s).1
     = trace s ++ trace (loop fuel rootId [seed_of rootInfo] (blank s)).1
  /\ files (db (Run fuel s).1)
     = files (db s)
       ++ files (db (loop fuel rootId [seed_of rootInfo] (blank s)).1)
  /\ (Run fuel s).2 = (loop fuel rootId [seed_of rootInfo] (blank s)).2.
Proof.
  intros Hs Hd He.
  destruct (EnsureRootId_get_or_insert_aux _ _ _ _ He) as [_ Hfiles].
  assert (Hfault : db_fault d = db_fault (db s)).
  { destruct (EnsureRootId_cases (db s) (root Opts))
      as [[e H]|[(id & _ & _ & H)|(_ & _ & H)]];
      rewrite H in He; [discriminate| |]; injection He as <- <-; reflexivity. }
  split; [exact Hfault|].
  unfold Run. rewrite Hs, Hd, He. cbn [negb]. fold (seed_of rootInfo).
  assert (Hb : blank (mkState d (trace s)) = blank s).
  { unfold blank. cbn [db]. now rewrite Hfault. }
  rewrite loop_from_blank, Hb. cbn [fst snd after trace db files].
  rewrite Hfiles. auto.
Qed.

(** What the loop adds to the blank state, from the seed. *)
Lemma loop_seed_audited fuel s rootId seed :
  db_fault (db (loop fuel rootId [seed] (blank s)).1) = db_fault (db s)
  /\ Forall (audited_event seed) (trace (loop fuel rootId [seed] (blank s)).1)
  /\ Forall (audited_row seed rootId)
       (files (db (loop fuel rootId [seed] (blank s)).1)).
Proof.
  destruct (loop_audited path_Join os Opts seed rootId fuel [seed] (blank s))
    as (tr & rows & Ht & Hf & _ & Hdb & Hev & Hrows).
  { constructor; [|constructor]. exists []. constructor. }
  rewrite Ht, Hf, Hdb. auto.
Qed.

Lemma loop_seed_complete fuel s rootId seed :
  (loop fuel rootId [seed] (blank s)).2 = Returned None ->
  forall x anc, lineage seed anc x ->
                visited rootId (loop fuel rootId [seed] (blank s)).1 x.
Proof.
  intros Hret. apply (loop_complete path_Join os Opts); [|exact Hret].
  intros y anc' Hy. right. exists seed, anc'. split; [left; reflexivity|exact Hy].
Qed.


Lemma Run_nil_enters fuel s rootInfo :
  os_Stat os (root Opts) = Ok rootInfo ->
  (Run fuel s).2 = Returned None ->
  exists d rootId,
    IsDir rootInfo = true
    /\ EnsureRootId (db s) (root Opts) = (d, Ok rootId).
Proof.
  intros Hs. unfold Run. rewrite Hs.
  destruct (IsDir rootInfo); cbn [negb]; [|discriminate].
  destruct (EnsureRootId (db s) (root Opts)) as [d [rootId|err]];
    [eauto|discriminate].
Qed.

(** The first pass of [Run] lists the root; the rest of the walk is the
    loop over the entries of the root that were kept. *)
Lemma Run_root_listed fuel s rootInfo d rootId dir infos :
  os_Stat os (root Opts) = Ok rootInfo ->
  IsDir rootInfo = true ->
  EnsureRootId (db s) (root Opts) = (d, Ok rootId) ->
  os_Open os (path_of (seed_of rootInfo)) = Ok dir ->
  Readdir dir = Ok infos ->
  trace (Run (S fuel) s).1
  = trace s
    ++ EvOpenDir (path_of (seed_of rootInfo))
       :: trace (loop fuel rootId
                   (map (fun info =>
                           mkWalkerContext info (path_of (seed_of rootInfo)))
                      (List.filter (keep (path_of (seed_of rootInfo))) infos))
                   (blank s)).1
  /\ files (db (Run (S fuel) s).1)
     = files (db s)
       ++ files (db (loop fuel rootId
                       (map (fun info =>
                               mkWalkerContext info
                                 (path_of (seed_of rootInfo)))
                          (List.filter (keep (path_of (seed_of rootInfo)))
                             infos))
                       (blank s)).1).
Proof.
  intros Hs Hd He Ho Hr.
  destruct (Run_added (S fuel) s rootInfo d rootId Hs Hd He)
    as (_ & -> & -> & _).
  rewrite (loop_step_continue path_Join os Opts _ _ _ _ _ _
             (step_directory path_Join os Opts rootId (seed_of rootInfo)
                [] (blank s) dir infos Hd Ho Hr)).
  cbn [app]. rewrite loop_from_blank.
  change (blank (emit (EvOpenDir (path_of (seed_of rootInfo))) (blank s)))
    with (blank s).
  cbn [fst after emit blank trace db files app]. auto.
Qed.

(** ** The inclusion patterns *)

Lemma qualifies_includes x :
  qualifies x = true ->
  includes Opts = [] \/ matches_some (includes Opts) (path_of x).
Proof.
  unfold qualifies. intros H. apply andb_prop in H as [_ H].
  apply orb_prop in H as [H|H].
  - left. destruct (includes Opts); [reflexivity|discriminate].
  - right. now apply Match_true_iff.
Qed.

Lemma includes_qualifies x :
  IsDir (Info x) = false -> IsRegular (Mode (Info x)) = true ->
  includes Opts = [] \/ matches_some (includes Opts) (path_of x) ->
  qualifies x = true.
Proof.
  intros Hd Hr H. unfold qualifies. rewrite Hd, Hr. cbn [negb andb].
  destruct H as [->|H]; [reflexivity|].
  apply Match_true_iff in H. rewrite H. apply orb_true_r.
Qed.

(** In a walk that returns without an error, a regular file the walk
    can come to is opened, fingerprinted and recorded exactly when
    there is no inclusion pattern or its path matches one. *)
Lemma Run_inclusion fuel s rootInfo x anc :
  os_Stat os (root Opts) = Ok rootInfo ->
  (Run fuel s).2 = Returned None ->
  lineage (seed_of rootInfo) anc x ->
  IsDir (Info x) = false -> IsRegular (Mode (Info x)) = true ->
  exists rootId tr rows,
    index_of (root Opts) (roots (EnsureRootId (db s) (root Opts)).1) 1
    = Some rootId
    /\ trace (Run fuel s).1 = trace s ++ tr
    /\ files (db (Run fuel s).1) = files (db s) ++ rows
    /\ (In (EvOpenFile (path_of x)) tr
        <-> includes Opts = []
            \/ matches_some (includes Opts) (path_of x))
    /\ (forall file,
          os_Open os (path_of x) = Ok file ->
          (In (EvSmartHash (path_of x)) tr
           <-> includes Opts = []
               \/ matches_some (includes Opts) (path_of x))
          /\ (includes Opts = []
              \/ matches_some (includes Opts) (path_of x) ->
              exists fp,
                SmartHash file (Info x) threshold = Ok fp
                /\ (db_fault (db s)
                      (InsertFile
                         (mkFileRow rootId (Sprintf_x fp) (path_of x)
                            (ModTime (Info x)))) = None ->
                    In (mkFileRow rootId (Sprintf_x fp) (path_of x)
                          (ModTime (Info x))) rows)))
    /\ (~ (includes Opts = []
           \/ matches_some (includes Opts) (path_of x)) ->
        forall row, In row rows -> row_path row <> path_of x).
Proof.
  intros Hs Hret Hl Hd Hr.
  destruct (Run_nil_enters fuel s rootInfo Hs Hret)
    as (d & rootId & Hdir & He).
  destruct (Run_added fuel s rootInfo d rootId Hs Hdir He)
    as (Hfault & Ht & Hf & Hout).
  rewrite Hout in Hret.
  destruct (loop_seed_audited fuel s rootId (seed_of rootInfo))
    as (Hdb & Hev & Hrows).
  pose proof (loop_seed_complete fuel s rootId (seed_of rootInfo) Hret
                x anc Hl) as [_ Hv].
  rewrite List.Forall_forall in Hev, Hrows.
  assert (Hroots : index_of (root Opts)
                     (roots (EnsureRootId (db s) (root Opts)).1) 1
                   = Some rootId).
  { rewrite He. apply (EnsureRootId_get_or_insert_aux _ _ _ _ He). }
  exists rootId. do 2 eexists. split; [exact Hroots|].
  split; [exact Ht|]. split; [exact Hf|].
  split; [|split].
  - split.
    + intros Hin. destruct (Hev _ Hin) as (y & anc' & _ & Hq & Hp).
      rewrite Hp. now apply qualifies_includes.
    + intros Hc. apply Hv. now apply includes_qualifies.
  - intros file Ho. split; [split|].
    + intros Hin. destruct (Hev _ Hin) as (y & anc' & _ & Hq & Hp & _).
      rewrite Hp. now apply qualifies_includes.
    + intros Hc.
      destruct (Hv (includes_qualifies x Hd Hr Hc)) as [_ H].
      now destruct (H file Ho).
    + intros Hc.
      destruct (Hv (includes_qualifies x Hd Hr Hc)) as [_ H].
      destruct (H file Ho) as (_ & fp & Hfp & Hrow).
      exists fp. split; [exact Hfp|].
      intros Hok. apply Hrow. rewrite Hdb. exact Hok.
  - intros Hn row Hin Hp.
    destruct (Hrows _ Hin) as (y & anc' & file & fp & _ & Hq & _ & _ & ->).
    cbn [row_of row_path] in Hp. apply Hn. rewrite <- Hp.
    now apply qualifies_includes.
Qed.


(** ** The claims about the walk going on *)

(** C6: a permission-denied error on opening a qualifying file is not
    fatal.  [HashAndCatalog] returns nil with nothing added but the
    event of the open, so the file is skipped and the database is as it
    was; the pass of the loop goes on with the rest of the queue; and
    every qualifying file later in the queue, with any number of items
    in between whose passes do not end the walk, is opened and
    fingerprinted, and its row is among the rows the walk has added,
    unless the database refuses the row. *)
Theorem permission_denied_not_fatal (rootId : Z) (cur : WalkerContext)
    (s : State) (op p : string) :
  qualifies cur = true ->
  os_Open os (path_of cur) = Err (PathError op p "permission denied") ->
  HashAndCatalog rootId cur s = (emit (EvOpenFile (path_of cur)) s, None)
  /\ (forall fileQ,
        step rootId (cur :: fileQ) s
        = Continue fileQ (emit (EvOpenFile (path_of cur)) s))
  /\ (forall before x rest file fp fuel,
        Forall calm before ->
        qualifies x = true ->
        os_Open os (path_of x) = Ok file ->
        SmartHash file (Info x) threshold = Ok fp ->
        (length before + 2 <= fuel)%nat ->
        exists tr rows,
          trace (loop fuel rootId (cur :: before ++ x :: rest) s).1
          = trace s ++ EvOpenFile (path_of cur) :: tr
          /\ files (db (loop fuel rootId (cur :: before ++ x :: rest) s).1)
             = files (db s) ++ rows
          /\ In (EvOpenFile (path_of x)) tr
          /\ In (EvSmartHash (path_of x)) tr
          /\ (db_fault (db s)
                (InsertFile
                   (mkFileRow rootId (Sprintf_x fp) (path_of x)
                      (ModTime (Info x)))) = None ->
              In (mkFileRow rootId (Sprintf_x fp) (path_of x)
                    (ModTime (Info x))) rows)).
Proof.
  intros Hq Hdenied.
  pose proof (HashAndCatalog_denied path_Join os rootId cur s op p Hdenied)
    as Hhc.
  assert (Hstep : forall fileQ,
            step rootId (cur :: fileQ) s
            = Continue fileQ (emit (EvOpenFile (path_of cur)) s)).
  { intros fileQ. rewrite (step_qualifying path_Join os Opts) by exact Hq.
    now rewrite Hhc. }
  split; [exact Hhc|]. split; [exact Hstep|].
  intros before x rest file fp fuel Hb Hqx Ho Hh Hfuel.
  destruct fuel as [|fuel]; [lia|].
  rewrite (loop_step_continue path_Join os Opts _ _ _ _ _ _ (Hstep _)).
  destruct (loop_reaches_added rootId before x rest
              (emit (EvOpenFile (path_of cur)) s) file fp fuel
              Hb Hqx Ho Hh ltac:(lia))
    as (tr & rows & Ht & Hf & H1 & H2 & H3).
  exists tr, rows. rewrite Ht, Hf. cbn [emit trace db].
  rewrite <- app_assoc. auto.
Qed.

(** C10: the root is never tested against the patterns.  Also when the
    root path matches an exclusion pattern, [Run] lists the root first.
    Every qualifying file among its kept entries, with any number of
    entries in front whose passes do not end the walk, is opened and
    fingerprinted, and its row is among the rows the walk has added,
    unless the database refuses the row.  And when the walk returns
    without an error, the same holds of everything below the root, at
    any depth, that is reached through entries matching no exclusion
    pattern: the directories were listed, the qualifying files opened
    and, where they could be opened, fingerprinted and recorded.  (The
    hypothesis on [Match] is the case the claim is about; nothing in
    the walk looks at it.) *)
Theorem root_never_filtered (s : State) (rootInfo : FileInfo)
    (d : DB) (rootId : Z) (dir : File) (infos : list FileInfo) :
  os_Stat os (root Opts) = Ok rootInfo ->
  IsDir rootInfo = true ->
  EnsureRootId (db s) (root Opts) = (d, Ok rootId) ->
  os_Open os (path_of (seed_of rootInfo)) = Ok dir ->
  Readdir dir = Ok infos ->
  Match (excludes Opts) (root Opts) = true ->
  (forall fuel,
     exists tr,
       trace (Run (S fuel) s).1
       = trace s ++ EvOpenDir (path_of (seed_of rootInfo)) :: tr)
  /\ (forall fuel before info rest file fp,
        List.filter (keep (path_of (seed_of rootInfo))) infos
        = before ++ info :: rest ->
        Forall calm
          (map (fun i => mkWalkerContext i (path_of (seed_of rootInfo)))
             before) ->
        qualifies (mkWalkerContext info (path_of (seed_of rootInfo)))
        = true ->
        os_Open os (path_Join (path_of (seed_of rootInfo)) (Name info))
        = Ok file ->
        SmartHash file info threshold = Ok fp ->
        (length before + 2 <= fuel)%nat ->
        exists tr rows,
          trace (Run fuel s).1
          = trace s ++ EvOpenDir (path_of (seed_of rootInfo)) :: tr
          /\ files (db (Run fuel s).1) = files (db s) ++ rows
          /\ In (EvOpenFile
                   (path_Join (path_of (seed_of rootInfo)) (Name info))) tr
          /\ In (EvSmartHash
                   (path_Join (path_of (seed_of rootInfo)) (Name info))) tr
          /\ (db_fault (db s)
                (InsertFile
                   (mkFileRow rootId (Sprintf_x fp)
                      (path_Join (path_of (seed_of rootInfo)) (Name info))
                      (ModTime info))) = None ->
              In (mkFileRow rootId (Sprintf_x fp)
                    (path_Join (path_of (seed_of rootInfo)) (Name info))
                    (ModTime info)) rows))
  /\ (forall fuel,
        (Run fuel s).2 = Returned None ->
        exists tr rows,
          trace (Run fuel s).1 = trace s ++ tr
          /\ files (db (Run fuel s).1) = files (db s) ++ rows
          /\ forall x anc,
               lineage (seed_of rootInfo) anc x ->
               (IsDir (Info x) = true -> In (EvOpenDir (path_of x)) tr)
               /\ (qualifies x = true ->
                   In (EvOpenFile (path_of x)) tr
                   /\ forall file,
                        os_Open os (path_of x) = Ok file ->
                        In (EvSmartHash (path_of x)) tr
                        /\ exists fp,
                             SmartHash file (Info x) threshold = Ok fp
                             /\ (db_fault (db s)
                                   (InsertFile
                                      (mkFileRow rootId (Sprintf_x fp)
                                         (path_of x) (ModTime (Info x))))
                                 = None ->
                                 In (mkFileRow rootId (Sprintf_x fp)
                                       (path_of x) (ModTime (Info x)))
                                    rows))).
Proof.
  intros Hs Hd He Ho Hr _. split; [|split].
  - intros fuel.
    destruct (Run_root_listed fuel s rootInfo d rootId dir infos
                Hs Hd He Ho Hr) as [Ht _].
    eexists. exact Ht.
  - intros fuel before info rest file fp Hkept Hb Hq Hopen Hh Hfuel.
    destruct fuel as [|fuel]; [lia|].
    destruct (Run_root_listed fuel s rootInfo d rootId dir infos
                Hs Hd He Ho Hr) as [Ht Hf].
    rewrite Hkept, map_app in Ht, Hf. cbn [map] in Ht, Hf.
    destruct (loop_reaches rootId _
                (mkWalkerContext info (path_of (seed_of rootInfo)))
                (map (fun i => mkWalkerContext i (path_of (seed_of rootInfo)))
                   rest)
                (blank s) file fp fuel Hb Hq Hopen Hh)
      as (H1 & H2 & H3).
    { rewrite length_map. lia. }
    do 2 eexists. split; [exact Ht|]. split; [exact Hf|]. auto.
  - intros fuel Hret.
    destruct (Run_added fuel s rootInfo d rootId Hs Hd He)
      as (_ & Ht & Hf & Hout).
    rewrite Hout in Hret.
    destruct (loop_seed_audited fuel s rootId (seed_of rootInfo))
      as (Hdb & _).
    do 2 eexists. split; [exact Ht|]. split; [exact Hf|].
    intros x anc Hl.
    pose proof (loop_seed_complete fuel s rootId (seed_of rootInfo) Hret
                  x anc Hl) as [Hdir Hfile].
    split; [exact Hdir|].
    intros Hq. destruct (Hfile Hq) as [Hopen Hrec]. split; [exact Hopen|].
    intros file Hfo. destruct (Hrec file Hfo) as (Hsm & fp & Hfp & Hrow).
    split; [exact Hsm|]. exists fp. split; [exact Hfp|].
    intros Hok. apply Hrow. rewrite Hdb. exact Hok.
Qed.

End WalkResults.

(** C8, amended: inclusion filtering of a regular file.  Taken from the
    queue, the file is passed over, with no effect, when there are
    inclusion patterns and its path matches none.  With no inclusion
    pattern, or with one that its path matches, the file is opened;
    when it can be opened its fingerprint is computed by [SmartHash]
    and the pass leaves the row with that fingerprint at the end of
    the table of files (or the table as it was, when the database
    refuses the row), an error of [SmartHash] ends the walk, and a
    file denied on opening is left without a fingerprint.  The pass
    that lists a directory does not depend on the inclusion patterns.
    And in a walk that returns without an error, a regular file the
    walk can come to is opened exactly when there is no inclusion
    pattern or its path matches one; when it can be opened, it is
    fingerprinted exactly then, and its row is then among the rows the
    walk has added, while no row is added for the path otherwise. *)
Theorem inclusion_filter (path_Join : string -> string -> string) (os : OS)
    (Opts : Options) (rootId : Z) (cur : WalkerContext)
    (fileQ : list WalkerContext) (s : State) :
  IsDir (Info cur) = false -> IsRegular (Mode (Info cur)) = true ->
  (includes Opts <> [] ->
   ~ matches_some (includes Opts) (path_of path_Join cur) ->
   step path_Join os Opts rootId (cur :: fileQ) s = Continue fileQ s)
  /\ (includes Opts = []
      \/ matches_some (includes Opts) (path_of path_Join cur) ->
      (forall file fp,
         os_Open os (path_of path_Join cur) = Ok file ->
         SmartHash file (Info cur) threshold = Ok fp ->
         (db_fault (db s)
            (InsertFile
               (mkFileRow rootId (Sprintf_x fp) (path_of path_Join cur)
                  (ModTime (Info cur)))) = None ->
          step path_Join os Opts rootId (cur :: fileQ) s
          = Continue fileQ
              (mkState
                 (mkDB (roots (db s))
                    (files (db s)
                     ++ [mkFileRow rootId (Sprintf_x fp)
                           (path_of path_Join cur) (ModTime (Info cur))])
                    (db_fault (db s)))
                 (trace s ++ [EvOpenFile (path_of path_Join cur);
                              EvSmartHash (path_of path_Join cur)])))
         /\ (db_fault (db s)
               (InsertFile
                  (mkFileRow rootId (Sprintf_x fp) (path_of path_Join cur)
                     (ModTime (Info cur)))) <> None ->
             step path_Join os Opts rootId (cur :: fileQ) s
             = Continue fileQ
                 (mkState (db s)
                    (trace s ++ [EvOpenFile (path_of path_Join cur);
                                 EvSmartHash (path_of path_Join cur)]))))
      /\ (forall file e,
            os_Open os (path_of path_Join cur) = Ok file ->
            SmartHash file (Info cur) threshold = Err e ->
            step path_Join os Opts rootId (cur :: fileQ) s
            = Return
                (mkState (db s)
                   (trace s ++ [EvOpenFile (path_of path_Join cur);
                                EvSmartHash (path_of path_Join cur)]))
                (Some (errorString
                         (path_of path_Join cur +:+ ": " +:+ Error e))))
      /\ (forall op q,
            os_Open os (path_of path_Join cur)
            = Err (PathError op q "permission denied") ->
            step path_Join os Opts rootId (cur :: fileQ) s
            = Continue fileQ
                (mkState (db s)
                   (trace s ++ [EvOpenFile (path_of path_Join cur)]))))
  /\ (forall (Opts' : Options) (dir : WalkerContext),
        excludes Opts' = excludes Opts ->
        IsDir (Info dir) = true ->
        step path_Join os Opts' rootId (dir :: fileQ) s
        = step path_Join os Opts rootId (dir :: fileQ) s)
  /\ (forall (path_Dir : string -> string) (fuel : nat) (s0 : State)
        (rootInfo : FileInfo) (anc : list string),
        os_Stat os (root Opts) = Ok rootInfo ->
        (Run path_Join path_Dir os Opts fuel s0).2 = Returned None ->
        lineage path_Join os Opts (seed_of path_Dir Opts rootInfo) anc cur ->
        exists id tr rows,
          index_of (root Opts)
            (roots (EnsureRootId (db s0) (root Opts)).1) 1 = Some id
          /\ trace (Run path_Join path_Dir os Opts fuel s0).1
             = trace s0 ++ tr
          /\ files (db (Run path_Join path_Dir os Opts fuel s0).1)
             = files (db s0) ++ rows
          /\ (In (EvOpenFile (path_of path_Join cur)) tr
              <-> includes Opts = []
                  \/ matches_some (includes Opts) (path_of path_Join cur))
          /\ (forall file,
                os_Open os (path_of path_Join cur) = Ok file ->
                (In (EvSmartHash (path_of path_Join cur)) tr
                 <-> includes Opts = []
                     \/ matches_some (includes Opts)
                          (path_of path_Join cur))
                /\ (includes Opts = []
                    \/ matches_some (includes Opts) (path_of path_Join cur) ->
                    exists fp,
                      SmartHash file (Info cur) threshold = Ok fp
                      /\ (db_fault (db s0)
                            (InsertFile
                               (mkFileRow id (Sprintf_x fp)
                                  (path_of path_Join cur)
                                  (ModTime (Info cur)))) = None ->
                          In (mkFileRow id (Sprintf_x fp)
                                (path_of path_Join cur)
                                (ModTime (Info cur))) rows)))
          /\ (~ (includes Opts = []
                 \/ matches_some (includes Opts) (path_of path_Join cur)) ->
              forall row,
                In row rows -> row_path row <> path_of path_Join cur)).
Proof.
  intros Hd Hr. split; [|split; [|split]].
  - intros Hne Hm. apply step_not_qualifying; [exact Hd|].
    unfold qualifies. rewrite Hd, Hr.
    destruct (Match (includes Opts) (path_of path_Join cur)) eqn:E.
    { apply Match_true_iff in E. contradiction. }
    destruct (includes Opts); [contradiction|]. reflexivity.
  - intros Hc.
    pose proof (includes_qualifies path_Join Opts cur Hd Hr Hc) as Hq.
    pose proof (step_qualifying path_Join os Opts rootId cur fileQ s Hq)
      as Hstep.
    split; [|split].
    + intros file fp Ho Hh.
      rewrite (HashAndCatalog_hashed path_Join os rootId cur s file fp Ho Hh)
        in Hstep.
      split.
      * intros Hok. rewrite Hstep.
        now rewrite (CatalogHash_accepted _ _ _ _ _ Hok).
      * intros Hno. rewrite Hstep. unfold CatalogHash.
        destruct (db_fault (db s) _); [reflexivity|contradiction].
    + intros file e Ho Hh.
      rewrite (HashAndCatalog_hash_error path_Join os rootId cur s file e
                 Ho Hh) in Hstep.
      rewrite Hstep. unfold emit. cbn [db trace]. now rewrite <- app_assoc.
    + intros op q Ho.
      rewrite (HashAndCatalog_denied path_Join os rootId cur s op q Ho)
        in Hstep.
      exact Hstep.
  - intros Opts' dir Hex Hdir. unfold step, enqueue.
    rewrite Hdir, Hex. reflexivity.
  - intros path_Dir fuel s0 rootInfo anc Hs Hret Hl.
    exact (Run_inclusion path_Join path_Dir os Opts fuel s0 rootInfo cur anc
             Hs Hret Hl Hd Hr).
Qed.

(** ** The further theorems at the examples *)

Lemma sampleHash_minimum_size_witness :
  sampleHash file_2047 2047
  = Ok (preimage
          (XXH64.Sum64 (bytes_at file_2047 0 ++ bytes_at file_2047 1023
                          ++ bytes_at file_2047 1023)) 2047)
  /\ sampleHash file_2046 2046 = Err (errorString "Unexpected EOF!").
Proof.
  split.
  - apply (proj1 (sampleHash_minimum_size file_2047 2047
                    ltac:(lia) eq_refl (fun p _ => eq_refl))).
    lia.
  - apply (proj2 (sampleHash_minimum_size file_2046 2046
                    ltac:(lia) eq_refl (fun p _ => eq_refl))).
    lia.
Defined.

Lemma SmartHash_size_below_window_witness :
  SmartHash (regular "/r/a.txt" (text "0123456789")) info_a 0
  = Err (errorString "Unexpected EOF!")
  \/ SmartHash (regular "/r/a.txt" (text "0123456789")) info_a 0
     = Err (PathError "readat" "/r/a.txt" "negative offset").
Proof.
  apply (SmartHash_size_below_window
           (regular "/r/a.txt" (text "0123456789")) info_a 0).
  - vm_compute. discriminate.
  - split; [vm_compute; discriminate|reflexivity].
Defined.

Lemma SmartHash_zero_tail_witness :
  SmartHash (extend file_short_tail 100) info_tail threshold
  = SmartHash file_short_tail info_tail threshold.
Proof.
  apply (SmartHash_zero_tail file_short_tail info_tail 100).
  - vm_compute. discriminate.
  - reflexivity.
  - vm_compute. discriminate.
  - intros p _. reflexivity.
Defined.

Lemma Sprintf_x_round_trip_witness :
  Sprintf_x 48879 = "beef" /\ parse_hex (Sprintf_x 48879) = 48879.
Proof.
  split; [reflexivity|].
  apply (proj1 (Sprintf_x_round_trip 48879 ltac:(lia))).
Defined.

Lemma fingerprints_keep_apart_witness :
  0 <= 15583016240330083129 < 2 ^ 64
  /\ (Sprintf_x 15583016240330083129 = Sprintf_x 14892211147337965248
      <-> 15583016240330083129 = 14892211147337965248).
Proof.
  apply (fingerprints_keep_apart
           (regular "/r/a.txt" (text "0123456789"))
           (regular "/r/z.txt" (text "hello")) info_a info_z
           threshold threshold).
  - vm_compute. reflexivity.
  - vm_compute. reflexivity.
Defined.

Lemma EnsureRootId_get_or_insert_witness :
  EnsureRootId empty_db "/r" = (mkDB ["/r"] [] (db_fault empty_db), Ok 1)
  /\ EnsureRootId (mkDB ["/r"] [] (db_fault empty_db)) "/r"
     = (mkDB ["/r"] [] (db_fault empty_db), Ok 1).
Proof.
  split; [reflexivity|].
  apply (EnsureRootId_get_or_insert empty_db
           (mkDB ["/r"] [] (db_fault empty_db)) "/r" 1 eq_refl).
Defined.

Lemma EnsureRootId_keeps_roots_apart_witness :
  NoDup (roots (EnsureRootId (mkDB ["/v"] [] (db_fault empty_db)) "/r").1).
Proof.
  apply (EnsureRootId_keeps_roots_apart
           (mkDB ["/v"] [] (db_fault empty_db)) "/r").
  cbn [roots]. apply NoDup_singleton.
Defined.

Lemma open_errors_witness :
  (HashAndCatalog Join2 ex_os 1 (mkWalkerContext info_locked "/r") start).2
  = None
  /\ db (HashAndCatalog Join2 ex_os 1 (mkWalkerContext info_locked "/r")
           start).1 = db start.
Proof.
  destruct (open_errors Join2 ex_os opts_skip 1
              (mkWalkerContext info_locked "/r") [] start
              (PathError "open" "/r/locked.txt" "permission denied") eq_refl)
    as (Hnil & Hdb & _).
  split; [|exact Hdb]. apply Hnil. eauto.
Defined.

Lemma Run_opens_only_qualifying_witness :
  exists tr,
    trace (Run Join2 Dir1 ex_os opts_skip 10 start).1 = trace start ++ tr
    /\ forall p,
         In (EvOpenFile p) tr \/ In (EvSmartHash p) tr ->
         exists x anc,
           lineage Join2 ex_os opts_skip (seed_of Dir1 opts_skip info_r) anc x
           /\ p = path_of Join2 x
           /\ IsDir (Info x) = false
           /\ IsRegular (Mode (Info x)) = true
           /\ (includes opts_skip = [] \/ Match (includes opts_skip) p = true).
Proof.
  exact (Run_opens_only_qualifying Join2 Dir1 ex_os opts_skip 10 start info_r
           eq_refl).
Defined.

Lemma Run_records_fingerprints_witness :
  exists rows,
    files (db (Run Join2 Dir1 ex_os opts_skip 10 start).1)
    = files (db start) ++ rows
    /\ forall row,
         In row rows ->
         exists x anc file fp rootId,
           lineage Join2 ex_os opts_skip (seed_of Dir1 opts_skip info_r) anc x
           /\ index_of (root opts_skip)
                (roots (db (Run Join2 Dir1 ex_os opts_skip 10 start).1)) 1
              = Some rootId
           /\ os_Open ex_os (path_of Join2 x) = Ok file
           /\ SmartHash file (Info x) threshold = Ok fp
           /\ row = mkFileRow rootId (Sprintf_x fp) (path_of Join2 x)
                      (ModTime (Info x)).
Proof.
  exact (Run_records_fingerprints Join2 Dir1 ex_os opts_skip 10 start info_r
           eq_refl).
Defined.

Lemma Run_returns_witness :
  walk_size Join2 ex_os opts_root (seed_of Dir1 opts_root info_r) 7
  /\ exists err, (Run Join2 Dir1 ex_os opts_root 8 start).2 = Returned err.
Proof.
  assert (Hsz : walk_size Join2 ex_os opts_root
                  (seed_of Dir1 opts_root info_r) 7).
  { apply (walk_size_dir Join2 ex_os opts_root
             (seed_of Dir1 opts_root info_r)
             (directory "/r"
                [info_a; info_locked; info_skip; info_skip_txt; info_z])
             [info_a; info_locked; info_skip; info_skip_txt; info_z]
             [1; 1; 2; 1; 1]%nat eq_refl eq_refl eq_refl).
    simpl.
    constructor; [apply walk_size_file; reflexivity|].
    constructor; [apply walk_size_file; reflexivity|].
    constructor;
      [|constructor; [apply walk_size_file; reflexivity|];
        constructor; [apply walk_size_file; reflexivity|constructor]].
    apply (walk_size_dir Join2 ex_os opts_root
             (mkWalkerContext info_skip "/r")
             (directory "/r/skip" [info_b]) [info_b] [1%nat]
             eq_refl eq_refl eq_refl).
    simpl.
    constructor; [apply walk_size_file; reflexivity|constructor]. }
  split; [exact Hsz|].
  apply (Run_returns Join2 Dir1 ex_os opts_root 8 7 start info_r eq_refl Hsz).
  lia.
Defined.

Lemma Run_complete_witness :
  (Run Join2 Dir1 ex_os opts_skip 10 start).2 = Returned None
  /\ In (mkFileRow 1 "ceabc322dd311ec0" "/r/z.txt" 1004)
        (files (db (Run Join2 Dir1 ex_os opts_skip 10 start).1)).
Proof.
  assert (Hret : (Run Join2 Dir1 ex_os opts_skip 10 start).2 = Returned None)
    by (vm_compute; reflexivity).
  split; [exact Hret|].
  destruct (Run_complete Join2 Dir1 ex_os opts_skip 10 start info_r
              eq_refl Hret) as (rootId & Hid & Hall).
  assert (Hone : rootId = 1) by (vm_compute in Hid; congruence).
  subst rootId.
  assert (Hl : lineage Join2 ex_os opts_skip (seed_of Dir1 opts_skip info_r)
                 ["/r"] (mkWalkerContext info_z "/r")).
  { apply (lineage_child Join2 ex_os opts_skip _
             (seed_of Dir1 opts_skip info_r) []
             (directory "/r"
                [info_a; info_locked; info_skip; info_skip_txt; info_z])
             [info_a; info_locked; info_skip; info_skip_txt; info_z] info_z);
      try reflexivity; [constructor|].
    simpl. tauto. }
  destruct (Hall _ _ Hl) as [_ Hfile].
  destruct (Hfile eq_refl) as [_ Hrec].
  destruct (Hrec (regular "/r/z.txt" (text "hello")) eq_refl)
    as (_ & fp & Hfp & Hrow).
  assert (Hval : fp = 14892211147337965248)
    by (vm_compute in Hfp; congruence).
  subst fp. exact (Hrow eq_refl).
Defined.

Lemma SmartHash_ignores_growth_witness :
  SmartHash (grown file_zeros (text "more")) info_512k threshold
  = SmartHash file_zeros info_512k threshold.
Proof.
  apply (SmartHash_ignores_growth file_zeros info_512k (text "more")).
  - vm_compute. discriminate.
  - reflexivity.
  - vm_compute. discriminate.
Defined.

(** ** The theorems about the results of the walk, at the examples *)

(** With no inclusion pattern, the file [/r/locked.txt] is regular,
    matches no exclusion pattern and is taken from the queue, and the
    walk returns without an error; yet the file, which cannot be
    opened, is not fingerprinted and has no row. *)
Lemma denied_file_not_fingerprinted :
  includes opts_root = []
  /\ Match (excludes opts_root) "/r/locked.txt" = false
  /\ IsDir info_locked = false
  /\ IsRegular (Mode info_locked) = true
  /\ (Run Join2 Dir1 ex_os opts_root 10 start).2 = Returned None
  /\ In (EvOpenFile "/r/locked.txt")
        (trace (Run Join2 Dir1 ex_os opts_root 10 start).1)
  /\ ~ In (EvSmartHash "/r/locked.txt")
          (trace (Run Join2 Dir1 ex_os opts_root 10 start).1)
  /\ ~ In "/r/locked.txt"
          (map row_path
             (files (db (Run Join2 Dir1 ex_os opts_root 10 start).1))).
Proof.
  vm_compute. repeat split; auto 20; intros H;
    repeat (destruct H as [H|H]; [discriminate H|]); exact H.
Qed.

Lemma CatalogHash_appends_witness :
  absolute "/r/a.txt" = true
  /\ files (CatalogHash empty_db 1 15583016240330083129 "/r/a.txt" 1001).1
     = [mkFileRow 1 "d841feb54e048b39" "/r/a.txt" 1001]
  /\ files (CatalogHash
              (CatalogHash empty_db 1 15583016240330083129 "/r/a.txt" 1001).1
              1 15583016240330083129 "/r/a.txt" 1001).1
     = [mkFileRow 1 "d841feb54e048b39" "/r/a.txt" 1001;
        mkFileRow 1 "d841feb54e048b39" "/r/a.txt" 1001].
Proof.
  assert (Ha : absolute "/r/a.txt" = true) by reflexivity.
  destruct (CatalogHash_appends empty_db 1 15583016240330083129 "/r/a.txt"
              1001 Ha) as [Hok _].
  destruct (Hok 1 eq_refl) as (H1 & _ & _ & H2).
  split; [exact Ha|]. split; [exact H1|exact H2].
Defined.

Lemma permission_denied_not_fatal_witness :
  qualifies Join2 opts_skip (mkWalkerContext info_locked "/r") = true
  /\ HashAndCatalog Join2 ex_os 1 (mkWalkerContext info_locked "/r") start
     = (emit (EvOpenFile "/r/locked.txt") start, None)
  /\ exists tr rows,
       trace (loop Join2 ex_os opts_skip 3 1
                [mkWalkerContext info_locked "/r";
                 mkWalkerContext info_a "/r";
                 mkWalkerContext info_z "/r"] start).1
       = trace start ++ EvOpenFile "/r/locked.txt" :: tr
       /\ files (db (loop Join2 ex_os opts_skip 3 1
                       [mkWalkerContext info_locked "/r";
                        mkWalkerContext info_a "/r";
                        mkWalkerContext info_z "/r"] start).1)
          = files (db start) ++ rows
       /\ In (EvOpenFile "/r/z.txt") tr
       /\ In (EvSmartHash "/r/z.txt") tr
       /\ In (mkFileRow 1 "ceabc322dd311ec0" "/r/z.txt" 1004) rows.
Proof.
  assert (Hq : qualifies Join2 opts_skip (mkWalkerContext info_locked "/r")
               = true) by reflexivity.
  destruct (permission_denied_not_fatal Join2 ex_os opts_skip 1
              (mkWalkerContext info_locked "/r")
              start "open" "/r/locked.txt" Hq eq_refl)
    as (Hhc & _ & Hlater).
  assert (Ha : SmartHash (regular "/r/a.txt" (text "0123456789")) info_a
                 threshold = Ok 15583016240330083129)
    by (vm_compute; reflexivity).
  assert (Hz : SmartHash (regular "/r/z.txt" (text "hello")) info_z
                 threshold = Ok 14892211147337965248)
    by (vm_compute; reflexivity).
  assert (Hcalm : Forall (calm Join2 ex_os opts_skip)
                    [mkWalkerContext info_a "/r"]).
  { constructor; [|constructor]. right. right.
    exists (regular "/r/a.txt" (text "0123456789")), 15583016240330083129.
    split; [reflexivity|exact Ha]. }
  destruct (Hlater [mkWalkerContext info_a "/r"] (mkWalkerContext info_z "/r")
              [] (regular "/r/z.txt" (text "hello")) 14892211147337965248
              3%nat Hcalm eq_refl eq_refl Hz ltac:(simpl; lia))
    as (tr & rows & Ht & Hf & H1 & H2 & H3).
  split; [exact Hq|]. split; [exact Hhc|].
  exists tr, rows.
  split; [exact Ht|]. split; [exact Hf|]. split; [exact H1|].
  split; [exact H2|]. exact (H3 eq_refl).
Defined.

Lemma inclusion_filter_witness :
  (includes opts_skip <> []
   /\ matches_some (includes opts_skip) "/r/a.txt"
   /\ step Join2 ex_os opts_skip 1 [mkWalkerContext info_a "/r"] start
      = Continue []
          (mkState
             (mkDB [] [mkFileRow 1 "d841feb54e048b39" "/r/a.txt" 1001]
                (db_fault empty_db))
             [EvOpenFile "/r/a.txt"; EvSmartHash "/r/a.txt"]))
  /\ (~ matches_some (includes opts_skip) "/v/cut.bin"
      /\ step Join2 ex_os opts_skip 1 [mkWalkerContext info_cut "/v"] start
         = Continue [] start).
Proof.
  assert (Hne : includes opts_skip <> []) by discriminate.
  assert (Ha : matches_some (includes opts_skip) "/r/a.txt").
  { apply Match_true_iff. reflexivity. }
  assert (Hc : ~ matches_some (includes opts_skip) "/v/cut.bin").
  { intros H. apply Match_true_iff in H. discriminate H. }
  assert (Hh : SmartHash (regular "/r/a.txt" (text "0123456789")) info_a
                 threshold = Ok 15583016240330083129)
    by (vm_compute; reflexivity).
  split.
  - split; [exact Hne|]. split; [exact Ha|].
    destruct (inclusion_filter Join2 ex_os opts_skip 1
                (mkWalkerContext info_a "/r") [] start eq_refl eq_refl)
      as (_ & Hin & _).
    destruct (Hin (or_intror Ha)) as (Hfp & _).
    exact (proj1 (Hfp (regular "/r/a.txt" (text "0123456789"))
                    15583016240330083129 eq_refl Hh) eq_refl).
  - split; [exact Hc|].
    exact (proj1 (inclusion_filter Join2 ex_os opts_skip 1
                    (mkWalkerContext info_cut "/v") [] start
                    eq_refl eq_refl) Hne Hc).
Defined.

Lemma root_never_filtered_witness :
  Match (excludes opts_root) (root opts_root) = true
  /\ (exists tr rows,
        trace (Run Join2 Dir1 ex_os opts_root 10 start).1
        = trace start ++ EvOpenDir "/r" :: tr
        /\ files (db (Run Join2 Dir1 ex_os opts_root 10 start).1)
           = files (db start) ++ rows
        /\ In (EvOpenFile "/r/z.txt") tr
        /\ In (EvSmartHash "/r/z.txt") tr
        /\ In (mkFileRow 1 "ceabc322dd311ec0" "/r/z.txt" 1004) rows)
  /\ (exists tr rows,
        trace (Run Join2 Dir1 ex_os opts_root 10 start).1 = trace start ++ tr
        /\ files (db (Run Join2 Dir1 ex_os opts_root 10 start).1)
           = files (db start) ++ rows
        /\ In (EvOpenDir "/r/skip") tr
        /\ In (EvSmartHash "/r/skip/b.txt") tr
        /\ In (mkFileRow 1 "c12a534d10d07860" "/r/skip/b.txt" 1005) rows).
Proof.
  assert (Hm : Match (excludes opts_root) (root opts_root) = true)
    by reflexivity.
  destruct (root_never_filtered Join2 Dir1 ex_os opts_root start info_r
              (mkDB ["/r"] [] (db_fault empty_db)) 1
              (directory "/r"
                 [info_a; info_locked; info_skip; info_skip_txt; info_z])
              [info_a; info_locked; info_skip; info_skip_txt; info_z]
              eq_refl eq_refl eq_refl eq_refl eq_refl Hm)
    as (_ & Hentry & Hbelow).
  assert (Ha : SmartHash (regular "/r/a.txt" (text "0123456789")) info_a
                 threshold = Ok 15583016240330083129)
    by (vm_compute; reflexivity).
  assert (Hx : SmartHash (regular "/r/skip.txt" (text "xyz")) info_skip_txt
                 threshold = Ok 4780104628353862794)
    by (vm_compute; reflexivity).
  assert (Hz : SmartHash (regular "/r/z.txt" (text "hello")) info_z
                 threshold = Ok 14892211147337965248)
    by (vm_compute; reflexivity).
  assert (Hcalm : Forall (calm Join2 ex_os opts_root)
                    (map (fun i => mkWalkerContext i "/r")
                       [info_a; info_locked; info_skip; info_skip_txt])).
  { cbn [map].
    constructor; [|constructor; [|constructor; [|constructor;
      [|constructor]]]].
    - right. right. eexists _, _. split; [reflexivity|exact Ha].
    - right. left. eexists _, _. reflexivity.
    - eexists _, _. split; reflexivity.
    - right. right. eexists _, _. split; [reflexivity|exact Hx]. }
  split; [exact Hm|]. split.
  - destruct (Hentry 10%nat [info_a; info_locked; info_skip; info_skip_txt]
                info_z [] (regular "/r/z.txt" (text "hello"))
                14892211147337965248 eq_refl Hcalm eq_refl eq_refl Hz
                ltac:(simpl; lia))
      as (tr & rows & Ht & Hf & H1 & H2 & H3).
    exists tr, rows.
    split; [exact Ht|]. split; [exact Hf|]. split; [exact H1|].
    split; [exact H2|]. exact (H3 eq_refl).
  - assert (Hret : (Run Join2 Dir1 ex_os opts_root 10 start).2
                   = Returned None) by (vm_compute; reflexivity).
    destruct (Hbelow 10%nat Hret) as (tr & rows & Ht & Hf & Hall).
    assert (Hskip : lineage Join2 ex_os opts_root
                      (seed_of Dir1 opts_root info_r)
                      ["/r"] (mkWalkerContext info_skip "/r")).
    { apply (lineage_child Join2 ex_os opts_root _
               (seed_of Dir1 opts_root info_r) []
               (directory "/r"
                  [info_a; info_locked; info_skip; info_skip_txt; info_z])
               [info_a; info_locked; info_skip; info_skip_txt; info_z]
               info_skip);
        try reflexivity; [constructor|].
      simpl. tauto. }
    assert (Hb : lineage Join2 ex_os opts_root
                   (seed_of Dir1 opts_root info_r)
                   ["/r/skip"; "/r"] (mkWalkerContext info_b "/r/skip")).
    { apply (lineage_child Join2 ex_os opts_root _
               (mkWalkerContext info_skip "/r") ["/r"]
               (directory "/r/skip" [info_b]) [info_b] info_b);
        try reflexivity; [exact Hskip|].
      simpl. tauto. }
    destruct (Hall _ _ Hskip) as [Hdir _].
    destruct (Hall _ _ Hb) as [_ Hfile].
    destruct (Hfile eq_refl) as [_ Hrec].
    destruct (Hrec (regular "/r/skip/b.txt" (text "abcdefghij")) eq_refl)
      as (Hsm & fp & Hfp & Hrow).
    assert (Hval : fp = 13919029188801624160)
      by (vm_compute in Hfp; congruence).
    subst fp.
    exists tr, rows.
    split; [exact Ht|]. split; [exact Hf|]. split; [exact (Hdir eq_refl)|].
    split; [exact Hsm|]. exact (Hrow eq_refl).
Defined.
